(** * gavin/minimjpeg.py: the motion-JPEG-over-HTTP broadcast driver

    A shallow embedding of [handle_frame] and of the parsing and formatting
    helpers it uses.  Python floats are binary64 primitive floats, Python
    ints are [Z], text and byte strings are [string] (sequences of 8-bit
    characters), dicts are insertion-ordered association lists.  Everything
    the function asks of its surroundings (clock, sockets, select, the image
    encoders, the interpreter's int() and float()) is answered by a [World]
    record, one per call; what the function does to its surroundings is
    recorded as a list of [Event]s.

    The development also embeds the enumerations and structures of
    gavin/gavin.py and, from gavin/client.py, the two callbacks and the
    wrapper of the vendor library, whose answers are given by a [Lib]
    record. *)

From Stdlib Require Import ZArith List String Ascii Bool Floats Lia DecimalString.
Import ListNotations.

Set Implicit Arguments.

Local Open Scope list_scope.
Local Open Scope string_scope.

(* ================================================================== *)
(** ** Python built-ins used by the module *)

Module Py.

(** max(a, b) on floats: the second argument wins only when it is
    strictly greater than the first. *)
Definition max (a b : float) : float :=
  if PrimFloat.ltb a b then b else a.

(** max(list) on ints; [None] stands for the ValueError on an empty list. *)
Definition max_list (l : list Z) : option Z :=
  match l with
  | [] => None
  | x :: r => Some (fold_left Z.max r x)
  end.

(** len(s) *)
Definition len (s : string) : Z := Z.of_nat (String.length s).

(** [str.format] of a nonnegative int. *)
Definition str_of_nat (n : nat) : string :=
  NilZero.string_of_uint (Nat.to_uint n).

(** str(n), and what an f-string makes of an int. *)
Definition str_of_Z (n : Z) : string :=
  NilZero.string_of_int (Z.to_int n).

Definition CR : ascii := ascii_of_nat 13.
Definition LF : ascii := ascii_of_nat 10.
Definition CRLF : string := String CR (String LF EmptyString).
Definition DQUOTE : string := String (ascii_of_nat 34) EmptyString.

(** x in list, for strings *)
Definition str_in (x : string) (l : list string) : bool :=
  existsb (String.eqb x) l.

(** sorted(list) for strings: insertion sort on code-point order. *)
Fixpoint insert_sorted (x : string) (l : list string) : list string :=
  match l with
  | [] => [x]
  | y :: r => if String.leb x y then x :: l else y :: insert_sorted x r
  end.

Definition sorted (l : list string) : list string :=
  fold_right insert_sorted [] l.

(** enumerate(list) *)
Fixpoint enumerate_from {A} (i : nat) (l : list A) : list (nat * A) :=
  match l with
  | [] => []
  | x :: r => (i, x) :: enumerate_from (S i) r
  end.

Definition enumerate {A} (l : list A) : list (nat * A) := enumerate_from 0 l.

End Py.

(* ================================================================== *)
(** ** Dicts

    A Python dict keeps its keys in insertion order; assigning to a key
    that is present keeps its position; deleting a key that is absent is a
    KeyError ([None] below). *)

Module Dict.
Section Dict.
Variables K V : Type.
Variable eqb : K -> K -> bool.

Definition t := list (K * V).

Fixpoint get (k : K) (d : t) : option V :=
  match d with
  | [] => None
  | (k', v) :: r => if eqb k k' then Some v else get k r
  end.

Definition mem (k : K) (d : t) : bool :=
  match get k d with Some _ => true | None => false end.

Fixpoint set (k : K) (v : V) (d : t) : t :=
  match d with
  | [] => [(k, v)]
  | (k', v') :: r => if eqb k k' then (k', v) :: r else (k', v') :: set k v r
  end.

Fixpoint remove (k : K) (d : t) : t :=
  match d with
  | [] => []
  | (k', v') :: r => if eqb k k' then r else (k', v') :: remove k r
  end.

Definition del (k : K) (d : t) : option t :=
  if mem k d then Some (remove k d) else None.

Definition keys (d : t) : list K := map fst d.
Definition values (d : t) : list V := map snd d.

(** dict(pairs): later pairs override earlier ones. *)
Definition of_pairs (l : list (K * V)) : t :=
  fold_left (fun d kv => set (fst kv) (snd kv) d) l [].

End Dict.
End Dict.

(* ================================================================== *)
(** ** The two regular expressions *)

(** [\s] of a Python 3 str pattern, on the code points below 256. *)
Definition is_space (c : ascii) : bool :=
  let n := nat_of_ascii c in
  ((9 <=? n) && (n <=? 13) || (28 <=? n) && (n <=? 32) || (n =? 133) || (n =? 160))%nat.

(** [[0-9a-zA-Z_]] *)
Definition is_word (c : ascii) : bool :=
  let n := nat_of_ascii c in
  ((48 <=? n) && (n <=? 57) || (97 <=? n) && (n <=? 122)
   || (65 <=? n) && (n <=? 90) || (n =? 95))%nat.

(** The longest prefix whose characters all satisfy [p], and the rest. *)
Fixpoint span (p : ascii -> bool) (s : string) : string * string :=
  match s with
  | EmptyString => (EmptyString, EmptyString)
  | String c r =>
      if p c then let (u, v) := span p r in (String c u, v)
      else (EmptyString, s)
  end.

(** One attempt of GET_RE at the start of [s]: the literal [GET /], then
    a greedy run of non-space characters, which is the captured group.
    Returns the group and the length of the whole match. *)
Definition GET_RE_match (s : string) : option (string * nat) :=
  if String.prefix "GET /" s then
    let path := fst (span (fun c => negb (is_space c)) (substring 5 (String.length s - 5) s)) in
    Some (path, 5 + String.length path)%nat
  else None.

(** One attempt of PARAM_RE at the start of [s]: a non-empty run of word
    characters, an equals sign, a non-empty run of word characters.
    Both groups are greedy; a shorter key is followed by a word character
    and not by the equals sign, so only the longest key can match. *)
Definition PARAM_RE_match (s : string) : option ((string * string) * nat) :=
  let (k, r) := span is_word s in
  match k, r with
  | String _ _, String c r' =>
      if Ascii.eqb c "="%char then
        let v := fst (span is_word r') in
        match v with
        | String _ _ => Some ((k, v), String.length k + 1 + String.length v)%nat
        | EmptyString => None
        end
      else None
  | _, _ => None
  end.

(** [re.findall]: leftmost matches, not overlapping.  [skip] counts the
    characters of the last match that are still to be stepped over. *)
Section Findall.
Variable G : Type.
Variable match_at : string -> option (G * nat).

Fixpoint findall_from (skip : nat) (s : string) : list G :=
  match s with
  | EmptyString => []
  | String _ r =>
      match skip with
      | S n => findall_from n r
      | O =>
          match match_at s with
          | Some (g, n) => g :: findall_from (n - 1) r
          | None => findall_from 0 r
          end
      end
  end.

Definition findall (s : string) : list G := findall_from 0 s.
End Findall.

Definition GET_RE_findall : string -> list string := findall GET_RE_match.
Definition PARAM_RE_findall : string -> list (string * string) := findall PARAM_RE_match.

(** dict(PARAM_RE.findall(data)) *)
Definition params_of (data : string) : Dict.t string string :=
  Dict.of_pairs String.eqb (PARAM_RE_findall data).

(* ================================================================== *)
(** ** Data model *)

(** A socket object, by identity. *)
Definition Sock := nat.

(** An (ip, port) pair: the key of SERVERS and of a clients dict. *)
Definition Addr := (string * Z)%type.

Definition addr_eqb (x y : Addr) : bool :=
  String.eqb (fst x) (fst y) && Z.eqb (snd x) (snd y).

(** The two frame formats [_jpeg_compress] tells apart. *)
Inductive Image :=
| QImage (pixels : string)
| ndarray (pixels : string).

(** The value of a clients dict:
    (sock, chan, quality, delay, last_sent, headers_sent). *)
Record Client := mkClient {
  c_sock : Sock;
  c_chan : option string;
  c_quality : Z;
  c_delay : float;
  c_last_sent : float;
  c_headers_sent : bool }.

(** The value of SERVERS: (lock, server, last_times, clients); the lock
    object is its state, [true] when held. *)
Record Endpoint := mkEndpoint {
  ep_lock : bool;
  ep_server : Sock;
  ep_last_times : Dict.t string float;
  ep_clients : Dict.t Addr Client }.

(** The module globals, and the allocator of socket identities. *)
Record Machine := mkMachine {
  SERVERS : Dict.t Addr Endpoint;
  SERVERS_LOCK : bool;
  next_sock : Sock }.

Inductive Exn :=
| OSError            (* a socket or select call failed *)
| ValueError         (* int() or float() of a parameter, tuple unpacking *)
| KeyError
| RuntimeError       (* release of a lock that is not held *)
| TypeError          (* a str handed to socket.send *)
| ConnectionClosed   (* Exception raised on an empty read *)
| EncoderError.      (* raised by the image backend *)

(** What a call does to its surroundings. *)
Inductive Event :=
| EvSocket (s : Sock)
| EvBind (s : Sock) (a : Addr) (ok : bool)
| EvListen (s : Sock) (ok : bool)
| EvAccept (s : Sock) (a : Addr)
| EvClose (s : Sock) (ok : bool)
| EvSendPage (s : Sock) (data : string) (ok : bool)
| EvSendHeader (s : Sock) (data : string) (ok : bool)
| EvEncode (quality : Z) (ok : bool)
| EvSendFrame (s : Sock) (data : string) (ok : bool).

(** The arguments of [handle_frame]; [frame = None] is the shutdown
    sentinel.  [debug] only switches printing, which is not modelled. *)
Record Args := mkArgs {
  frame : option Image;
  channel : string;
  ip : string;
  port : Z;
  min_delay : float;
  default_delay : float;
  max_quality : Z;
  default_quality : Z;
  default_chan : option string;
  headers : list (string * string);
  debug : bool;
  sendall : bool }.

(** The answers of the surroundings during one call.  A [false] or a
    [None] is a raised exception. *)
Record World := mkWorld {
  timer : float;
  socket_ok : bool;
  setsockopt_ok : bool;
  bind_ok : Addr -> bool;
  listen_ok : bool;
  select_server : option bool;                    (* is server in r *)
  accept : option Addr;                           (* the remote address *)
  select_clients : list Sock -> option (list Sock);
  recv_decode : Sock -> option string;            (* sock.recv(1500).decode() *)
  send_ok : bool -> Sock -> string -> bool;       (* sendall?, socket, payload *)
  close_ok : Sock -> bool;
  _jpeg_compress_qimage : string -> Z -> option string;
  _jpeg_compress_numpy : string -> Z -> option string;
  py_int : string -> option Z;                    (* int(str) *)
  py_float : string -> option float }.            (* float(str) *)

(** What the caller of [handle_frame] sees. *)
Inductive Outcome :=
| Returned (ret : list Addr) (sent : Z)
| Raised (e : Exn)
| Deadlock.

(* ================================================================== *)
(** ** Wire format *)

Definition BOUNDARY : string := "mjpegboundary".

(** What [format] makes of the bytes object BOUNDARY on Python 3. *)
Definition BOUNDARY_fmt : string := "b'" ++ BOUNDARY ++ "'".

Definition STREAM_HEADER : string :=
  "HTTP/1.0 200 OK" ++ Py.CRLF ++
  "Connection: close" ++ Py.CRLF ++
  "Content-Type: multipart/x-mixed-replace;boundary=" ++ BOUNDARY_fmt ++ Py.CRLF ++
  Py.CRLF.

Definition index_page (last_times : Dict.t string float) : string :=
  "HTTP/1.0 200 OK" ++ Py.CRLF ++
  "Connection: close" ++ Py.CRLF ++
  "Content-Type: text/html" ++ Py.CRLF ++ Py.CRLF ++
  "<html><head><title>Motion JPEG over HTTP</title></head><body>" ++
  String.concat EmptyString
    (map (fun ix : nat * string =>
            "<li><a href=" ++ Py.DQUOTE ++ "/?channel=" ++ snd ix ++ Py.DQUOTE ++
            ">Channel " ++ Py.str_of_nat (fst ix) ++ " [" ++ snd ix ++ "]</a>")
         (Py.enumerate (Py.sorted (Dict.keys last_times)))) ++
  "</body></html>" ++ Py.CRLF.

Definition sheaders_of (hs : list (string * string)) : string :=
  String.concat EmptyString
    (map (fun kv : string * string => fst kv ++ ": " ++ snd kv ++ Py.CRLF) hs).

Definition frame_data_of (sheaders frame_jpeg : string) : string :=
  ("--" ++ BOUNDARY_fmt ++ Py.CRLF ++
   "Content-Type: image/jpeg" ++ Py.CRLF ++
   "Content-Length: " ++ Py.str_of_nat (String.length frame_jpeg) ++ Py.CRLF ++
   "Cache-Control: no-cache" ++ Py.CRLF ++
   sheaders ++
   Py.CRLF) ++ frame_jpeg.

(* ================================================================== *)
(** ** A state monad with exceptions and early return

    A computation maps a state to a new state and either a value, the
    function's [return], a raised exception, or a lock acquisition that
    never completes.  The state survives an exception, as assignments to
    Python objects do. *)

Inductive Res (A : Type) :=
| Val (x : A)
| Return
| Raise (e : Exn)
| Block.

Arguments Val {A} x.
Arguments Return {A}.
Arguments Raise {A} e.
Arguments Block {A}.

Definition M (S A : Type) : Type := S -> S * Res A.

Definition pure {S A} (x : A) : M S A := fun s => (s, Val x).

Definition bind {S A B} (c : M S A) (k : A -> M S B) : M S B :=
  fun s =>
    match c s with
    | (s', Val x) => k x s'
    | (s', Return) => (s', Return)
    | (s', Raise e) => (s', Raise e)
    | (s', Block) => (s', Block)
    end.

Definition raise {S A} (e : Exn) : M S A := fun s => (s, Raise e).

Definition return_ {S A} : M S A := fun s => (s, Return).

(** try: c / except Exception: h *)
Definition try_except {S A} (c : M S A) (h : M S A) : M S A :=
  fun s =>
    match c s with
    | (s', Raise _) => h s'
    | r => r
    end.

Definition modify {S} (f : S -> S) : M S unit := fun s => (f s, Val tt).

Definition gets {S A} (f : S -> A) : M S A := fun s => (s, Val (f s)).

Declare Scope monad_scope.
Delimit Scope monad_scope with monad.
Notation "x <- c ;; k" := (bind c (fun x => k))
  (at level 61, c at next level, right associativity) : monad_scope.
Notation "c ;; k" := (bind c (fun _ => k))
  (at level 61, right associativity) : monad_scope.

(** for x in l: body x *)
Fixpoint for_each {S A} (l : list A) (body : A -> M S unit) : M S unit :=
  match l with
  | [] => pure tt
  | x :: r => bind (body x) (fun _ => for_each r body)
  end.

(* ================================================================== *)
(** ** handle_frame *)

(** The state between lines 145 and 240: the globals, the four objects
    unpacked from SERVERS[local_address] on line 145 (they are the objects
    the registry entry holds, see [store]), the locals [ret] and [sent],
    and the events so far. *)
Record St := mkSt {
  mach : Machine;
  cur : Endpoint;         (* lock, server, last_times, clients *)
  ret : list Addr;
  sent : Z;
  events : list Event }.

Definition with_mach (f : Machine -> Machine) (s : St) : St :=
  mkSt (f (mach s)) (cur s) (ret s) (sent s) (events s).

Definition with_cur (f : Endpoint -> Endpoint) (s : St) : St :=
  mkSt (mach s) (f (cur s)) (ret s) (sent s) (events s).

Definition with_ret (r : list Addr) (s : St) : St :=
  mkSt (mach s) (cur s) r (sent s) (events s).

Definition with_sent (n : Z) (s : St) : St :=
  mkSt (mach s) (cur s) (ret s) n (events s).

Definition with_event (e : Event) (s : St) : St :=
  mkSt (mach s) (cur s) (ret s) (sent s) (events s ++ [e])%list.

Definition set_lock (b : bool) (e : Endpoint) : Endpoint :=
  mkEndpoint b (ep_server e) (ep_last_times e) (ep_clients e).

Definition set_last_times (lt : Dict.t string float) (e : Endpoint) : Endpoint :=
  mkEndpoint (ep_lock e) (ep_server e) lt (ep_clients e).

Definition set_clients (cs : Dict.t Addr Client) (e : Endpoint) : Endpoint :=
  mkEndpoint (ep_lock e) (ep_server e) (ep_last_times e) cs.

Definition set_SERVERS (d : Dict.t Addr Endpoint) (m : Machine) : Machine :=
  mkMachine d (SERVERS_LOCK m) (next_sock m).

Definition set_SERVERS_LOCK (b : bool) (m : Machine) : Machine :=
  mkMachine (SERVERS m) b (next_sock m).

Definition set_next_sock (n : Sock) (m : Machine) : Machine :=
  mkMachine (SERVERS m) (SERVERS_LOCK m) n.

(** The registry as the caller finds it afterwards: the entry of
    [la], when there is one, holds the lock and the two dicts that the
    call worked on, in the state the call left them. *)
Definition store (la : Addr) (s : St) : Machine :=
  if Dict.mem addr_eqb la (SERVERS (mach s))
  then set_SERVERS (Dict.set addr_eqb la (cur s) (SERVERS (mach s))) (mach s)
  else mach s.

Local Open Scope monad_scope.
Set Warnings "-inexact-float".

Section Call.

Variable a : Args.
Variable w : World.

Definition local_address : Addr := (ip a, port a).

Definition now : float := timer w.

(** *** Primitive statements *)

Definition emit (e : Event) : M St unit := modify (with_event e).

(** lock.release() *)
Definition lock_release : M St unit :=
  fun s =>
    if ep_lock (cur s) then (with_cur (set_lock false) s, Val tt)
    else (s, Raise RuntimeError).

(** SERVERS_LOCK.release() *)
Definition SERVERS_LOCK_release : M St unit :=
  fun s =>
    if SERVERS_LOCK (mach s) then (with_mach (set_SERVERS_LOCK false) s, Val tt)
    else (s, Raise RuntimeError).

(** getattr(sock, 'sendall' if sendall else 'send')(data); the value
    [send] returns is dropped by the caller.  [ev] names the call site. *)
Definition send (ev : Sock -> string -> bool -> Event) (sock : Sock) (data : string)
  : M St unit :=
  let ok := send_ok w (sendall a) sock data in
  emit (ev sock data ok) ;;
  if ok then pure tt else raise OSError.

(** The same call with a str for payload, as at line 179: the methods
    of a socket take bytes, and raise TypeError before anything is
    written.  [ev] names the call site. *)
Definition send_str (ev : Sock -> string -> bool -> Event) (sock : Sock) (text : string)
  : M St unit :=
  emit (ev sock text false) ;;
  raise TypeError.

(** sock.close() *)
Definition close (sock : Sock) : M St unit :=
  let ok := close_ok w sock in
  emit (EvClose sock ok) ;;
  if ok then pure tt else raise OSError.

(** clients[addr] = c *)
Definition clients_set (addr : Addr) (c : Client) : M St unit :=
  modify (with_cur (fun e => set_clients (Dict.set addr_eqb addr c (ep_clients e)) e)).

(** del clients[addr] *)
Definition clients_del (addr : Addr) : M St unit :=
  fun s =>
    match Dict.del addr_eqb addr (ep_clients (cur s)) with
    | Some cs => (with_cur (set_clients cs) s, Val tt)
    | None => (s, Raise KeyError)
    end.

(** last_times[chan] = t *)
Definition last_times_set (chan : string) (t : float) : M St unit :=
  modify (with_cur (fun e => set_last_times (Dict.set String.eqb chan t (ep_last_times e)) e)).

(** sent += n *)
Definition sent_add (n : Z) : M St unit :=
  modify (fun s => with_sent (sent s + n) s).

(** The backend [_jpeg_compress] picks by the type of the frame, and
    what it answers. *)
Definition backend (im : Image) (quality : Z) : option string :=
  match im with
  | QImage px => _jpeg_compress_qimage w px quality
  | ndarray px => _jpeg_compress_numpy w px quality
  end.

Definition _jpeg_compress (im : Image) (quality : Z) : M St string :=
  match backend im quality with
  | Some jpeg => emit (EvEncode quality true) ;; pure jpeg
  | None => emit (EvEncode quality false) ;; raise EncoderError
  end.

(** *** Lines 136-145: the registry entry and its lock *)

Inductive Entry :=
| Entered (s : St)
| EntryRaised (m : Machine) (evs : list Event) (e : Exn)
| EntryBlocked (m : Machine) (evs : list Event).

(** Line 143 and 145, on the entry [ep] that SERVERS holds for
    [local_address]. *)
Definition acquire_and_unpack (m : Machine) (evs : list Event) (ep : Endpoint) : Entry :=
  if ep_lock ep then EntryBlocked m evs
  else Entered (mkSt m (set_lock true ep) [] 0 evs).

Definition enter (m : Machine) : Entry :=
  match Dict.get addr_eqb local_address (SERVERS m) with
  | Some ep => acquire_and_unpack m [] ep
  | None =>
      if negb (socket_ok w) then EntryRaised m [] OSError else
      let server := next_sock m in
      let m1 := set_next_sock (S server) m in
      let e1 := [EvSocket server] in
      if negb (setsockopt_ok w) then EntryRaised m1 e1 OSError else
      let e2 := (e1 ++ [EvBind server local_address (bind_ok w local_address)])%list in
      if negb (bind_ok w local_address) then EntryRaised m1 e2 OSError else
      let e3 := (e2 ++ [EvListen server (listen_ok w)])%list in
      if negb (listen_ok w) then EntryRaised m1 e3 OSError else
      let ep := mkEndpoint false server [] [] in
      let m2 := set_SERVERS (Dict.set addr_eqb local_address ep (SERVERS m1)) m1 in
      acquire_and_unpack m2 e3 ep
  end.

(** *** Lines 146-147 *)

Definition init_channel : M St unit :=
  lt <- gets (fun s => ep_last_times (cur s)) ;;
  if Dict.mem String.eqb (channel a) lt then pure tt
  else last_times_set (channel a) (now - 1)%float.

(** *** Lines 149-156: the shutdown sentinel.

    The loop header unpacks five names from each value of clients, and
    the values are the six-tuples of lines 162, 195 and 228: the first
    value makes the unpacking raise ValueError. *)

Definition shutdown : M St unit :=
  cs <- gets (fun s => ep_clients (cur s)) ;;
  match Dict.values cs with
  | [] => pure tt
  | _ :: _ => raise ValueError
  end ;;
  server <- gets (fun s => ep_server (cur s)) ;;
  close server ;;
  lock_release ;;
  modify (with_mach (fun m => set_SERVERS (Dict.remove addr_eqb local_address (SERVERS m)) m)) ;;
  SERVERS_LOCK_release ;;
  return_.

(** *** Lines 157-162 *)

Definition accept_pending : M St unit :=
  match select_server w with
  | None => raise OSError
  | Some false => pure tt
  | Some true =>
      match accept w with
      | None => raise OSError
      | Some remote_address =>
          sock <- gets (fun s => next_sock (mach s)) ;;
          modify (with_mach (set_next_sock (S sock))) ;;
          emit (EvAccept sock remote_address) ;;
          clients_set remote_address
            (mkClient sock (default_chan a) (default_quality a) (default_delay a) 0%float false)
      end
  end.

(** *** Lines 170-203: one client of the request loop *)

(** quality = min(max_quality, int(params.get('quality', quality))) *)
Definition new_quality (params : Dict.t string string) (quality : Z) : option Z :=
  match Dict.get String.eqb "quality" params with
  | Some v => option_map (Z.min (max_quality a)) (py_int w v)
  | None => Some (Z.min (max_quality a) quality)
  end.

(** delay = max(min_delay, float(params.get('delay', delay)) * 1e-3) *)
Definition new_delay (params : Dict.t string string) (delay : float) : option float :=
  match Dict.get String.eqb "delay" params with
  | Some v => option_map (fun d => Py.max (min_delay a) (d * 1e-3)%float) (py_float w v)
  | None => Some (Py.max (min_delay a) (delay * 1e-3)%float)
  end.

(** chan = params.get('channel', params.get('source', chan)) *)
Definition new_chan (params : Dict.t string string) (chan : option string) : option string :=
  match Dict.get String.eqb "channel" params with
  | Some c => Some c
  | None =>
      match Dict.get String.eqb "source" params with
      | Some c => Some c
      | None => chan
      end
  end.

Definition wants_index (paths : list string) : bool :=
  Py.str_in "index.html" paths
  || (Py.str_in EmptyString paths
      && match default_chan a with None => true | Some _ => false end).

(** Lines 172-201, the body of the try. *)
Definition serve_request (addr : Addr) (c : Client) : M St unit :=
  match recv_decode w (c_sock c) with
  | None => raise OSError
  | Some data =>
      if (Py.len data =? 0)%Z then raise ConnectionClosed else
      let paths := GET_RE_findall data in
      if wants_index paths then
        lt <- gets (fun s => ep_last_times (cur s)) ;;
        send_str EvSendPage (c_sock c) (index_page lt) ;;
        close (c_sock c) ;;
        clients_del addr
      else
        let params := params_of data in
        match new_quality params (c_quality c) with
        | None => raise ValueError
        | Some quality =>
            match new_delay params (c_delay c) with
            | None => raise ValueError
            | Some delay =>
                let chan := new_chan params (c_chan c) in
                clients_set addr (mkClient (c_sock c) chan quality delay (c_last_sent c) true) ;;
                send EvSendHeader (c_sock c) STREAM_HEADER ;;
                sent_add (Py.len STREAM_HEADER)
            end
        end
  end.

Definition handle_request (r : list Sock) (item : Addr * Client) : M St unit :=
  let (addr, c) := item in
  if existsb (Nat.eqb (c_sock c)) r then
    try_except (serve_request addr c) (clients_del addr)
  else pure tt.

(** Lines 168-203. *)
Definition request_loop : M St unit :=
  cs <- gets (fun s => ep_clients (cur s)) ;;
  match select_clients w (map c_sock (Dict.values cs)) with
  | None => raise OSError
  | Some r => for_each cs (handle_request r)
  end.

(** *** Lines 204-233: the broadcast *)

Definition chan_is (c : option string) (chan : string) : bool :=
  match c with
  | Some c' => String.eqb c' chan
  | None => false
  end.

(** hs and c == channel and now - t >= d *)
Definition is_receiver (c : Client) : bool :=
  c_headers_sent c && chan_is (c_chan c) (channel a)
  && PrimFloat.leb (c_delay c) (now - c_last_sent c)%float.

Definition receivers_of (cs : Dict.t Addr Client) : list (Addr * Client) :=
  filter (fun item => is_receiver (snd item)) cs.

(** max([q for (a, (_, _, q, _, _, _)) in receivers]) *)
Definition max_quality_of (receivers : list (Addr * Client)) : option Z :=
  Py.max_list (map (fun item => c_quality (snd item)) receivers).

(** The call of [send] of lines 224-226 for one receiver. *)
Definition frame_event (frame_data : string) (item : Addr * Client) : Event :=
  EvSendFrame (c_sock (snd item)) frame_data
              (send_ok w (sendall a) (c_sock (snd item)) frame_data).

(** Lines 221-232. *)
Definition send_frame (frame_data : string) (item : Addr * Client) : M St unit :=
  let (addr, c) := item in
  try_except
    (send EvSendFrame (c_sock c) frame_data ;;
     sent_add (Py.len frame_data) ;;
     clients_set addr
       (mkClient (c_sock c) (c_chan c) (c_quality c) (c_delay c) now (c_headers_sent c)))
    (clients_del addr).

Definition broadcast (im : Image) : M St unit :=
  cs <- gets (fun s => ep_clients (cur s)) ;;
  let receivers := receivers_of cs in
  limited <-
    match receivers with
    | [] => pure true
    | _ :: _ =>
        lt <- gets (fun s => ep_last_times (cur s)) ;;
        match Dict.get String.eqb (channel a) lt with
        | None => raise KeyError
        | Some t => pure (PrimFloat.ltb (now - t)%float (min_delay a))
        end
    end ;;
  if (limited : bool) then
    lock_release ;; SERVERS_LOCK_release ;; return_
  else
    let sheaders := sheaders_of (headers a) in
    match max_quality_of receivers with
    | None => raise ValueError
    | Some q =>
        frame_jpeg <- _jpeg_compress im q ;;
        let frame_data := frame_data_of sheaders frame_jpeg in
        for_each receivers (send_frame frame_data) ;;
        last_times_set (channel a) now
    end.

(** *** Lines 157-203: accept, then the request loop *)

Definition poll : M St unit :=
  accept_pending ;;
  cs <- gets (fun s => ep_clients (cur s)) ;;
  match cs with
  | [] => lock_release ;; SERVERS_LOCK_release ;; return_
  | _ :: _ =>
      modify (with_ret (Dict.keys cs)) ;;
      request_loop
  end.

(** *** Lines 146-233, the rest of the try *)

Definition body : M St unit :=
  init_channel ;;
  match frame a with
  | None => shutdown
  | Some im => poll ;; broadcast im
  end.

(** *** Lines 234-240 *)

Definition epilogue : M St unit :=
  lock_release ;; SERVERS_LOCK_release.

Definition finish (r : St * Res unit) : Machine * list Event * Outcome :=
  let (s, res) := r in
  match res with
  | Val _ | Return => (store local_address s, events s, Returned (ret s) (sent s))
  | Raise e => (store local_address s, events s, Raised e)
  | Block => (store local_address s, events s, Deadlock)
  end.

Definition handle_frame (m : Machine) : Machine * list Event * Outcome :=
  if SERVERS_LOCK m then (m, [], Deadlock)
  else
    match enter (set_SERVERS_LOCK true m) with
    | Entered s =>
        match body s with
        | (s', Val _) | (s', Raise _) => finish (epilogue s')
        | r => finish r
        end
    | EntryRaised m' evs _ =>
        (* lock is None *)
        if SERVERS_LOCK m' then (set_SERVERS_LOCK false m', evs, Returned [] 0)
        else (m', evs, Raised RuntimeError)
    | EntryBlocked m' evs => (m', evs, Deadlock)
    end.

End Call.

(** The state in which line 204 is reached, when it is. *)
Definition at_broadcast (a : Args) (w : World) (m : Machine) : option St :=
  if SERVERS_LOCK m then None
  else
    match enter a w (set_SERVERS_LOCK true m) with
    | Entered s =>
        match (init_channel a w ;; poll a w) s with
        | (s', Val _) => Some s'
        | _ => None
        end
    | _ => None
    end.

(** A sequence of calls, each with the world it meets, and the events of
    all of them in order. *)
Definition Call := (Args * World)%type.

Fixpoint run (calls : list Call) (m : Machine) : Machine * list Event :=
  match calls with
  | [] => (m, [])
  | (a, w) :: rest =>
      let '(m1, evs, _) := handle_frame a w m in
      let (m2, evs') := run rest m1 in
      (m2, (evs ++ evs')%list)
  end.

(** The module as imported: SERVERS empty, SERVERS_LOCK free. *)
Definition boot : Machine := mkMachine [] false 0.

(* ================================================================== *)
(** ** gavin/gavin.py: the enumerations and structures of the vendor library *)

Module gavin.

(** An Enum class: its members in definition order, each with its name
    and its value. *)
Record EnumClass (T : Type) := mkEnum {
  members : list T;
  name_of : T -> string;
  value_of : T -> Z }.

(** Calling the class on a value, as in GUIDE_USB_CODE_E(ret): the member
    that has this value; [None] is the ValueError for a value no member
    has. *)
Definition by_value {T} (E : EnumClass T) (v : Z) : option T :=
  find (fun x => (value_of E x =? v)%Z) (members E).

Inductive GUIDE_USB_CODE_E :=
| ERROR_NO
| ERROR_DEVICE_NOT_FOUND
| ERROR_POINT_NULL
| ERROR_POINTS_TOO_LARGE
| ERROR_POINTS_TOO_SMALL
| ERROR_MALLOC_FAILED
| ERROR_RESOLUTION
| ERROR_UNKNOW.

Definition CODE_E : EnumClass GUIDE_USB_CODE_E :=
  mkEnum
    [ERROR_NO; ERROR_DEVICE_NOT_FOUND; ERROR_POINT_NULL; ERROR_POINTS_TOO_LARGE;
     ERROR_POINTS_TOO_SMALL; ERROR_MALLOC_FAILED; ERROR_RESOLUTION; ERROR_UNKNOW]
    (fun c => match c with
              | ERROR_NO => "ERROR_NO"
              | ERROR_DEVICE_NOT_FOUND => "ERROR_DEVICE_NOT_FOUND"
              | ERROR_POINT_NULL => "ERROR_POINT_NULL"
              | ERROR_POINTS_TOO_LARGE => "ERROR_POINTS_TOO_LARGE"
              | ERROR_POINTS_TOO_SMALL => "ERROR_POINTS_TOO_SMALL"
              | ERROR_MALLOC_FAILED => "ERROR_MALLOC_FAILED"
              | ERROR_RESOLUTION => "ERROR_RESOLUTION"
              | ERROR_UNKNOW => "ERROR_UNKNOW"
              end)
    (fun c => match c with
              | ERROR_NO => 1
              | ERROR_DEVICE_NOT_FOUND => -1
              | ERROR_POINT_NULL => -2
              | ERROR_POINTS_TOO_LARGE => -3
              | ERROR_POINTS_TOO_SMALL => -4
              | ERROR_MALLOC_FAILED => -5
              | ERROR_RESOLUTION => -6
              | ERROR_UNKNOW => -999
              end)%Z.

Inductive GUIDE_USB_VIDEO_MODE_E :=
| X16 | X16_PARAM | Y16 | Y16_PARAM | YUV | YUV_PARAM | Y16_YUV | Y16_PARAM_YUV.

Definition VIDEO_MODE_E : EnumClass GUIDE_USB_VIDEO_MODE_E :=
  mkEnum
    [X16; X16_PARAM; Y16; Y16_PARAM; YUV; YUV_PARAM; Y16_YUV; Y16_PARAM_YUV]
    (fun c => match c with
              | X16 => "X16"
              | X16_PARAM => "X16_PARAM"
              | Y16 => "Y16"
              | Y16_PARAM => "Y16_PARAM"
              | YUV => "YUV"
              | YUV_PARAM => "YUV_PARAM"
              | Y16_YUV => "Y16_YUV"
              | Y16_PARAM_YUV => "Y16_PARAM_YUV"
              end)
    (fun c => match c with
              | X16 => 0
              | X16_PARAM => 1
              | Y16 => 2
              | Y16_PARAM => 3
              | YUV => 4
              | YUV_PARAM => 5
              | Y16_YUV => 6
              | Y16_PARAM_YUV => 7
              end)%Z.

Inductive GUIDE_USB_DEVICE_STATUS_E :=
| DEVICE_CONNECT_OK
| DEVICE_DISCONNECT_OK.

Definition DEVICE_STATUS_E : EnumClass GUIDE_USB_DEVICE_STATUS_E :=
  mkEnum
    [DEVICE_CONNECT_OK; DEVICE_DISCONNECT_OK]
    (fun c => match c with
              | DEVICE_CONNECT_OK => "DEVICE_CONNECT_OK"
              | DEVICE_DISCONNECT_OK => "DEVICE_DISCONNECT_OK"
              end)
    (fun c => match c with
              | DEVICE_CONNECT_OK => 1
              | DEVICE_DISCONNECT_OK => -1
              end)%Z.

(** A pointer into the memory of the library, by address. *)
Definition Ptr := Z.

Record GUIDE_USB_DEVICE_INFO_T := mkDeviceInfo {
  width : Z;
  height : Z;
  video_mode : Z }.

Record GUIDE_USB_FRAME_DATA_T := mkFrameData {
  frame_width : Z;
  frame_height : Z;
  frame_rgb_data : Ptr;
  frame_rgb_data_length : Z;
  frame_src_data : Ptr;
  frame_src_data_length : Z;
  frame_yuv_data : Ptr;
  frame_yuv_data_length : Z;
  paraLine : Ptr;
  paraLine_length : Z }.

Record DEVICE_INFO := mkDevice {
  devID : Z;
  devName : string }.

Record DEVICE_INFO_LIST := mkDeviceList {
  devCount : Z;
  devs : list DEVICE_INFO }.

End gavin.

(* ================================================================== *)
(** ** gavin/client.py: the camera callbacks and the wrapper of the library *)

Module client.
Import gavin.

(** *** frame_recv_cb, lines 31-50 *)

Inductive dtype := uint8 | int16.

(** What one run of the callback meets: the arrays numpy makes of the
    memory behind the pointers of the frame ([None] when the cast or the
    reshape raises ValueError), and the world each call of [handle_frame]
    meets, by channel. *)
Record Camera := mkCamera {
  frombuffer_reshape : Ptr -> Z -> dtype -> list Z -> option Image;
  world_of : string -> World }.

(** handle_frame(img, channel=chan, ip='', port=80): every other
    parameter has the default of the signature. *)
Definition handle_frame_args (img : Image) (chan : string) : Args :=
  mkArgs (Some img) chan EmptyString 80 0.010%float 0.040%float 95 80
         (Some EmptyString) [] false false.

(** A call of [handle_frame] from the callback: the module globals and
    the events so far are the state; the pair it returns is dropped. *)
Definition call_handle_frame (a : Args) (w : World) : M (Machine * list Event) unit :=
  fun s =>
    let '(m', evs, o) := handle_frame a w (fst s) in
    let s' := (m', (snd s ++ evs)%list) in
    match o with
    | Returned _ _ => (s', Val tt)
    | Raised e => (s', Raise e)
    | Deadlock => (s', Block)
    end.

Section Callback.
Variable cam : Camera.

(** One of the four blocks: if the length is positive, the array of [len]
    elements at [data] is reshaped and handed to [handle_frame]. *)
Definition stream (data : Ptr) (len : Z) (dt : dtype) (shape : list Z) (chan : string)
  : M (Machine * list Event) unit :=
  if (0 <? len)%Z then
    match frombuffer_reshape cam data len dt shape with
    | None => raise ValueError
    | Some img => call_handle_frame (handle_frame_args img chan) (world_of cam chan)
    end
  else pure tt.

(** The body of the callback.  An exception that leaves it is reported
    by ctypes and does not reach the library. *)
Definition frame_recv_cb (frame : GUIDE_USB_FRAME_DATA_T) : M (Machine * list Event) unit :=
  stream (frame_rgb_data frame) (frame_rgb_data_length frame) uint8
         [frame_height frame; frame_width frame; 3%Z] "0" ;;
  stream (frame_src_data frame) (frame_src_data_length frame) int16
         [frame_height frame; frame_width frame] "1" ;;
  stream (frame_yuv_data frame) (frame_yuv_data_length frame) int16
         [frame_height frame; frame_width frame] "2" ;;
  stream (paraLine frame) (paraLine_length frame) int16
         [frame_height frame; frame_width frame] "3".

End Callback.

Inductive PyExn :=
| Exception (msg : string)      (* raise Exception(msg), line 79 *)
| EnumValueError (v : Z)        (* Enum(v) for a value no member has *)
| CtypesError                   (* the foreign function cannot be found or called *)
| NotCallable.                  (* calling None *)

(** *** connect_status_cb, lines 53-57 *)

(** The Python int a C int holds of [n]: ctypes does no overflow
    checking, the argument of a CFUNCTYPE(c_void_p, c_int) callback is
    [n] modulo 2^32, taken in -2^31 .. 2^31 - 1. *)
Definition c_int_value (n : Z) : Z :=
  ((n + 2147483648) mod 4294967296 - 2147483648)%Z.

(** The callback as the decorator makes it.  [status] arrives as a C int.
    The argument of the logging call is evaluated whether or not the
    record is emitted; the result is the message of the record handed to
    the logger, or [None] when the lookup raises ValueError: ctypes
    reports an exception of a callback and does not raise it to the
    caller. *)
Definition connect_status_cb (status : Z) : option string :=
  match by_value DEVICE_STATUS_E (c_int_value status) with
  | Some st => Some ("Connect status: " ++ name_of DEVICE_STATUS_E st)
  | None => None
  end.

(** *** GAVIN_API, lines 60-87 *)

Inductive ctype := c_int | c_void_p | POINTER_DEVICE_INFO_LIST | POINTER_DEVICE_INFO_T.

(** CFUNCTYPE(c_int, argtypes...) *)
Definition Prototype := list ctype.

Definition _functions_ : Dict.t string Prototype :=
  [ ("Initialize", []);
    ("Exit", []);
    ("GetDeviceList", [POINTER_DEVICE_INFO_LIST]);
    ("OpenStream", [POINTER_DEVICE_INFO_T; c_void_p; c_void_p]);
    ("OpenStreamByDevID", [c_int; POINTER_DEVICE_INFO_T; c_void_p; c_void_p]);
    ("CloseStream", []);
    ("SetPalette", [c_int]) ].

(** The arguments the wrapper passes. *)
Inductive CArg :=
| ArgInt (n : Z)                               (* c_int(n) *)
| ArgDevices                                   (* byref(devices) *)
| ArgDevInfo (d : GUIDE_USB_DEVICE_INFO_T)     (* byref(dev_info) *)
| ArgFrameCb                                   (* frame_recv_cb *)
| ArgStatusCb.                                 (* connect_status_cb *)

(** The shared library: what the call prototype((name, _lib))(args)
    returns ([None] when it raises instead), and the list
    GetDeviceList writes through its pointer. *)
Record Lib := mkLib {
  lib_call : string -> Prototype -> list CArg -> option Z;
  lib_devices : DEVICE_INFO_LIST }.

(** The one attribute an instance gets: [name], set by __getattr__. *)
Record GAVIN_API := mkApi { name : option string }.

Inductive Result (A : Type) :=
| Ok (x : A)
| Err (e : PyExn).

Arguments Ok {A} x.
Arguments Err {A} e.

Definition Api (A : Type) : Type := GAVIN_API -> GAVIN_API * Result A.

Definition and_then {A B} (c : Api A) (k : A -> Api B) : Api B :=
  fun self =>
    match c self with
    | (self', Ok x) => k x self'
    | (self', Err e) => (self', Err e)
    end.

Section Library.
Variable lib : Lib.

(** Lines 73-82.  [self.name] is read when the call is made. *)
Definition __call__ (prototype : Prototype) (arguments : list CArg) : Api Z :=
  fun self =>
    match name self with
    | None =>
        (* the lookup of name goes through __getattr__, which yields None *)
        (mkApi (Some "name"), Err CtypesError)
    | Some nm =>
        match lib_call lib nm prototype arguments with
        | None => (self, Err CtypesError)
        | Some ret =>
            if negb (ret =? 1)%Z then
              match by_value CODE_E ret with
              | Some code =>
                  (self, Err (Exception (nm ++ " error " ++ Py.str_of_Z ret
                                         ++ " (" ++ name_of CODE_E code ++ ")")))
              | None => (self, Err (EnumValueError ret))
              end
            else (self, Ok ret)
        end
    end.

(** Lines 84-87: the bound __call__ with its prototype, or None. *)
Definition __getattr__ (nm : string) : Api (option Prototype) :=
  fun _ => (mkApi (Some nm), Ok (Dict.get String.eqb nm _functions_)).

(** self._dev.<nm>(arguments) *)
Definition invoke (nm : string) (arguments : list CArg) : Api Z :=
  and_then (__getattr__ nm)
    (fun f => match f with
              | Some prototype => __call__ prototype arguments
              | None => fun self => (self, Err NotCallable)
              end).

(** *** Client, lines 90-141 *)

Definition Initialize : Api Z := invoke "Initialize" [].

Definition Exit : Api Z := invoke "Exit" [].

(** [Some devices], or [None] for the implicit return. *)
Definition GetDeviceList : Api (option DEVICE_INFO_LIST) :=
  and_then (invoke "GetDeviceList" [ArgDevices])
    (fun ret self =>
       if negb (ret =? 0)%Z then (self, Ok (Some (lib_devices lib)))
       else (self, Ok None)).

Definition OpenStream (dev_info : GUIDE_USB_DEVICE_INFO_T) : Api Z :=
  invoke "OpenStream" [ArgDevInfo dev_info; ArgFrameCb; ArgStatusCb].

Definition OpenStreamByDevID (dev_id : Z) (dev_info : GUIDE_USB_DEVICE_INFO_T) : Api Z :=
  invoke "OpenStreamByDevID" [ArgInt dev_id; ArgDevInfo dev_info; ArgFrameCb; ArgStatusCb].

Definition CloseStream : Api Z := invoke "CloseStream" [].

Definition SetPalette (index : Z) : Api Z := invoke "SetPalette" [ArgInt index].

(** [true] for [return self], [false] for the implicit return of None. *)
Definition __enter__ : Api bool :=
  and_then Initialize
    (fun ret self => if negb (ret =? 0)%Z then (self, Ok true) else (self, Ok false)).

Definition __exit__ : Api unit :=
  and_then Exit (fun _ self => (self, Ok tt)).

End Library.

End client.

(* ================================================================== *)
(** ** Sample arguments and worlds, for the closed examples *)

Module Sample.

Definition digit (c : ascii) : option Z :=
  let n := nat_of_ascii c in
  if ((48 <=? n) && (n <=? 57))%nat then Some (Z.of_nat (n - 48)) else None.

Fixpoint dec_from (acc : Z) (s : string) : option Z :=
  match s with
  | EmptyString => Some acc
  | String c r =>
      match digit c with
      | Some d => dec_from (10 * acc + d) r
      | None => None
      end
  end.

(** int(s) on plain decimal digit strings; every other string is
    rejected. *)
Definition int (s : string) : option Z :=
  match s with
  | EmptyString => None
  | _ => dec_from 0 s
  end.

(** float(s) on the same strings (exact below 2^53). *)
Definition float (s : string) : option PrimFloat.float :=
  option_map (fun z => PrimFloat.of_uint63 (Uint63.of_Z z)) (int s).

(** An encoder that answers with the quality it was asked for. *)
Definition jpeg (px : string) (q : Z) : option string :=
  Some ("JPEG" ++ Py.str_of_nat (Z.to_nat q) ++ ":" ++ px).

(** handle_frame(frame, channel='0', ip='', port=8080) with the defaults
    of the signature. *)
Definition args (f : option Image) : Args :=
  mkArgs f "0" EmptyString 8080 0.010%float 0.040%float 95 80 (Some EmptyString) [] false false.

Definition la : Addr := (EmptyString, 8080%Z).
Definition peer : Addr := ("10.0.0.7", 50000%Z).

(** A quiet world at time [t]: every call succeeds, nothing is pending. *)
Definition quiet (t : PrimFloat.float) : World :=
  mkWorld t true true (fun _ => true) true (Some false) None
          (fun _ => Some []) (fun _ => None) (fun _ _ _ => true) (fun _ => true)
          jpeg jpeg int float.

(** A connection from [peer] is pending. *)
Definition connecting (t : PrimFloat.float) : World :=
  mkWorld t true true (fun _ => true) true (Some true) (Some peer)
          (fun _ => Some []) (fun _ => None) (fun _ _ _ => true) (fun _ => true)
          jpeg jpeg int float.

(** Every client socket has [data] to read. *)
Definition talking (t : PrimFloat.float) (data : string) : World :=
  mkWorld t true true (fun _ => true) true (Some false) None
          (fun socks => Some socks) (fun _ => Some data) (fun _ _ _ => true) (fun _ => true)
          jpeg jpeg int float.

Definition frame0 : option Image := Some (ndarray "px").

(** The encoder raises. *)
Definition no_backend (t : PrimFloat.float) : World :=
  mkWorld t true true (fun _ => true) true (Some false) None
          (fun _ => Some []) (fun _ => None) (fun _ _ _ => true) (fun _ => true)
          (fun _ _ => None) (fun _ _ => None) int float.

(** bind raises (the port is taken). *)
Definition bind_refused (t : PrimFloat.float) : World :=
  mkWorld t true true (fun _ => false) true (Some false) None
          (fun _ => Some []) (fun _ => None) (fun _ _ _ => true) (fun _ => true)
          jpeg jpeg int float.

Definition request : string := "GET /?channel=0&quality=50&delay=20 HTTP/1.1".

(** The module after a client has connected and asked for channel 0 at
    quality 50 every 20 ms: the header and a first frame went out at
    time 100.005. *)
Definition streaming : Machine :=
  fst (run [ (args frame0, connecting 100); (args frame0, talking 100.005 request) ] boot).

(** The record of that client, and the state of a call that has reached
    the request loop with it. *)
Definition viewer : Client := mkClient 1 (Some "0") 50 0.02%float 100.005%float true.

Definition in_loop : St :=
  mkSt (mkMachine [(la, mkEndpoint false 0 [("0", 100.005%float)] [(peer, viewer)])] true 2)
       (mkEndpoint true 0 [("0", 100.005%float)] [(peer, viewer)])
       [peer] 0 [].

(** max_quality=40 *)
Definition args40 (f : option Image) : Args :=
  mkArgs f "0" EmptyString 8080 0.010%float 0.040%float 40 80 (Some EmptyString) [] false false.

(** The module after a first call with no client: the endpoint is
    registered. *)
Definition registered : Machine :=
  fst (run [ (args frame0, quiet 100) ] boot).

(** The module after a client has connected and before its request is
    read. *)
Definition connected : Machine :=
  fst (run [ (args frame0, connecting 100) ] boot).


(** handle_frame(None, ip='', port=8080), the shutdown call of the
    docstring: channel has its default. *)
Definition args_shutdown : Args :=
  mkArgs None EmptyString EmptyString 8080 0.010%float 0.040%float 95 80
         (Some EmptyString) [] false false.




(** A library whose every function answers [ret]. *)
Definition lib (ret : Z) : client.Lib :=
  client.mkLib (fun _ _ _ => Some ret) (gavin.mkDeviceList 0 []).

(** A camera whose arrays all reshape, and a frame of two RGB pixels. *)
Definition camera : client.Camera :=
  client.mkCamera (fun _ _ _ _ => Some (ndarray "px")) (fun _ => quiet 100).

Definition rgb_frame : gavin.GUIDE_USB_FRAME_DATA_T :=
  gavin.mkFrameData 2%Z 1%Z 4096%Z 6%Z 0%Z 0%Z 0%Z 0%Z 0%Z 0%Z.

End Sample.

(* ================================================================== *)
(** ** Predicates of the statements *)

(** [tri P Qr c]: started where [P] holds, [c] never blocks; [P] holds
    again when it ends with a value or an exception, [Qr] when it ends
    with the function's return. *)
Definition tri {S A} (P Qr : S -> Prop) (c : M S A) : Prop :=
  forall s, P s ->
    match c s with
    | (s', Val _) => P s'
    | (s', Raise _) => P s'
    | (s', Return) => Qr s'
    | (s', Block) => False
    end.

(** An invariant of every way out. *)
Definition inv {S A} (I : S -> Prop) (c : M S A) : Prop := tri I I c.

(** Both locks of the call are held, as between lines 145 and 233. *)
Definition held (s : St) : Prop :=
  SERVERS_LOCK (mach s) = true /\ ep_lock (cur s) = true.

Definition released (s : St) : Prop :=
  SERVERS_LOCK (mach s) = false /\ ep_lock (cur s) = false.

(** The registry only ever loses entries during a call. *)
Definition reg_incl (reg0 : Dict.t Addr Endpoint) (s : St) : Prop :=
  incl (SERVERS (mach s)) reg0.

(** Outside the shutdown path the registry is not touched at all. *)
Definition reg_is (reg0 : Dict.t Addr Endpoint) (s : St) : Prop :=
  SERVERS (mach s) = reg0.

(** The request loop and the accept leave last_times alone. *)
Definition last_times_is (lt : Dict.t string float) (s : St) : Prop :=
  ep_last_times (cur s) = lt.

(** No lock of the module is held. *)
Definition locks_free (m : Machine) : Prop :=
  SERVERS_LOCK m = false /\
  forall k ep, In (k, ep) (SERVERS m) -> ep_lock ep = false.

(** No two keys of a clients dict are equal. *)
Fixpoint distinct (l : list Addr) : bool :=
  match l with
  | [] => true
  | x :: r => negb (existsb (addr_eqb x) r) && distinct r
  end.

Definition clients_distinct (s : St) : Prop :=
  distinct (Dict.keys (ep_clients (cur s))) = true.

(** Every clients dict of the registry has distinct keys, as the dicts of
    Python have. *)
Definition wf_machine (m : Machine) : Prop :=
  forallb (fun kv => distinct (Dict.keys (ep_clients (snd kv)))) (SERVERS m) = true.

(** The events a call emits before line 204: no encoder call, no frame. *)
Definition quiet_event (e : Event) : Prop :=
  match e with
  | EvEncode _ _ | EvSendFrame _ _ _ => False
  | _ => True
  end.

(** The events of [s] are those of [e0] followed by events that all
    satisfy [P]. *)
Definition events_ext (P : Event -> Prop) (e0 : list Event) (s : St) : Prop :=
  exists evs, events s = (e0 ++ evs)%list /\ Forall P evs.

(** A frame chunk is handed to [send] (whether or not [send] raises). *)
Definition is_frame_event (e : Event) : bool :=
  match e with EvSendFrame _ _ _ => true | _ => false end.

Definition is_encode_event (e : Event) : bool :=
  match e with EvEncode _ _ => true | _ => false end.

Definition sends_frame (evs : list Event) : Prop :=
  exists s d ok, In (EvSendFrame s d ok) evs.

(** last_times[channel] as line 206 reads it: the stored time of the last
    broadcast on the channel, or now - 1.0 for a channel (or an endpoint)
    seen for the first time. *)
Definition last_broadcast (a : Args) (w : World) (m : Machine) : float :=
  match Dict.get addr_eqb (local_address a) (SERVERS m) with
  | Some ep =>
      match Dict.get String.eqb (channel a) (ep_last_times ep) with
      | Some t => t
      | None => (now w - 1)%float
      end
  | None => (now w - 1)%float
  end.

(** Lines 137-140 all succeed. *)
Definition creates (a : Args) (w : World) : bool :=
  socket_ok w && setsockopt_ok w && bind_ok w (local_address a) && listen_ok w.

(** Line 206 skips the broadcast in state [s]: no receiver, or the
    channel was served less than min_delay ago. *)
Definition skips (a : Args) (w : World) (s : St) : Prop :=
  receivers_of a w (ep_clients (cur s)) = []
  \/ exists t, Dict.get String.eqb (channel a) (ep_last_times (cur s)) = Some t
              /\ PrimFloat.ltb (now w - t)%float (min_delay a) = true.

(** Both locks released, nothing else changed. *)
Definition unlocked (s : St) : St :=
  with_mach (set_SERVERS_LOCK false) (with_cur (set_lock false) s).

(** The three parts of what [handle_frame] yields. *)
Definition machine_of (r : Machine * list Event * Outcome) : Machine := fst (fst r).
Definition events_of (r : Machine * list Event * Outcome) : list Event := snd (fst r).
Definition outcome_of (r : Machine * list Event * Outcome) : Outcome := snd r.

(** The registry agrees with [reg0] away from the key [la]. *)
Definition reg_others (la : Addr) (reg0 : Dict.t Addr Endpoint) (s : St) : Prop :=
  forall k, k <> la ->
    Dict.get addr_eqb k (SERVERS (mach s)) = Dict.get addr_eqb k reg0.

(** last_times[c] is [t]. *)
Definition last_time_at (c : string) (t : float) (s : St) : Prop :=
  Dict.get String.eqb c (ep_last_times (cur s)) = Some t.

(** The entry of [la] records [t] as the time of the last broadcast on
    channel [c]. *)
Definition served_at (la : Addr) (c : string) (t : float) (m : Machine) : Prop :=
  exists ep, Dict.get addr_eqb la (SERVERS m) = Some ep
             /\ Dict.get String.eqb c (ep_last_times ep) = Some t.

(** The record line 195 stores for a request whose parameters are
    [params], when int() and float() accept them. *)
Definition negotiated (a : Args) (w : World) (c : Client) (params : Dict.t string string)
  : option Client :=
  match new_quality a w params (c_quality c), new_delay a w params (c_delay c) with
  | Some quality, Some delay =>
      Some (mkClient (c_sock c) (new_chan params (c_chan c)) quality delay
                     (c_last_sent c) true)
  | _, _ => None
  end.

(** The request loop meets a protocol error on the socket of [c]: the
    read or the decoding raises, the read is empty, or the request is not
    for the index page and int() or float() rejects a parameter. *)
Definition protocol_error (a : Args) (w : World) (c : Client) : Prop :=
  match recv_decode w (c_sock c) with
  | None => True
  | Some data =>
      data = EmptyString
      \/ (wants_index a (GET_RE_findall data) = false
          /\ negotiated a w c (params_of data) = None)
  end.

(** In the trace [tr], every frame chunk handed to a socket comes after
    a stream header that was sent to that socket. *)
Definition header_first (tr : list Event) : Prop :=
  forall pre s d ok post,
    tr = (pre ++ EvSendFrame s d ok :: post)%list ->
    exists d', In (EvSendHeader s d' true) pre.

(** Every client of the endpoint that has headers_sent true was sent the
    stream header in [tr]. *)
Definition hdr_ok (tr : list Event) (ep : Endpoint) : Prop :=
  forall x, In x (ep_clients ep) -> c_headers_sent (snd x) = true ->
    exists d, In (EvSendHeader (c_sock (snd x)) d true) tr.

(** The two of them, for a call that started after the trace [tr0]. *)
Definition hdr_inv (tr0 : list Event) (s : St) : Prop :=
  header_first (tr0 ++ events s) /\ hdr_ok (tr0 ++ events s) (cur s).

(** The same with, in addition, the receivers the fan-out loop walks. *)
Definition hdr_inv_for (R : list (Addr * Client)) (tr0 : list Event) (s : St) : Prop :=
  hdr_inv tr0 s /\
  forall x, In x R ->
    c_headers_sent (snd x) = true /\
    exists d, In (EvSendHeader (c_sock (snd x)) d true) (tr0 ++ events s)%list.

(** For the whole module after the trace [tr]. *)
Definition hdr_machine (tr : list Event) (m : Machine) : Prop :=
  header_first tr /\ forall kv, In kv (SERVERS m) -> hdr_ok tr (snd kv).

(** The bytes an event adds to [sent]: the payload of a stream header or
    of a frame chunk whose send returned.  Nothing else counts. *)
Definition counted (e : Event) : Z :=
  match e with
  | EvSendHeader _ d true | EvSendFrame _ d true => Py.len d
  | _ => 0%Z
  end.

Definition counted_bytes (evs : list Event) : Z :=
  fold_right (fun e n => (counted e + n)%Z) 0%Z evs.

(** [sent] is the count of the events so far. *)
Definition sent_counted (s : St) : Prop := sent s = counted_bytes (events s).

(** socket(), bind() and listen(), lines 137-140. *)
Definition is_listen_event (e : Event) : bool :=
  match e with
  | EvSocket _ | EvBind _ _ _ | EvListen _ _ => true
  | _ => false
  end.

Definition is_accept_event (e : Event) : bool :=
  match e with
  | EvAccept _ _ => true
  | _ => false
  end.

(** The clients dict a call finds for [la]: empty when the endpoint is yet
    to be created. *)
Definition clients_at (la : Addr) (m : Machine) : Dict.t Addr Client :=
  match Dict.get addr_eqb la (SERVERS m) with
  | Some ep => ep_clients ep
  | None => []
  end.

(** The lock of the entry of [la] is free, or there is no entry and lines
    137-140 succeed: the call gets past line 145. *)
Definition enterable (a : Args) (w : World) (m : Machine) : Prop :=
  SERVERS_LOCK m = false /\
  match Dict.get addr_eqb (local_address a) (SERVERS m) with
  | Some ep => ep_lock ep = false
  | None => creates a w = true
  end.

(** No encoder call asks for more than [Q]. *)
Definition enc_le (Q : Z) (e : Event) : Prop :=
  match e with
  | EvEncode q _ => (q <= Q)%Z
  | _ => True
  end.

(** Every client that has been sent the header negotiated at most [Q]. *)
Definition qual_ok (Q : Z) (ep : Endpoint) : Prop :=
  forall x, In x (ep_clients ep) ->
    c_headers_sent (snd x) = true -> (c_quality (snd x) <= Q)%Z.

Definition qual_inv (Q : Z) (s : St) : Prop :=
  qual_ok Q (cur s) /\ Forall (enc_le Q) (events s).

Definition qual_machine (Q : Z) (m : Machine) : Prop :=
  forall kv, In kv (SERVERS m) -> qual_ok Q (snd kv).

(** A call of the wrapper that gives 1 or raises one of the exceptions of
    line 76 to 79; it never finds None where it expects the function. *)
Definition one_or_raises (c : client.Api Z) : Prop :=
  forall self,
    match snd (c self) with
    | client.Ok r => r = 1%Z
    | client.Err client.NotCallable => False
    | client.Err _ => True
    end.

(** [c] keeps [P], however it ends. *)
Definition keeps {S A} (P : S -> Prop) (c : M S A) : Prop :=
  forall s, P s -> P (fst (c s)).

(** Every character of [s] satisfies [p]. *)
Fixpoint str_all (p : ascii -> bool) (s : string) : bool :=
  match s with
  | EmptyString => true
  | String c r => p c && str_all p r
  end.

(** A non-empty run of word characters. *)
Definition is_word_str (s : string) : bool :=
  match s with
  | EmptyString => false
  | _ => str_all is_word s
  end.

(* ================================================================== *)
(** ** The embedding at work *)

Example GET_RE_request :
  GET_RE_findall "GET /?channel=0&quality=50&delay=20 HTTP/1.1"
  = ["?channel=0&quality=50&delay=20"].
Proof. reflexivity. Qed.

Example GET_RE_index : GET_RE_findall "GET /index.html HTTP/1.0" = ["index.html"].
Proof. reflexivity. Qed.

Example GET_RE_root : GET_RE_findall "GET / HTTP/1.0" = [EmptyString].
Proof. reflexivity. Qed.

Example GET_RE_none : GET_RE_findall "hello" = [].
Proof. reflexivity. Qed.

Example PARAM_RE_request :
  PARAM_RE_findall "GET /?channel=0&quality=50&delay=20 HTTP/1.1"
  = [("channel", "0"); ("quality", "50"); ("delay", "20")].
Proof. reflexivity. Qed.

Example PARAM_RE_leftmost : PARAM_RE_findall "a=b=c ==d x= y" = [("a", "b")].
Proof. reflexivity. Qed.

Example params_last_wins :
  Dict.get String.eqb "delay" (params_of "GET /?delay=20&delay=40") = Some "40".
Proof. reflexivity. Qed.

(** The first call for a port creates the endpoint; with no client it
    returns at line 166. *)
Example first_call :
  handle_frame (Sample.args Sample.frame0) (Sample.quiet 100) boot
  = (mkMachine [(Sample.la, mkEndpoint false 0 [("0", 99%float)] [])] false 1,
     [EvSocket 0; EvBind 0 Sample.la true; EvListen 0 true],
     Returned [] 0).
Proof. reflexivity. Qed.

(** A client connects, asks for channel 0 at quality 50 every 20 ms, and
    gets the header and a first frame in the call that reads its request
    (its last_sent starts at 0.0). *)
Example connect_and_request :
  snd (run [ (Sample.args Sample.frame0, Sample.connecting 100);
             (Sample.args Sample.frame0, Sample.talking 100.005 Sample.request) ] boot)
  = [EvSocket 0; EvBind 0 Sample.la true; EvListen 0 true;
     EvAccept 1 Sample.peer;
     EvSendHeader 1 STREAM_HEADER true;
     EvEncode 50 true;
     EvSendFrame 1 (frame_data_of EmptyString "JPEG50:px") true].
Proof. vm_compute. reflexivity. Qed.

(** 5 ms after that frame the client is not yet due; 25 ms after it is. *)
Example not_due :
  events_of (handle_frame (Sample.args Sample.frame0) (Sample.quiet 100.010) Sample.streaming)
  = [].
Proof. vm_compute. reflexivity. Qed.

Example due :
  events_of (handle_frame (Sample.args Sample.frame0) (Sample.quiet 100.030) Sample.streaming)
  = [EvEncode 50 true; EvSendFrame 1 (frame_data_of EmptyString "JPEG50:px") true].
Proof. vm_compute. reflexivity. Qed.

(** The shutdown sentinel with a client connected: the loop of line 149
    raises on the six-tuple, nothing is closed and the endpoint stays. *)
Example shutdown_with_client :
  handle_frame (Sample.args None) (Sample.quiet 100.030) Sample.streaming
  = (Sample.streaming, [], Returned [] 0).
Proof. vm_compute. reflexivity. Qed.

(** Line 193 with no delay parameter scales the stored delay, which is in
    seconds, by 1e-3 as well: a client that had negotiated 20 ms is set to
    min_delay by its next request. *)
Example delay_absent :
  new_delay (Sample.args Sample.frame0) (Sample.quiet 100) [] 0.02%float = Some 0.01%float.
Proof. reflexivity. Qed.

(* ================================================================== *)
(** ** Facts about dicts *)

Section DictFacts.
Variables K V : Type.
Variable eqb : K -> K -> bool.

Lemma In_remove k (d : Dict.t K V) x : In x (Dict.remove eqb k d) -> In x d.
Proof.
  induction d as [|[k' v'] d IH]; simpl; auto.
  destruct (eqb k k'); simpl; intuition.
Qed.

Lemma In_set k v (d : Dict.t K V) x :
  In x (Dict.set eqb k v d) -> In x d \/ snd x = v.
Proof.
  induction d as [|[k' v'] d IH]; simpl.
  - intros [<-|[]]; now right.
  - destruct (eqb k k'); simpl.
    + intros [<-|H]; [now right | left; now right].
    + intros [<-|H]; [left; now left |].
      destruct (IH H); [left; now right | now right].
Qed.

Lemma get_In k v (d : Dict.t K V) :
  Dict.get eqb k d = Some v -> exists k', eqb k k' = true /\ In (k', v) d.
Proof.
  induction d as [|[k' v'] d IH]; simpl; [discriminate|].
  destruct (eqb k k') eqn:E.
  - intros [= <-]. exists k'. split; [exact E | now left].
  - intros H. destruct (IH H) as (k2 & H1 & H2). exists k2. split; [exact H1 | now right].
Qed.

Lemma get_set_same k v (d : Dict.t K V) :
  eqb k k = true -> Dict.get eqb k (Dict.set eqb k v d) = Some v.
Proof.
  intros R. induction d as [|[k' v'] d IH]; simpl.
  - now rewrite R.
  - destruct (eqb k k') eqn:E; simpl; rewrite E; auto.
Qed.

Lemma mem_set_same k v (d : Dict.t K V) :
  eqb k k = true -> Dict.mem eqb k (Dict.set eqb k v d) = true.
Proof. intros R. unfold Dict.mem. now rewrite get_set_same. Qed.

Hypothesis eqb_eq : forall x y, eqb x y = true <-> x = y.

Lemma eqb_refl' k : eqb k k = true.
Proof. now apply eqb_eq. Qed.

Lemma mem_In_keys k (d : Dict.t K V) :
  Dict.mem eqb k d = true <-> In k (Dict.keys d).
Proof.
  unfold Dict.mem. induction d as [|[k' v'] d IH]; simpl.
  - split; [discriminate | intros []].
  - destruct (eqb k k') eqn:E.
    + apply eqb_eq in E. subst. split; auto.
    + rewrite IH. split; auto. intros [H|H]; auto.
      subst. rewrite eqb_refl' in E. discriminate.
Qed.

Lemma In_mem k v (d : Dict.t K V) : In (k, v) d -> Dict.mem eqb k d = true.
Proof. intros H. apply mem_In_keys. now apply (in_map fst) in H. Qed.

Lemma keys_set k v (d : Dict.t K V) x :
  In x (Dict.keys (Dict.set eqb k v d)) -> In x (Dict.keys d) \/ x = k.
Proof.
  induction d as [|[k' v'] d IH]; simpl.
  - intros [<-|[]]; now right.
  - destruct (eqb k k'); simpl; intuition.
Qed.

Lemma keys_remove k (d : Dict.t K V) x :
  In x (Dict.keys (Dict.remove eqb k d)) -> In x (Dict.keys d).
Proof.
  induction d as [|[k' v'] d IH]; simpl; auto.
  destruct (eqb k k'); simpl; intuition.
Qed.

Lemma NoDup_keys_set k v (d : Dict.t K V) :
  NoDup (Dict.keys d) -> NoDup (Dict.keys (Dict.set eqb k v d)).
Proof.
  induction d as [|[k' v'] d IH]; simpl; intros H.
  - constructor; [intros [] | constructor].
  - inversion H as [|? ? Hn Hd]; subst.
    destruct (eqb k k') eqn:E; simpl.
    + constructor; assumption.
    + constructor; [|auto].
      intros Hin. apply keys_set in Hin. destruct Hin as [Hin| ->]; [auto|].
      rewrite eqb_refl' in E. discriminate.
Qed.

Lemma NoDup_keys_remove k (d : Dict.t K V) :
  NoDup (Dict.keys d) -> NoDup (Dict.keys (Dict.remove eqb k d)).
Proof.
  induction d as [|[k' v'] d IH]; simpl; intros H; [constructor|].
  inversion H as [|? ? Hn Hd]; subst.
  destruct (eqb k k'); simpl; [assumption|].
  constructor; [|auto]. intros Hin. apply keys_remove in Hin. auto.
Qed.

Lemma mem_set k k' v (d : Dict.t K V) :
  Dict.mem eqb k' d = true -> Dict.mem eqb k' (Dict.set eqb k v d) = true.
Proof.
  rewrite !mem_In_keys. induction d as [|[k2 v2] d IH]; simpl; [intros []|].
  destruct (eqb k k2); simpl; intuition.
Qed.

Lemma mem_remove_other k k' (d : Dict.t K V) :
  k' <> k -> Dict.mem eqb k' d = true -> Dict.mem eqb k' (Dict.remove eqb k d) = true.
Proof.
  rewrite !mem_In_keys. intros Hne. induction d as [|[k2 v2] d IH]; simpl; [intros []|].
  destruct (eqb k k2) eqn:E; simpl.
  - apply eqb_eq in E. subst. intros [H|H]; [congruence | assumption].
  - intuition.
Qed.

Lemma remove_set_absent k v (d : Dict.t K V) :
  Dict.get eqb k d = None -> Dict.remove eqb k (Dict.set eqb k v d) = d.
Proof.
  induction d as [|[k' v'] d IH]; simpl.
  - now rewrite eqb_refl'.
  - destruct (eqb k k') eqn:E; [discriminate|]. simpl. rewrite E.
    intros H. now rewrite IH.
Qed.

Lemma get_set_other k k' v (d : Dict.t K V) :
  k' <> k -> Dict.get eqb k' (Dict.set eqb k v d) = Dict.get eqb k' d.
Proof.
  intros Hne. induction d as [|[k2 v2] d IH]; simpl.
  - destruct (eqb k' k) eqn:E; [apply eqb_eq in E; congruence | reflexivity].
  - destruct (eqb k k2) eqn:E; simpl.
    + apply eqb_eq in E. subst.
      destruct (eqb k' k2) eqn:E2; [apply eqb_eq in E2; congruence | reflexivity].
    + now rewrite IH.
Qed.

Lemma get_remove_other k k' (d : Dict.t K V) :
  k' <> k -> Dict.get eqb k' (Dict.remove eqb k d) = Dict.get eqb k' d.
Proof.
  intros Hne. induction d as [|[k2 v2] d IH]; simpl; [reflexivity|].
  destruct (eqb k k2) eqn:E; simpl.
  - apply eqb_eq in E. subst.
    destruct (eqb k' k2) eqn:E2; [apply eqb_eq in E2; congruence | reflexivity].
  - now rewrite IH.
Qed.

Lemma remove_set_same k v (d : Dict.t K V) :
  Dict.remove eqb k (Dict.set eqb k v d) = Dict.remove eqb k d.
Proof.
  induction d as [|[k' v'] d IH]; simpl.
  - now rewrite eqb_refl'.
  - destruct (eqb k k') eqn:E; simpl; rewrite E; [reflexivity | now rewrite IH].
Qed.

End DictFacts.

Lemma addr_eqb_refl x : addr_eqb x x = true.
Proof. unfold addr_eqb. now rewrite String.eqb_refl, Z.eqb_refl. Qed.

Lemma addr_eqb_eq x y : addr_eqb x y = true <-> x = y.
Proof.
  unfold addr_eqb. destruct x as [x1 x2], y as [y1 y2]; simpl.
  rewrite andb_true_iff, String.eqb_eq, Z.eqb_eq. split.
  - intros [-> ->]; reflexivity.
  - intros [= -> ->]; split; reflexivity.
Qed.

Lemma distinct_NoDup l : distinct l = true <-> NoDup l.
Proof.
  induction l as [|x l IH]; simpl.
  - split; [constructor | reflexivity].
  - rewrite andb_true_iff, negb_true_iff, IH. split.
    + intros [H1 H2]. constructor; [|assumption].
      intros Hin. assert (existsb (addr_eqb x) l = true); [|congruence].
      apply existsb_exists. exists x. split; [assumption | apply addr_eqb_refl].
    + intros H. inversion H as [|? ? Hn Hd]; subst. split; [|assumption].
      destruct (existsb (addr_eqb x) l) eqn:E; [|reflexivity].
      apply existsb_exists in E. destruct E as (y & Hy & E).
      apply addr_eqb_eq in E. subst. contradiction.
Qed.

(* ================================================================== *)
(** ** Facts about float comparison *)

Lemma SFcompare_antisym f1 f2 c :
  SFcompare f1 f2 = Some c -> SFcompare f2 f1 = Some (CompOpp c).
Proof.
  destruct f1 as [s1|s1| |s1 m1 e1], f2 as [s2|s2| |s2 m2 e2]; simpl;
    try discriminate; intros [= <-]; f_equal;
    try reflexivity;
    try (destruct s1; reflexivity);
    try (destruct s2; reflexivity);
    try (destruct s1, s2; reflexivity).
  rewrite (Z.compare_antisym e1 e2).
  pose proof (Pos.compare_cont_antisym m1 m2 Eq) as H. simpl in H. rewrite <- H.
  destruct s1, s2; simpl; try reflexivity;
    destruct (e1 ?= e2)%Z; simpl; try reflexivity;
    destruct (Pos.compare_cont Eq m1 m2); reflexivity.
Qed.



(** max(m, x) is never below m. *)
Lemma max_not_below m x : PrimFloat.ltb (Py.max m x) m = false.
Proof.
  unfold Py.max. destruct (PrimFloat.ltb m x) eqn:E.
  - rewrite ltb_spec in *. unfold SFltb in *.
    destruct (SFcompare (Prim2SF m) (Prim2SF x)) as [c|] eqn:Hc; [|discriminate].
    rewrite (SFcompare_antisym _ _ Hc). destruct c; try discriminate. reflexivity.
  - rewrite ltb_spec. unfold SFltb.
    destruct (SFcompare (Prim2SF m) (Prim2SF m)) as [c|] eqn:Hc; [|reflexivity].
    pose proof (SFcompare_antisym _ _ Hc) as H. rewrite Hc in H.
    destruct c; try discriminate; reflexivity.
Qed.

(* ================================================================== *)
(** ** Reasoning about computations *)

Section TriRules.
Variable S : Type.
Variables P Qr : S -> Prop.

Lemma tri_pure A (x : A) : tri P Qr (pure x).
Proof. intros s H; exact H. Qed.

Lemma tri_raise A e : tri P Qr (@raise S A e).
Proof. intros s H; exact H. Qed.

Lemma tri_return A : (forall s, P s -> Qr s) -> tri P Qr (@return_ S A).
Proof. intros HQ s H; exact (HQ s H). Qed.

Lemma tri_gets A (f : S -> A) : tri P Qr (gets f).
Proof. intros s H; exact H. Qed.

Lemma tri_modify (f : S -> S) : (forall s, P s -> P (f s)) -> tri P Qr (modify f).
Proof. intros Hf s H; exact (Hf s H). Qed.

Lemma tri_bind A B (c : M S A) (k : A -> M S B) :
  tri P Qr c -> (forall x, tri P Qr (k x)) -> tri P Qr (bind c k).
Proof.
  intros Hc Hk s H. unfold bind. specialize (Hc s H).
  destruct (c s) as [s' [x| |e|]]; auto.
  exact (Hk x s' Hc).
Qed.

Lemma tri_try A (c h : M S A) :
  tri P Qr c -> tri P Qr h -> tri P Qr (try_except c h).
Proof.
  intros Hc Hh s H. unfold try_except. specialize (Hc s H).
  destruct (c s) as [s' [x| |e|]]; auto.
  exact (Hh s' Hc).
Qed.

Lemma tri_for_each A (l : list A) (body : A -> M S unit) :
  (forall x, In x l -> tri P Qr (body x)) -> tri P Qr (for_each l body).
Proof.
  induction l as [|x l IH]; intros Hb; simpl.
  - apply tri_pure.
  - apply tri_bind.
    + apply Hb; now left.
    + intros _. apply IH. intros y Hy. apply Hb; now right.
Qed.

End TriRules.

(** Where a computation that ends with a value leaves the state. *)
Lemma tri_val {S A} (P Qr : S -> Prop) (c : M S A) s s' x :
  tri P Qr c -> P s -> c s = (s', Val x) -> P s'.
Proof. intros H Hs E. specialize (H s Hs). now rewrite E in H. Qed.

Lemma tri_fst {S A} (I : S -> Prop) (c : M S A) s :
  inv I c -> I s -> snd (c s) <> Block /\ I (fst (c s)).
Proof.
  intros H Hs. specialize (H s Hs).
  destruct (c s) as [s' [x| |e|]]; simpl; try contradiction; split; auto; discriminate.
Qed.

(** One step along the structure of a computation. *)
Ltac tri_step :=
  lazymatch goal with
  | |- tri _ _ (bind _ _) => apply tri_bind; [| intros ?]
  | |- tri _ _ (try_except _ _) => apply tri_try
  | |- tri _ _ (for_each _ _) => apply tri_for_each; intros ? ?
  | |- tri _ _ (pure _) => apply tri_pure
  | |- tri _ _ (raise _) => apply tri_raise
  | |- tri _ _ (gets _) => apply tri_gets
  | |- tri _ _ (modify _) => apply tri_modify
  | |- tri _ _ return_ => apply tri_return
  | |- tri _ _ (match ?x with _ => _ end) => destruct x eqn:?
  end.

Section Phases.

Variable a : Args.
Variable w : World.

(** *** The three statements that are not built from [modify] *)

Lemma tri_lock_release (P Qr : St -> Prop) :
  (forall s, P s -> P (with_cur (set_lock false) s)) -> tri P Qr lock_release.
Proof.
  intros H s Hs. unfold lock_release. destruct (ep_lock (cur s)); auto.
Qed.

Lemma tri_SERVERS_LOCK_release (P Qr : St -> Prop) :
  (forall s, P s -> P (with_mach (set_SERVERS_LOCK false) s)) ->
  tri P Qr SERVERS_LOCK_release.
Proof.
  intros H s Hs. unfold SERVERS_LOCK_release. destruct (SERVERS_LOCK (mach s)); auto.
Qed.

Lemma tri_clients_del (P Qr : St -> Prop) addr :
  (forall s, P s ->
     P (with_cur (set_clients (Dict.remove addr_eqb addr (ep_clients (cur s)))) s)) ->
  tri P Qr (clients_del addr).
Proof.
  intros H s Hs. unfold clients_del, Dict.del.
  destruct (Dict.mem addr_eqb addr (ep_clients (cur s))); auto.
Qed.

(** *** Lock discipline *)

Lemma release_return_locks A :
  tri held released
    (lock_release ;; SERVERS_LOCK_release ;; @return_ St A)%monad.
Proof.
  intros s [H1 H2]. unfold bind, lock_release, SERVERS_LOCK_release, return_.
  rewrite H2. simpl. rewrite H1. simpl. split; reflexivity.
Qed.

Lemma tri_clients_del_held addr : tri held released (clients_del addr).
Proof. apply tri_clients_del. intros s H; exact H. Qed.

Ltac locks_leaf :=
  first [ apply release_return_locks
        | apply tri_clients_del_held
        | tri_step ].

Ltac locks_go := repeat locks_leaf; try (intros ? ?; assumption).

Lemma init_channel_locks : tri held released (init_channel a w).
Proof. unfold init_channel, last_times_set. locks_go. Qed.

Lemma send_locks ev sock data : tri held released (send a w ev sock data).
Proof. unfold send, emit. locks_go. Qed.

Lemma close_locks sock : tri held released (close w sock).
Proof. unfold close, emit. locks_go. Qed.

Lemma accept_pending_locks : tri held released (accept_pending a w).
Proof. unfold accept_pending, clients_set, emit. locks_go. Qed.

Lemma handle_request_locks r item : tri held released (handle_request a w r item).
Proof.
  unfold handle_request, serve_request, clients_set, sent_add.
  repeat first [ apply send_locks | apply close_locks | locks_leaf ];
    try (intros ? ?; assumption).
Qed.

Lemma request_loop_locks : tri held released (request_loop a w).
Proof.
  unfold request_loop.
  repeat first [ apply handle_request_locks | locks_leaf ].
Qed.

Lemma poll_locks : tri held released (poll a w).
Proof.
  unfold poll.
  repeat first [ apply accept_pending_locks | apply request_loop_locks | locks_leaf ];
    try (intros ? ?; assumption).
Qed.

Lemma send_frame_locks fd item : tri held released (send_frame a w fd item).
Proof.
  unfold send_frame, clients_set, sent_add.
  repeat first [ apply send_locks | locks_leaf ]; try (intros ? ?; assumption).
Qed.

Lemma broadcast_locks im : tri held released (broadcast a w im).
Proof.
  unfold broadcast, _jpeg_compress, last_times_set, emit.
  repeat first [ apply send_frame_locks | locks_leaf ]; try (intros ? ?; assumption).
Qed.

Lemma shutdown_locks : tri held released (shutdown a w).
Proof.
  unfold shutdown.
  apply tri_bind; [locks_go|intros cs].
  apply tri_bind; [locks_go|intros _].
  apply tri_bind; [apply tri_gets|intros server].
  apply tri_bind; [apply close_locks|intros _].
  intros s [H1 H2].
  unfold bind, lock_release, SERVERS_LOCK_release, modify, return_.
  rewrite H2. simpl. rewrite H1. simpl. split; reflexivity.
Qed.

Lemma body_locks : tri held released (body a w).
Proof.
  unfold body.
  apply tri_bind; [apply init_channel_locks|intros _].
  destruct (frame a).
  - apply tri_bind; [apply poll_locks|intros _]. apply broadcast_locks.
  - apply shutdown_locks.
Qed.

(** *** What a call leaves alone *)

(** Unfolds the statements down to the combinators of the monad. *)
Ltac open_body :=
  unfold body, poll, shutdown, broadcast, request_loop, handle_request,
    serve_request, send_frame, accept_pending, init_channel, _jpeg_compress,
    max_quality_of,
    send, send_str, close, clients_set, last_times_set, sent_add, emit.

Ltac frame_go :=
  repeat first [ apply tri_lock_release | apply tri_SERVERS_LOCK_release
               | apply tri_clients_del | tri_step ];
  try (intros ? ?; assumption).

(** The registry only ever loses entries during a call. *)
Lemma body_reg_incl reg0 : inv (reg_incl reg0) (body a w).
Proof.
  unfold inv. open_body. frame_go.
  intros s' H kv Hkv. apply H. simpl in Hkv. eapply In_remove; eauto.
Qed.

(** Outside the shutdown path the registry is not touched at all. *)
Lemma poll_reg_is reg0 : inv (reg_is reg0) (poll a w).
Proof. unfold inv. open_body. frame_go. Qed.

Lemma broadcast_reg_is reg0 im : inv (reg_is reg0) (broadcast a w im).
Proof. unfold inv. open_body. frame_go. Qed.

Lemma init_channel_reg_is reg0 : inv (reg_is reg0) (init_channel a w).
Proof. unfold inv. open_body. frame_go. Qed.

(** The accept and the request loop leave last_times alone. *)
Lemma poll_last_times lt : inv (last_times_is lt) (poll a w).
Proof. unfold inv. open_body. frame_go. Qed.


(** *** Events before the broadcast *)

Lemma events_ext_event (P : Event -> Prop) e0 e s :
  P e -> events_ext P e0 s -> events_ext P e0 (with_event e s).
Proof.
  intros He (evs & E & F). exists (evs ++ [e])%list. simpl. split.
  - rewrite E. now rewrite app_assoc.
  - apply Forall_app. split; [assumption | now constructor].
Qed.

Ltac quiet_go :=
  frame_go; try (intros ? ?; apply events_ext_event; [exact I | assumption]).

Lemma init_channel_quiet e0 : inv (events_ext quiet_event e0) (init_channel a w).
Proof. unfold inv. open_body. quiet_go. Qed.

Lemma poll_quiet e0 : inv (events_ext quiet_event e0) (poll a w).
Proof. unfold inv. open_body. quiet_go. Qed.

Lemma shutdown_quiet e0 : inv (events_ext quiet_event e0) (shutdown a w).
Proof. unfold inv. open_body. quiet_go. Qed.

(** *** The keys of clients stay distinct *)

Lemma clients_distinct_set addr c s :
  clients_distinct s ->
  clients_distinct
    (with_cur (fun e => set_clients (Dict.set addr_eqb addr c (ep_clients e)) e) s).
Proof.
  unfold clients_distinct. simpl. rewrite !distinct_NoDup.
  apply NoDup_keys_set, addr_eqb_eq.
Qed.

Lemma clients_distinct_remove addr s :
  clients_distinct s ->
  clients_distinct
    (with_cur (set_clients (Dict.remove addr_eqb addr (ep_clients (cur s)))) s).
Proof.
  unfold clients_distinct. simpl. rewrite !distinct_NoDup.
  apply NoDup_keys_remove.
Qed.

Lemma body_distinct : inv clients_distinct (body a w).
Proof.
  unfold inv. open_body. frame_go;
    first [ intros ? ?; now apply clients_distinct_set
          | intros ? ?; now apply clients_distinct_remove ].
Qed.

Lemma poll_distinct : inv clients_distinct (poll a w).
Proof.
  unfold inv. open_body. frame_go;
    first [ intros ? ?; now apply clients_distinct_set
          | intros ? ?; now apply clients_distinct_remove ].
Qed.

Lemma init_channel_distinct : inv clients_distinct (init_channel a w).
Proof. unfold inv. open_body. frame_go. Qed.


(** *** Other endpoints, other channels *)

Lemma body_reg_others reg0 : inv (reg_others (local_address a) reg0) (body a w).
Proof.
  unfold inv. open_body. frame_go.
  intros s' H k Hk. simpl. rewrite get_remove_other; auto using addr_eqb_eq.
Qed.

Lemma body_reg_is reg0 : frame a <> None -> inv (reg_is reg0) (body a w).
Proof.
  intros HF. unfold inv, body. destruct (frame a) as [im|]; [|congruence].
  apply tri_bind; [apply init_channel_reg_is|intros _].
  apply tri_bind; [apply poll_reg_is|intros _]. apply broadcast_reg_is.
Qed.

Lemma body_last_time_other c t :
  channel a <> c -> inv (last_time_at c t) (body a w).
Proof.
  intros Hc. unfold inv. open_body. frame_go;
    intros s' H; unfold last_time_at in *; simpl;
    rewrite get_set_other; auto using String.eqb_eq.
Qed.

Lemma poll_last_time c t : inv (last_time_at c t) (poll a w).
Proof. unfold inv. open_body. frame_go. Qed.


End Phases.

(* ================================================================== *)
(** ** Entering and leaving a call *)

Lemma epilogue_held s :
  held s ->
  epilogue s = (unlocked s, Val tt).
Proof.
  intros [H1 H2]. unfold epilogue, bind, lock_release, SERVERS_LOCK_release.
  rewrite H2. simpl. rewrite H1. reflexivity.
Qed.

Lemma enter_spec a w m :
  SERVERS_LOCK m = true ->
  match enter a w m with
  | Entered s =>
      held s /\ ret s = [] /\ sent s = 0%Z
      /\ Dict.mem addr_eqb (local_address a) (SERVERS (mach s)) = true
      /\ (forall kv, In kv (SERVERS (mach s)) ->
            In kv (SERVERS m) \/ ep_lock (snd kv) = false)
  | EntryRaised m' _ _ => SERVERS_LOCK m' = true /\ SERVERS m' = SERVERS m
  | EntryBlocked _ _ =>
      exists ep, Dict.get addr_eqb (local_address a) (SERVERS m) = Some ep
                 /\ ep_lock ep = true
  end.
Proof.
  intros HL. unfold enter.
  destruct (Dict.get addr_eqb (local_address a) (SERVERS m)) as [ep|] eqn:G.
  - unfold acquire_and_unpack. destruct (ep_lock ep) eqn:E.
    + exists ep; auto.
    + simpl. repeat split; auto.
      unfold Dict.mem. now rewrite G.
  - destruct (socket_ok w); simpl; [|auto].
    destruct (setsockopt_ok w); simpl; [|auto].
    destruct (bind_ok w (local_address a)); simpl; [|auto].
    destruct (listen_ok w); simpl; [|auto].
    repeat split; auto.
    + apply mem_set_same, addr_eqb_refl.
    + intros kv H. apply In_set in H. destruct H; [now left | right].
      now rewrite H.
Qed.

Lemma store_locks_free la s :
  released s ->
  (forall kv, In kv (SERVERS (mach s)) -> ep_lock (snd kv) = false) ->
  locks_free (store la s).
Proof.
  intros [H1 H2] H. unfold store.
  destruct (Dict.mem addr_eqb la (SERVERS (mach s))); split; simpl; auto.
  - intros k ep Hin. apply In_set in Hin. destruct Hin as [Hin|Hin].
    + exact (H _ Hin).
    + simpl in Hin. now subst.
  - intros k ep Hin. exact (H _ Hin).
Qed.

Lemma enter_entered a w m s :
  enter a w m = Entered s ->
  mach s = match Dict.get addr_eqb (local_address a) (SERVERS m) with
           | Some _ => m
           | None =>
               set_SERVERS
                 (Dict.set addr_eqb (local_address a)
                    (mkEndpoint false (next_sock m) [] []) (SERVERS m))
                 (set_next_sock (S (next_sock m)) m)
           end
  /\ cur s = set_lock true
               match Dict.get addr_eqb (local_address a) (SERVERS m) with
               | Some ep => ep
               | None => mkEndpoint false (next_sock m) [] []
               end
  /\ Forall quiet_event (events s).
Proof.
  unfold enter.
  destruct (Dict.get addr_eqb (local_address a) (SERVERS m)) as [ep|] eqn:G.
  - unfold acquire_and_unpack. destruct (ep_lock ep); [discriminate|].
    intros [= <-]. simpl. auto.
  - destruct (socket_ok w); simpl; [|discriminate].
    destruct (setsockopt_ok w); simpl; [|discriminate].
    destruct (bind_ok w (local_address a)); simpl; [|discriminate].
    destruct (listen_ok w); simpl; [|discriminate].
    intros [= <-]. simpl. repeat split. repeat constructor.
Qed.

(** *** The state at line 204 *)

Lemma at_broadcast_steps a w m sb :
  at_broadcast a w m = Some sb ->
  SERVERS_LOCK m = false /\
  exists s0 s1,
    enter a w (set_SERVERS_LOCK true m) = Entered s0
    /\ init_channel a w s0 = (s1, Val tt)
    /\ poll a w s1 = (sb, Val tt).
Proof.
  unfold at_broadcast. destruct (SERVERS_LOCK m); [discriminate|].
  destruct (enter a w (set_SERVERS_LOCK true m)) as [s0| |]; try discriminate.
  unfold bind. destruct (init_channel a w s0) as [s1 [[]| | |]] eqn:E1; try discriminate.
  destruct (poll a w s1) as [s2 [[]| | |]] eqn:E2; try discriminate.
  intros [= <-]. split; [reflexivity|]. exists s0, s1. auto.
Qed.

Lemma handle_frame_round a w m im sb :
  frame a = Some im ->
  at_broadcast a w m = Some sb ->
  handle_frame a w m =
  match broadcast a w im sb with
  | (s', Val _) | (s', Raise _) => finish a (epilogue s')
  | r => finish a r
  end.
Proof.
  intros HF HB. apply at_broadcast_steps in HB.
  destruct HB as (HL & s0 & s1 & E0 & E1 & E2).
  unfold handle_frame. rewrite HL, E0. unfold body. rewrite HF.
  unfold bind at 1. rewrite E1. unfold bind at 1. rewrite E2. reflexivity.
Qed.

Lemma at_broadcast_facts a w m sb :
  at_broadcast a w m = Some sb ->
  held sb
  /\ Forall quiet_event (events sb)
  /\ Dict.mem addr_eqb (local_address a) (SERVERS (mach sb)) = true
  /\ (forall k, k <> local_address a ->
        Dict.get addr_eqb k (SERVERS (mach sb)) = Dict.get addr_eqb k (SERVERS m))
  /\ Dict.get String.eqb (channel a) (ep_last_times (cur sb)) = Some (last_broadcast a w m)
  /\ (wf_machine m -> clients_distinct sb).
Proof.
  intros HB. apply at_broadcast_steps in HB.
  destruct HB as (HL & s0 & s1 & E0 & E1 & E2).
  pose proof (@enter_spec a w (set_SERVERS_LOCK true m) eq_refl) as HE.
  rewrite E0 in HE. destruct HE as (Hh & _ & _ & Hm & _).
  apply enter_entered in E0. destruct E0 as (Em & Ec & Eq).
  simpl in Em, Ec.
  assert (H1 : forall I Qr : St -> Prop,
             tri I Qr (init_channel a w) -> tri I Qr (poll a w) -> I s0 -> I sb).
  { intros I Qr Hi Hp H0. eapply tri_val; [exact Hp | | exact E2].
    eapply tri_val; [exact Hi | exact H0 | exact E1]. }
  split; [|split; [|split; [|split; [|split]]]].
  - apply (H1 held released); auto using init_channel_locks, poll_locks.
  - assert (H : events_ext quiet_event (events s0) sb).
    { apply (H1 _ (events_ext quiet_event (events s0)));
        [apply init_channel_quiet | apply poll_quiet |].
      exists []. split; [now rewrite app_nil_r | constructor]. }
    destruct H as (evs & E & F). rewrite E. apply Forall_app. now split.
  - assert (H : reg_is (SERVERS (mach s0)) sb)
      by (apply (H1 _ (reg_is (SERVERS (mach s0))));
          [apply init_channel_reg_is | apply poll_reg_is | reflexivity]).
    unfold reg_is in H. now rewrite H.
  - intros k Hk.
    assert (H : reg_is (SERVERS (mach s0)) sb)
      by (apply (H1 _ (reg_is (SERVERS (mach s0))));
          [apply init_channel_reg_is | apply poll_reg_is | reflexivity]).
    unfold reg_is in H. rewrite H, Em.
    destruct (Dict.get addr_eqb (local_address a) (SERVERS m)); simpl; [reflexivity|].
    apply get_set_other; [apply addr_eqb_eq | assumption].
  - assert (H : last_times_is (ep_last_times (cur s1)) sb)
      by (eapply tri_val; [apply poll_last_times | reflexivity | exact E2]).
    unfold last_times_is in H. rewrite H. clear H H1 E2.
    unfold last_broadcast.
    unfold init_channel, bind, gets, last_times_set, modify, pure in E1.
    rewrite Ec in E1.
    destruct (Dict.get addr_eqb (local_address a) (SERVERS m)) as [ep|]; simpl in E1.
    + unfold Dict.mem in E1.
      destruct (Dict.get String.eqb (channel a) (ep_last_times ep)) eqn:G;
        injection E1 as <-; simpl.
      * rewrite Ec. simpl. exact G.
      * apply get_set_same, String.eqb_refl.
    + injection E1 as <-. simpl. apply get_set_same, String.eqb_refl.
  - intros Hwf. apply (H1 clients_distinct clients_distinct);
      [apply init_channel_distinct | apply poll_distinct |].
    unfold clients_distinct. rewrite Ec.
    destruct (Dict.get addr_eqb (local_address a) (SERVERS m)) as [ep|] eqn:G; simpl;
      [|reflexivity].
    apply get_In in G. destruct G as (k & _ & Hin).
    unfold wf_machine in Hwf. rewrite forallb_forall in Hwf.
    exact (Hwf _ Hin).
Qed.

(** *** The broadcast, lines 204-233 *)

(** What the fan-out leaves alone. *)
Lemma send_frame_step a w fd item s :
  Dict.mem addr_eqb (fst item) (ep_clients (cur s)) = true ->
  exists s',
    send_frame a w fd item s = (s', Val tt)
    /\ events s' = (events s ++ [frame_event a w fd item])%list
    /\ mach s' = mach s
    /\ ep_lock (cur s') = ep_lock (cur s)
    /\ ep_last_times (cur s') = ep_last_times (cur s)
    /\ (forall k, k <> fst item ->
          Dict.mem addr_eqb k (ep_clients (cur s)) = true ->
          Dict.mem addr_eqb k (ep_clients (cur s')) = true).
Proof.
  destruct item as [addr c]. simpl. intros Hm.
  unfold send_frame, try_except, send, emit, bind, modify, sent_add, clients_set,
    clients_del, Dict.del, frame_event, pure, raise. simpl.
  destruct (send_ok w (sendall a) (c_sock c) fd); simpl.
  - eexists. split; [reflexivity|]. simpl. repeat split; auto.
    intros k _ Hk. apply mem_set; [apply addr_eqb_eq | assumption].
  - rewrite Hm. eexists. split; [reflexivity|]. simpl. repeat split; auto.
    intros k Hne Hk. apply mem_remove_other; [apply addr_eqb_eq | assumption | assumption].
Qed.

Lemma send_frames_run a w fd l :
  forall s,
    NoDup (map fst l) ->
    (forall x, In x l -> Dict.mem addr_eqb (fst x) (ep_clients (cur s)) = true) ->
    exists s',
      for_each l (send_frame a w fd) s = (s', Val tt)
      /\ events s' = (events s ++ map (frame_event a w fd) l)%list
      /\ mach s' = mach s
      /\ ep_lock (cur s') = ep_lock (cur s)
      /\ ep_last_times (cur s') = ep_last_times (cur s).
Proof.
  induction l as [|x l IH]; intros s Hnd Hin; simpl.
  - exists s. unfold pure. rewrite app_nil_r. auto.
  - simpl in Hnd. inversion Hnd as [|? ? Hx Hl]; subst.
    destruct (@send_frame_step a w fd x s) as (s1 & E1 & Ev1 & M1 & L1 & T1 & K1).
    { apply Hin. now left. }
    destruct (IH s1 Hl) as (s2 & E2 & Ev2 & M2 & L2 & T2).
    { intros y Hy. apply K1.
      - intros Heq. apply Hx. rewrite <- Heq. now apply in_map.
      - apply Hin. now right. }
    exists s2. unfold bind. rewrite E1, E2. split; [reflexivity|].
    rewrite Ev2, Ev1, M2, M1, L2, L1, T2, T1, <- app_assoc. auto.
Qed.

Lemma receivers_NoDup a w s :
  clients_distinct s -> NoDup (map fst (receivers_of a w (ep_clients (cur s)))).
Proof.
  unfold clients_distinct, receivers_of, Dict.keys. rewrite distinct_NoDup.
  generalize (ep_clients (cur s)). intros cs.
  induction cs as [|x cs IH]; simpl; intros H; [constructor|].
  inversion H as [|? ? Hx Hl]; subst.
  destruct (is_receiver a w (snd x)); simpl; auto.
  constructor; auto. intros Hin. apply Hx.
  apply in_map_iff in Hin. destruct Hin as (y & <- & Hy).
  apply filter_In in Hy. apply in_map. tauto.
Qed.

Lemma receivers_mem a w s x :
  In x (receivers_of a w (ep_clients (cur s))) ->
  Dict.mem addr_eqb (fst x) (ep_clients (cur s)) = true.
Proof.
  unfold receivers_of. intros H. apply filter_In in H. destruct H as [H _].
  destruct x as [k v]. eapply In_mem; [apply addr_eqb_eq | eassumption].
Qed.

Lemma max_quality_of_cons x l : exists q, max_quality_of (x :: l) = Some q.
Proof. unfold max_quality_of. simpl. eauto. Qed.

(** Line 206 is true: lines 207-209. *)
Lemma broadcast_skip a w im s :
  held s -> skips a w s ->
  broadcast a w im s = (unlocked s, Return).
Proof.
  intros [H1 H2] Hs.
  unfold broadcast, bind, gets, pure, raise, lock_release, SERVERS_LOCK_release, return_.
  destruct Hs as [Hs | (t & Ht & Hlt)].
  - rewrite Hs. simpl. rewrite H2. simpl. rewrite H1. reflexivity.
  - destruct (receivers_of a w (ep_clients (cur s))); simpl.
    + rewrite H2. simpl. rewrite H1. reflexivity.
    + rewrite Ht, Hlt. simpl. rewrite H2. simpl. rewrite H1. reflexivity.
Qed.

(** Line 206 is false: the encoder is called once, at the largest quality
    among the receivers; when it raises, so does the broadcast, and when
    it answers, every receiver is handed the same chunk and line 233
    records the time. *)
Lemma broadcast_go a w im s t :
  receivers_of a w (ep_clients (cur s)) <> [] ->
  Dict.get String.eqb (channel a) (ep_last_times (cur s)) = Some t ->
  PrimFloat.ltb (now w - t)%float (min_delay a) = false ->
  exists q,
    max_quality_of (receivers_of a w (ep_clients (cur s))) = Some q /\
    match backend w im q with
    | None => broadcast a w im s = (with_event (EvEncode q false) s, Raise EncoderError)
    | Some jpeg =>
        clients_distinct s ->
        exists s',
          broadcast a w im s = (s', Val tt)
          /\ events s' =
             (events s ++ EvEncode q true
                :: map (frame_event a w (frame_data_of (sheaders_of (headers a)) jpeg))
                     (receivers_of a w (ep_clients (cur s))))%list
          /\ mach s' = mach s
          /\ ep_lock (cur s') = ep_lock (cur s)
          /\ Dict.get String.eqb (channel a) (ep_last_times (cur s')) = Some (now w)
    end.
Proof.
  intros HR Ht Hlt.
  pose proof (@receivers_NoDup a w s) as Hnd.
  pose proof (@receivers_mem a w s) as Hmem.
  unfold broadcast, bind, gets, pure, raise, _jpeg_compress, emit, modify, last_times_set.
  destruct (receivers_of a w (ep_clients (cur s))) as [|x R] eqn:ER; [congruence|].
  destruct (max_quality_of_cons x R) as (q & Eq). exists q. split; [exact Eq|].
  rewrite Ht. cbv beta iota. rewrite Hlt, Eq.
  destruct (backend w im q) as [jpeg|]; [|reflexivity].
  intros Hd. specialize (Hnd Hd).
  destruct (@send_frames_run a w (frame_data_of (sheaders_of (headers a)) jpeg) (x :: R)
              (with_event (EvEncode q true) s) Hnd)
    as (s' & E & Ev & Mm & L & T).
  { intros y Hy. simpl. now apply Hmem. }
  unfold bind, pure, modify. cbv beta iota. rewrite E.
  eexists. split; [reflexivity|]. simpl.
  rewrite Ev, Mm, L. simpl. rewrite <- app_assoc. simpl.
  repeat split; auto. apply get_set_same, String.eqb_refl.
Qed.

(** *** The whole call, once the endpoint is entered *)

Lemma unlocked_released s : released s -> unlocked s = s.
Proof.
  destruct s as [[sv sl ns] [l sv' lt cs] r n evs]. unfold released, unlocked. simpl.
  intros [-> ->]. reflexivity.
Qed.

Lemma handle_frame_entered a w m s0 :
  SERVERS_LOCK m = false ->
  enter a w (set_SERVERS_LOCK true m) = Entered s0 ->
  handle_frame a w m =
  (store (local_address a) (unlocked (fst (body a w s0))),
   events (fst (body a w s0)),
   Returned (ret (fst (body a w s0))) (sent (fst (body a w s0)))).
Proof.
  intros HL HE. unfold handle_frame. rewrite HL, HE.
  pose proof (@enter_spec a w (set_SERVERS_LOCK true m) eq_refl) as HS.
  rewrite HE in HS. destruct HS as (Hh & _).
  pose proof (@body_locks a w s0 Hh) as HB.
  destruct (body a w s0) as [s' [[]| |e|]]; simpl; try contradiction.
  - rewrite (epilogue_held HB). reflexivity.
  - rewrite (unlocked_released HB). reflexivity.
  - rewrite (epilogue_held HB). reflexivity.
Qed.

Lemma enter_events_quiet a w m :
  match enter a w m with
  | Entered s => Forall quiet_event (events s)
  | EntryRaised _ evs _ | EntryBlocked _ evs => Forall quiet_event evs
  end.
Proof.
  unfold enter.
  destruct (Dict.get addr_eqb (local_address a) (SERVERS m)) as [ep|].
  - unfold acquire_and_unpack. destruct (ep_lock ep); simpl; constructor.
  - destruct (socket_ok w); simpl; [|constructor].
    destruct (setsockopt_ok w); simpl; [|repeat constructor].
    destruct (bind_ok w (local_address a)); simpl; [|repeat constructor].
    destruct (listen_ok w); simpl; repeat constructor.
Qed.

(** Every shape a call can take. *)
Lemma handle_frame_cases a w m :
  (exists s0,
     SERVERS_LOCK m = false
     /\ enter a w (set_SERVERS_LOCK true m) = Entered s0
     /\ handle_frame a w m =
        (store (local_address a) (unlocked (fst (body a w s0))),
         events (fst (body a w s0)),
         Returned (ret (fst (body a w s0))) (sent (fst (body a w s0)))))
  \/ (SERVERS (machine_of (handle_frame a w m)) = SERVERS m
      /\ Forall quiet_event (events_of (handle_frame a w m))
      /\ at_broadcast a w m = None).
Proof.
  destruct (SERVERS_LOCK m) eqn:HL.
  { right. unfold handle_frame, at_broadcast. rewrite HL. simpl. auto. }
  destruct (enter a w (set_SERVERS_LOCK true m)) as [s0|m' evs e|m' evs] eqn:HE.
  - left. exists s0. auto using handle_frame_entered.
  - right. pose proof (@enter_spec a w (set_SERVERS_LOCK true m) eq_refl) as HS.
    pose proof (enter_events_quiet a w (set_SERVERS_LOCK true m)) as HQ.
    rewrite HE in HS, HQ. destruct HS as [H1 H2].
    unfold handle_frame, at_broadcast. rewrite HL, HE, H1. simpl. auto.
  - right. pose proof (enter_events_quiet a w (set_SERVERS_LOCK true m)) as HQ.
    rewrite HE in HQ. unfold enter in HE.
    unfold handle_frame, at_broadcast. rewrite HL. unfold enter. 
    destruct (Dict.get addr_eqb (local_address a) (SERVERS (set_SERVERS_LOCK true m)))
      as [ep|].
    + unfold acquire_and_unpack in *. destruct (ep_lock ep); [|discriminate].
      injection HE as <- <-. simpl. auto.
    + destruct (socket_ok w); simpl in *; [|discriminate].
      destruct (setsockopt_ok w); simpl in *; [|discriminate].
      destruct (bind_ok w (local_address a)); simpl in *; [|discriminate].
      destruct (listen_ok w); simpl in *; discriminate.
Qed.

Lemma store_forall (Phi : Endpoint -> Prop) la s :
  (forall kv, In kv (SERVERS (mach s)) -> Phi (snd kv)) ->
  Phi (cur s) ->
  forall kv, In kv (SERVERS (store la s)) -> Phi (snd kv).
Proof.
  intros H Hc kv. unfold store.
  destruct (Dict.mem addr_eqb la (SERVERS (mach s))); simpl; auto.
  intros Hin. apply In_set in Hin. destruct Hin as [Hin| ->]; auto.
Qed.

Lemma quiet_no_frame evs : Forall quiet_event evs -> ~ sends_frame evs.
Proof.
  intros H (s & d & ok & Hin). rewrite Forall_forall in H. exact (H _ Hin).
Qed.

Lemma get_store_same la s :
  Dict.mem addr_eqb la (SERVERS (mach s)) = true ->
  Dict.get addr_eqb la (SERVERS (store la s)) = Some (cur s).
Proof.
  intros H. unfold store. rewrite H. simpl. apply get_set_same, addr_eqb_refl.
Qed.


Lemma get_store_other la s k :
  k <> la ->
  Dict.get addr_eqb k (SERVERS (store la s)) = Dict.get addr_eqb k (SERVERS (mach s)).
Proof.
  intros H. unfold store.
  destruct (Dict.mem addr_eqb la (SERVERS (mach s))); simpl; [|reflexivity].
  apply get_set_other; [apply addr_eqb_eq | assumption].
Qed.

(** A call that does not reach line 204 emits no encoder call and no
    frame. *)
Lemma no_round_quiet a w m :
  frame a = None \/ at_broadcast a w m = None ->
  Forall quiet_event (events_of (handle_frame a w m)).
Proof.
  intros H. destruct (handle_frame_cases a w m) as [(s0 & HL & HE & ->)|(_ & HQ & _)];
    [|exact HQ].
  unfold events_of. simpl.
  pose proof (enter_events_quiet a w (set_SERVERS_LOCK true m)) as H0. rewrite HE in H0.
  assert (HI : events_ext quiet_event [] s0).
  { exists (events s0). split; [reflexivity | assumption]. }
  assert (HX : events_ext quiet_event [] (fst (body a w s0))).
  { unfold body. destruct (frame a) as [im|] eqn:HF.
    - destruct H as [H|H]; [discriminate|].
      unfold at_broadcast in H. rewrite HL, HE in H.
      assert (HP : inv (events_ext quiet_event [])
                     (init_channel a w ;; poll a w)%monad).
      { apply tri_bind; [apply init_channel_quiet | intros _; apply poll_quiet]. }
      pose proof (@tri_fst _ _ _ _ _ HP HI) as [_ HI'].
      revert H HI'. unfold bind.
      destruct (init_channel a w s0) as [s1 [[]| | |]]; simpl; auto.
      destruct (poll a w s1) as [s2 [[]| | |]]; simpl; auto. discriminate.
    - assert (HP : inv (events_ext quiet_event [])
                     (init_channel a w ;; shutdown a w)%monad).
      { apply tri_bind; [apply init_channel_quiet | intros _; apply shutdown_quiet]. }
      exact (proj2 (@tri_fst _ _ _ _ _ HP HI)). }
  destruct HX as (evs & -> & F). exact F.
Qed.

(** The dicts of the registry keep distinct keys. *)
Lemma handle_frame_wf a w m :
  wf_machine m -> wf_machine (machine_of (handle_frame a w m)).
Proof.
  intros Hwf.
  destruct (handle_frame_cases a w m) as [(s0 & HL & HE & ->)|(E & _ & _)].
  2:{ unfold wf_machine. now rewrite E. }
  unfold machine_of. simpl. unfold wf_machine in *. rewrite forallb_forall in *.
  pose proof (@enter_entered a w _ s0 HE) as (Em & Ec & _). simpl in Em, Ec.
  set (Phi := fun ep : Endpoint => distinct (Dict.keys (ep_clients ep)) = true).
  assert (H0 : forall kv, In kv (SERVERS (mach s0)) -> Phi (snd kv)).
  { intros kv. rewrite Em.
    destruct (Dict.get addr_eqb (local_address a) (SERVERS m)); simpl.
    - apply Hwf.
    - intros Hin. apply In_set in Hin. destruct Hin as [Hin| ->]; [now apply Hwf|].
      reflexivity. }
  assert (Hc : clients_distinct s0).
  { unfold clients_distinct. rewrite Ec.
    destruct (Dict.get addr_eqb (local_address a) (SERVERS m)) as [ep|] eqn:G; simpl;
      [|reflexivity].
    apply get_In in G. destruct G as (k & _ & Hin). exact (Hwf _ Hin). }
  apply (store_forall Phi).
  - intros kv Hin. simpl in Hin. apply H0.
    pose proof (@body_reg_incl a w (SERVERS (mach s0))) as HR.
    apply (proj2 (@tri_fst _ _ _ _ _ HR (incl_refl _))). exact Hin.
  - exact (proj2 (@tri_fst _ _ _ _ _ (@body_distinct a w) Hc)).
Qed.

(** A call leaves the entries of the other endpoints as they are. *)
Lemma handle_frame_others a w m k :
  k <> local_address a ->
  Dict.get addr_eqb k (SERVERS (machine_of (handle_frame a w m)))
  = Dict.get addr_eqb k (SERVERS m).
Proof.
  intros Hk.
  destruct (handle_frame_cases a w m) as [(s0 & HL & HE & ->)|(E & _ & _)].
  2:{ now rewrite E. }
  unfold machine_of. simpl. rewrite get_store_other by assumption. simpl.
  pose proof (@enter_entered a w _ s0 HE) as (Em & _ & _). simpl in Em.
  pose proof (@body_reg_others a w (SERVERS (mach s0))) as HR.
  assert (H0 : reg_others (local_address a) (SERVERS (mach s0)) s0) by (intros ? ?; reflexivity).
  pose proof (proj2 (@tri_fst _ _ _ _ _ HR H0)) as H1. rewrite (H1 k Hk), Em.
  destruct (Dict.get addr_eqb (local_address a) (SERVERS m)); simpl; [reflexivity|].
  apply get_set_other; [apply addr_eqb_eq | assumption].
Qed.

(** *** The two ways through line 206 *)

Lemma skips_dec a w s t :
  Dict.get String.eqb (channel a) (ep_last_times (cur s)) = Some t ->
  skips a w s
  \/ (receivers_of a w (ep_clients (cur s)) <> []
      /\ PrimFloat.ltb (now w - t)%float (min_delay a) = false).
Proof.
  intros Ht. unfold skips.
  destruct (receivers_of a w (ep_clients (cur s))) as [|x R]; [now left; left|].
  destruct (PrimFloat.ltb (now w - t)%float (min_delay a)) eqn:E.
  - left; right. eauto.
  - right. split; [discriminate | reflexivity].
Qed.

Lemma round_skip a w m im sb :
  frame a = Some im ->
  at_broadcast a w m = Some sb ->
  skips a w sb ->
  handle_frame a w m =
  (store (local_address a) (unlocked sb), events sb, Returned (ret sb) (sent sb)).
Proof.
  intros HF HB Hs. rewrite (handle_frame_round _ _ _ HF HB).
  destruct (at_broadcast_facts _ _ _ HB) as (Hh & _).
  rewrite (broadcast_skip im Hh Hs). reflexivity.
Qed.

Lemma round_go a w m im sb :
  frame a = Some im ->
  at_broadcast a w m = Some sb ->
  receivers_of a w (ep_clients (cur sb)) <> [] ->
  PrimFloat.ltb (now w - last_broadcast a w m)%float (min_delay a) = false ->
  exists q,
    max_quality_of (receivers_of a w (ep_clients (cur sb))) = Some q /\
    match backend w im q with
    | None =>
        handle_frame a w m =
        (store (local_address a) (unlocked sb),
         (events sb ++ [EvEncode q false])%list,
         Returned (ret sb) (sent sb))
    | Some jpeg =>
        wf_machine m ->
        exists s',
          handle_frame a w m =
          (store (local_address a) (unlocked s'),
           (events sb ++ EvEncode q true
              :: map (frame_event a w (frame_data_of (sheaders_of (headers a)) jpeg))
                   (receivers_of a w (ep_clients (cur sb))))%list,
           Returned (ret s') (sent s'))
          /\ SERVERS (mach s') = SERVERS (mach sb)
          /\ last_time_at (channel a) (now w) s'
    end.
Proof.
  intros HF HB HR Hlt. rewrite (handle_frame_round _ _ _ HF HB).
  destruct (at_broadcast_facts _ _ _ HB) as (Hh & _ & _ & _ & Ht & Hd).
  destruct (@broadcast_go a w im sb _ HR Ht Hlt) as (q & Eq & Hb).
  exists q. split; [exact Eq|].
  destruct (backend w im q) as [jpeg|].
  - intros Hwf. destruct (Hb (Hd Hwf)) as (s' & E & Ev & Mm & L & T). rewrite E.
    assert (Hh' : held s').
    { destruct Hh as [H1 H2]. split; [now rewrite Mm | now rewrite L]. }
    rewrite (epilogue_held Hh'). exists s'. simpl. rewrite Ev, Mm.
    repeat split; auto.
  - rewrite Hb.
    assert (Hh' : held (with_event (EvEncode q false) sb)) by exact Hh.
    rewrite (epilogue_held Hh'). reflexivity.
Qed.


Lemma init_channel_known a w s t :
  last_time_at (channel a) t s -> init_channel a w s = (s, Val tt).
Proof.
  unfold last_time_at, init_channel, bind, gets, Dict.mem. now intros ->.
Qed.

Lemma last_broadcast_served a w m t :
  served_at (local_address a) (channel a) t m -> last_broadcast a w m = t.
Proof.
  intros (ep & G1 & G2). unfold last_broadcast. now rewrite G1, G2.
Qed.

(** A later call with a frame keeps the recorded time of channel [c] at
    [la], unless it is a call on that very channel at least min_delay
    later; and a call on that channel less than min_delay later sends no
    frame. *)
Lemma keeps_served a w m la c t :
  frame a <> None ->
  served_at la c t m ->
  (local_address a = la -> channel a = c ->
   PrimFloat.ltb (now w - t)%float (min_delay a) = true) ->
  served_at la c t (machine_of (handle_frame a w m))
  /\ (local_address a = la -> channel a = c ->
      ~ sends_frame (events_of (handle_frame a w m))).
Proof.
  intros HF HS Hlt.
  destruct (addr_eqb (local_address a) la) eqn:Ela.
  2:{ assert (Hne : la <> local_address a).
      { intros E. rewrite E, addr_eqb_refl in Ela. discriminate. }
      split; [|intros E; congruence].
      destruct HS as (ep & G1 & G2). exists ep.
      rewrite handle_frame_others by assumption. auto. }
  apply addr_eqb_eq in Ela. subst la.
  destruct (String.eqb (channel a) c) eqn:Ec.
  - (* the same channel: the call is rate limited *)
    apply String.eqb_eq in Ec. subst c. specialize (Hlt eq_refl eq_refl).
    destruct (frame a) as [im|] eqn:HFr; [clear HF|congruence].
    destruct (at_broadcast a w m) as [sb|] eqn:HB.
    + destruct (at_broadcast_facts _ _ _ HB) as (Hh & HQ & Hm & _ & Ht & _).
      rewrite (@last_broadcast_served a w m t HS) in Ht.
      assert (Hk : skips a w sb) by (right; eauto).
      rewrite (@round_skip a w m im sb HFr HB Hk). unfold machine_of, events_of. simpl.
      split; [|intros _ _; now apply quiet_no_frame].
      exists (cur (unlocked sb)). split; [now apply get_store_same | exact Ht].
    + split; [|intros _ _; apply quiet_no_frame, no_round_quiet; now right].
      destruct (handle_frame_cases a w m) as [(s0 & HL & HE & ->)|(E & _ & _)].
      2:{ destruct HS as (ep & G1 & G2). exists ep. now rewrite E. }
      destruct HS as (ep & G1 & G2).
      pose proof (@enter_entered a w _ s0 HE) as (Em & Ecur & _). simpl in Em, Ecur.
      rewrite G1 in Em, Ecur.
      assert (H0 : last_time_at (channel a) t s0).
      { unfold last_time_at. rewrite Ecur. exact G2. }
      unfold at_broadcast in HB. rewrite HL, HE in HB.
      unfold body. rewrite HFr. revert HB. unfold bind.
      rewrite (@init_channel_known a w s0 t H0).
      pose proof (proj2 (@tri_fst _ _ _ _ _ (@poll_last_time a w (channel a) t) H0)) as H1.
      pose proof (@poll_reg_is a w (SERVERS (mach s0))) as HR.
      pose proof (proj2 (@tri_fst _ _ _ _ _ HR eq_refl)) as H2. unfold reg_is in H2.
      destruct (poll a w s0) as [s1 [[]| | |]]; simpl in *; try discriminate; intros _;
        unfold machine_of; simpl;
        (exists (cur (unlocked s1)); split; [|exact H1]);
        apply get_store_same; simpl; rewrite H2, Em; simpl;
        unfold Dict.mem; now rewrite G1.
  - (* another channel of the same endpoint *)
    assert (Hne : channel a <> c).
    { intros E. rewrite E, String.eqb_refl in Ec. discriminate. }
    split; [|intros _ E; congruence].
    destruct (handle_frame_cases a w m) as [(s0 & HL & HE & ->)|(E & _ & _)].
    2:{ destruct HS as (ep & G1 & G2). exists ep. now rewrite E. }
    destruct HS as (ep & G1 & G2).
    pose proof (@enter_entered a w _ s0 HE) as (Em & Ecur & _). simpl in Em, Ecur.
    rewrite G1 in Em, Ecur.
    assert (H0 : last_time_at c t s0).
    { unfold last_time_at. rewrite Ecur. exact G2. }
    pose proof (proj2 (@tri_fst _ _ _ _ _ (@body_last_time_other a w c t Hne) H0)) as H1.
    pose proof (@body_reg_is a w (SERVERS (mach s0)) HF) as HR.
    pose proof (proj2 (@tri_fst _ _ _ _ _ HR eq_refl)) as H2. unfold reg_is in H2.
    unfold machine_of. simpl.
    exists (cur (unlocked (fst (body a w s0)))). split; [|exact H1].
    apply get_store_same. simpl. rewrite H2, Em. simpl.
    unfold Dict.mem. now rewrite G1.
Qed.



(** *** Counting encoder calls and frames *)

Lemma quiet_filter_encode evs :
  Forall quiet_event evs -> filter is_encode_event evs = [].
Proof.
  induction 1 as [|e evs He _ IH]; simpl; [reflexivity|].
  destruct e; simpl in *; auto; contradiction.
Qed.

Lemma quiet_filter_frame evs :
  Forall quiet_event evs -> filter is_frame_event evs = [].
Proof.
  induction 1 as [|e evs He _ IH]; simpl; [reflexivity|].
  destruct e; simpl in *; auto; contradiction.
Qed.

Lemma filter_frame_events a w fd l :
  filter is_frame_event (map (frame_event a w fd) l) = map (frame_event a w fd) l.
Proof. induction l as [|x l IH]; simpl; [reflexivity | now rewrite IH]. Qed.

Lemma filter_encode_frame_events a w fd l :
  filter is_encode_event (map (frame_event a w fd) l) = [].
Proof. induction l as [|x l IH]; simpl; [reflexivity | exact IH]. Qed.

Lemma sends_frame_filter evs : sends_frame evs <-> filter is_frame_event evs <> [].
Proof.
  split.
  - intros (s & d & ok & Hin) E.
    assert (H : In (EvSendFrame s d ok) (filter is_frame_event evs))
      by (apply filter_In; split; [assumption | reflexivity]).
    rewrite E in H. exact H.
  - intros H. destruct (filter is_frame_event evs) as [|e l] eqn:E; [congruence|].
    assert (Hin : In e (filter is_frame_event evs)) by (rewrite E; now left).
    apply filter_In in Hin. destruct Hin as [Hin He].
    destruct e; try discriminate. now exists s, data, ok.
Qed.

(** max(list) is the largest element of the list. *)
Lemma fold_max_spec l : forall x,
  (x <= fold_left Z.max l x)%Z
  /\ (forall y, In y l -> (y <= fold_left Z.max l x)%Z)
  /\ (fold_left Z.max l x = x \/ In (fold_left Z.max l x) l).
Proof.
  induction l as [|y l IH]; intros x; simpl.
  - split; [lia|]. split; [intros ? []|now left].
  - destruct (IH (Z.max x y)) as (H1 & H2 & H3). split; [lia|]. split.
    + intros z [<-|Hz]; [lia | auto].
    + destruct H3 as [H3|H3]; [|now right; right].
      rewrite H3. destruct (Z.max_spec x y) as [[_ ->]|[_ ->]]; auto.
Qed.

Lemma max_list_spec l q :
  Py.max_list l = Some q -> In q l /\ forall y, In y l -> (y <= q)%Z.
Proof.
  destruct l as [|x l]; simpl; [discriminate|]. intros [= <-].
  destruct (fold_max_spec l x) as (H1 & H2 & H3). split.
  - destruct H3 as [->|H3]; auto.
  - intros y [<-|Hy]; auto.
Qed.

(** *** One client of the request loop, lines 170-203 *)

Lemma len_zero data : (Py.len data =? 0)%Z = true <-> data = EmptyString.
Proof.
  unfold Py.len. destruct data; simpl; split; auto; discriminate.
Qed.

(** A request that is read, is not for the index page and whose
    parameters int() and float() accept: line 195 stores the negotiated
    record, line 198 sends the stream header, and a failure of that send
    removes the record again. *)
Lemma handle_request_served a w r addr c s data c' :
  existsb (Nat.eqb (c_sock c)) r = true ->
  recv_decode w (c_sock c) = Some data ->
  data <> EmptyString ->
  wants_index a (GET_RE_findall data) = false ->
  negotiated a w c (params_of data) = Some c' ->
  let ok := send_ok w (sendall a) (c_sock c) STREAM_HEADER in
  let stored := Dict.set addr_eqb addr c' (ep_clients (cur s)) in
  handle_request a w r (addr, c) s =
  (mkSt (mach s)
        (set_clients (if ok then stored else Dict.remove addr_eqb addr stored) (cur s))
        (ret s)
        (if ok then sent s + Py.len STREAM_HEADER else sent s)%Z
        (events s ++ [EvSendHeader (c_sock c) STREAM_HEADER ok])%list,
   Val tt).
Proof.
  intros Hr Hd Hne Hi Hn ok stored. subst ok stored.
  unfold handle_request. rewrite Hr.
  unfold try_except, serve_request. rewrite Hd.
  destruct (Py.len data =? 0)%Z eqn:E; [apply len_zero in E; contradiction|].
  rewrite Hi. unfold negotiated, params_of in Hn.
  destruct (new_quality a w _ (c_quality c)) as [q|]; [|discriminate].
  destruct (new_delay a w _ (c_delay c)) as [d|]; [|discriminate].
  injection Hn as <-.
  unfold bind, clients_set, modify, send, emit, sent_add, clients_del, Dict.del, pure, raise.
  simpl.
  destruct (send_ok w (sendall a) (c_sock c) STREAM_HEADER); simpl; [reflexivity|].
  rewrite mem_set_same by apply addr_eqb_refl. reflexivity.
Qed.

(** A protocol error: the record is removed and nothing is sent. *)
Lemma handle_request_dropped a w r addr c s :
  existsb (Nat.eqb (c_sock c)) r = true ->
  Dict.mem addr_eqb addr (ep_clients (cur s)) = true ->
  protocol_error a w c ->
  handle_request a w r (addr, c) s =
  (with_cur (set_clients (Dict.remove addr_eqb addr (ep_clients (cur s)))) s, Val tt).
Proof.
  intros Hr Hm Hp. unfold handle_request. rewrite Hr.
  unfold try_except, serve_request, protocol_error in *.
  destruct (recv_decode w (c_sock c)) as [data|].
  - destruct Hp as [->|[Hi Hn]].
    + simpl. unfold raise, clients_del, Dict.del. now rewrite Hm.
    + destruct (Py.len data =? 0)%Z;
        [unfold raise, clients_del, Dict.del; now rewrite Hm|].
      rewrite Hi. unfold negotiated, params_of in Hn.
      destruct (new_quality a w _ (c_quality c)) as [q|];
        [|unfold raise, clients_del, Dict.del; now rewrite Hm].
      destruct (new_delay a w _ (c_delay c)) as [d|]; [discriminate|].
      unfold raise, clients_del, Dict.del; now rewrite Hm.
  - unfold raise, clients_del, Dict.del. now rewrite Hm.
Qed.

(** *** The stream header comes first *)

Lemma header_first_snoc tr e :
  header_first tr ->
  (forall s d ok, e = EvSendFrame s d ok -> exists d', In (EvSendHeader s d' true) tr) ->
  header_first (tr ++ [e]).
Proof.
  intros H He pre s d ok post E.
  destruct (exists_last (l := EvSendFrame s d ok :: post)) as (l' & x & El);
    [discriminate|].
  rewrite El, app_assoc in E. apply app_inj_tail in E. destruct E as [E <-].
  destruct post as [|y post].
  - destruct l' as [|z l']; [|destruct l'; discriminate].
    simpl in El. injection El as <-. rewrite app_nil_r in E. subst pre.
    exact (He _ _ _ eq_refl).
  - destruct l' as [|z l']; [discriminate|].
    simpl in El. injection El as <- El'. subst tr.
    exact (H pre s d ok l' eq_refl).
Qed.

Lemma header_first_app tr evs :
  header_first tr ->
  Forall (fun e => is_frame_event e = false) evs ->
  header_first (tr ++ evs).
Proof.
  intros H F. induction evs as [|e evs IH] using rev_ind.
  - now rewrite app_nil_r.
  - apply Forall_app in F. destruct F as [F Fe]. rewrite app_assoc.
    apply header_first_snoc; [auto|].
    intros s d ok ->. inversion Fe; subst. discriminate.
Qed.

Lemma hdr_ok_mono tr tr' ep :
  incl tr tr' -> hdr_ok tr ep -> hdr_ok tr' ep.
Proof.
  intros Hi H x Hx Hh. destruct (H x Hx Hh) as (d & Hd). exists d. auto.
Qed.

Lemma quiet_not_frame evs :
  Forall quiet_event evs -> Forall (fun e => is_frame_event e = false) evs.
Proof.
  apply Forall_impl. intros e. destruct e; simpl; auto; contradiction.
Qed.

Lemma hdr_inv_event tr0 e s :
  is_frame_event e = false -> hdr_inv tr0 s -> hdr_inv tr0 (with_event e s).
Proof.
  intros He [H1 H2]. unfold hdr_inv. simpl. rewrite app_assoc. split.
  - apply header_first_snoc; [assumption|]. intros ? ? ? ->. discriminate.
  - eapply hdr_ok_mono; [|exact H2]. apply incl_appl, incl_refl.
Qed.

Lemma hdr_inv_clients tr0 cs s :
  incl cs (ep_clients (cur s)) ->
  hdr_inv tr0 s -> hdr_inv tr0 (with_cur (set_clients cs) s).
Proof.
  intros Hi [H1 H2]. split; [exact H1|]. intros x Hx. apply H2. auto.
Qed.

Lemma tri_of_fst {A} (P : St -> Prop) (c : M St A) :
  (forall s, P s -> P (fst (c s)) /\ snd (c s) <> Block) -> tri P P c.
Proof.
  intros H s Hs. destruct (H s Hs) as [H1 H2].
  destruct (c s) as [s' [x| |e|]]; simpl in *; auto.
Qed.

Lemma negotiated_headers_sent a w c params c' :
  negotiated a w c params = Some c' ->
  c_headers_sent c' = true /\ c_sock c' = c_sock c.
Proof.
  unfold negotiated.
  destruct (new_quality a w params (c_quality c)); [|discriminate].
  destruct (new_delay a w params (c_delay c)); [|discriminate].
  intros [= <-]. split; reflexivity.
Qed.

(** What one step of the request loop does to the records with
    headers_sent true: such a record either was there before the step or
    belongs to the socket the step has just sent the stream header to. *)
Lemma handle_request_step a w r item s :
  snd (handle_request a w r item s) <> Block /\
  exists evs,
    events (fst (handle_request a w r item s)) = (events s ++ evs)%list
    /\ Forall (fun e => is_frame_event e = false) evs
    /\ forall x,
         In x (ep_clients (cur (fst (handle_request a w r item s)))) ->
         c_headers_sent (snd x) = true ->
         In x (ep_clients (cur s))
         \/ In (EvSendHeader (c_sock (snd x)) STREAM_HEADER true) evs.
Proof.
  assert (Hsub : forall (s' : St) (res : Res unit) evs,
             res <> Block ->
             events s' = (events s ++ evs)%list ->
             Forall (fun e => is_frame_event e = false) evs ->
             incl (ep_clients (cur s')) (ep_clients (cur s)) ->
             snd (s', res) <> Block /\
             exists evs0,
               events (fst (s', res)) = (events s ++ evs0)%list
               /\ Forall (fun e => is_frame_event e = false) evs0
               /\ forall x,
                    In x (ep_clients (cur (fst (s', res)))) ->
                    c_headers_sent (snd x) = true ->
                    In x (ep_clients (cur s))
                    \/ In (EvSendHeader (c_sock (snd x)) STREAM_HEADER true) evs0).
  { intros s' res evs Hb He Hf Hi. split; [exact Hb|]. exists evs.
    split; [exact He|]. split; [exact Hf|]. intros x Hx _. left. now apply Hi. }
  assert (Hdel : forall addr (s0 : St) evs,
             events s0 = (events s ++ evs)%list ->
             Forall (fun e => is_frame_event e = false) evs ->
             incl (ep_clients (cur s0)) (ep_clients (cur s)) ->
             exists s' res,
               clients_del addr s0 = (s', res) /\ res <> Block
               /\ events s' = (events s ++ evs)%list
               /\ incl (ep_clients (cur s')) (ep_clients (cur s))).
  { intros addr s0 evs He Hf Hi. unfold clients_del, Dict.del.
    destruct (Dict.mem addr_eqb addr (ep_clients (cur s0))).
    - do 2 eexists. split; [reflexivity|]. split; [discriminate|]. simpl.
      split; [exact He|]. intros x Hx. apply Hi. eapply In_remove; eauto.
    - do 2 eexists. split; [reflexivity|]. split; [discriminate|]. auto. }
  destruct item as [addr c].
  destruct (existsb (Nat.eqb (c_sock c)) r) eqn:Hr.
  2:{ unfold handle_request. rewrite Hr.
      apply (Hsub s (Val tt) []); [discriminate | now rewrite app_nil_r | constructor
                                  | apply incl_refl]. }
  destruct (recv_decode w (c_sock c)) as [data|] eqn:Hd.
  2:{ unfold handle_request, try_except, serve_request, raise. rewrite Hr, Hd.
      destruct (Hdel addr s []) as (s' & res & -> & Hb & He & Hi);
        [now rewrite app_nil_r | constructor | apply incl_refl |].
      now apply (Hsub s' res []). }
  destruct (Py.len data =? 0)%Z eqn:Hl.
  { unfold handle_request, try_except, serve_request, raise. rewrite Hr, Hd, Hl.
    destruct (Hdel addr s []) as (s' & res & -> & Hb & He & Hi);
      [now rewrite app_nil_r | constructor | apply incl_refl |].
    now apply (Hsub s' res []). }
  destruct (wants_index a (GET_RE_findall data)) eqn:Hi.
  { unfold handle_request, try_except, serve_request. rewrite Hr, Hd, Hl, Hi.
    unfold bind, gets, send_str, emit, modify, close, pure, raise. simpl.
    set (page := index_page (ep_last_times (cur s))).
    destruct (Hdel addr (with_event (EvSendPage (c_sock c) page false) s)
                [EvSendPage (c_sock c) page false])
      as (s' & res & -> & Hb & He & Hinc);
      [reflexivity | repeat constructor | apply incl_refl |].
    now apply (Hsub s' res [EvSendPage (c_sock c) page false]);
      [ | | repeat constructor |]. }
  destruct (negotiated a w c (params_of data)) as [c'|] eqn:Hn.
  - assert (Hne : data <> EmptyString).
    { intros ->. discriminate. }
    rewrite (@handle_request_served a w r addr c s data c' Hr Hd Hne Hi Hn). simpl.
    split; [discriminate|].
    destruct (negotiated_headers_sent _ _ _ _ Hn) as [Hh Hs]. rewrite <- Hs.
    eexists. split; [reflexivity|]. split; [repeat constructor|].
    intros x Hx _.
    destruct (send_ok w (sendall a) (c_sock c') STREAM_HEADER).
    + apply In_set in Hx. destruct Hx as [Hx| ->]; [now left | right; now left].
    + rewrite remove_set_same in Hx by apply addr_eqb_eq.
      left. eapply In_remove; eauto.
  - unfold handle_request, try_except, serve_request. rewrite Hr, Hd, Hl, Hi.
    unfold negotiated, params_of in Hn.
    destruct (new_quality a w _ (c_quality c)) as [q|];
      [destruct (new_delay a w _ (c_delay c)) as [d|]; [discriminate|]|];
      unfold raise;
      (destruct (Hdel addr s []) as (s' & res & -> & Hb & He & Hinc);
       [now rewrite app_nil_r | constructor | apply incl_refl |]);
      now apply (Hsub s' res []).
Qed.

Lemma handle_request_hdr a w r item tr0 : inv (hdr_inv tr0) (handle_request a w r item).
Proof.
  apply tri_of_fst. intros s [H1 H2].
  destruct (handle_request_step a w r item s) as (Hb & evs & He & Hf & Hx).
  split; [|exact Hb]. unfold hdr_inv. rewrite He, app_assoc. split.
  - now apply header_first_app.
  - intros x Hin Hh. destruct (Hx x Hin Hh) as [Hold|Hnew].
    + destruct (H2 x Hold Hh) as (d & Hd). exists d. apply in_or_app. now left.
    + exists STREAM_HEADER. apply in_or_app. now right.
Qed.

Ltac hdr_go :=
  repeat first [ apply handle_request_hdr
               | apply tri_lock_release | apply tri_SERVERS_LOCK_release
               | apply tri_clients_del | tri_step ];
  try (intros ? ?; assumption);
  try (intros ? ?; apply hdr_inv_event; [reflexivity | assumption]);
  try (intros ? ?; apply hdr_inv_clients; [intros ?; apply In_remove | assumption]).

Lemma init_channel_hdr a w tr0 : inv (hdr_inv tr0) (init_channel a w).
Proof. unfold inv, init_channel, last_times_set. hdr_go. Qed.

Lemma shutdown_hdr a w tr0 : inv (hdr_inv tr0) (shutdown a w).
Proof. unfold inv, shutdown, close, emit. hdr_go. Qed.

Lemma poll_hdr a w tr0 : inv (hdr_inv tr0) (poll a w).
Proof.
  unfold inv, poll, accept_pending, request_loop, clients_set, emit. hdr_go.
  intros s [H1 H2]. split; [exact H1|]. intros y Hy Hh. simpl in Hy.
  apply In_set in Hy. destruct Hy as [Hy|Hy]; [exact (H2 y Hy Hh)|].
  rewrite Hy in Hh. discriminate.
Qed.

Lemma send_frame_hdr a w R tr0 fd x :
  In x R -> tri (hdr_inv_for R tr0) (hdr_inv_for R tr0) (send_frame a w fd x).
Proof.
  intros Hx. destruct x as [addr c]. unfold send_frame, send, emit, sent_add, clients_set.
  repeat first [ apply tri_clients_del | tri_step ];
    try (intros ? ?; assumption).
  - (* the frame goes out: the header of this receiver is in the trace *)
    intros s [[H1 H2] H3]. destruct (H3 _ Hx) as [Hh (d & Hd)].
    unfold hdr_inv_for, hdr_inv. simpl. rewrite app_assoc.
    split; [split|].
    + apply header_first_snoc; [assumption|]. intros ? ? ? [= <- _ _]. eauto.
    + eapply hdr_ok_mono; [|exact H2]. apply incl_appl, incl_refl.
    + intros y Hy. destruct (H3 y Hy) as [Hhy (d' & Hd')]. split; [assumption|].
      exists d'. apply in_or_app. now left.
  - (* line 228 *)
    intros s [[H1 H2] H3]. split; [split; [exact H1|] | exact H3].
    intros y Hy Hh. simpl in Hy. apply In_set in Hy.
    destruct Hy as [Hy|Hy]; [exact (H2 y Hy Hh)|].
    rewrite Hy. simpl. exact (proj2 (H3 _ Hx)).
  - (* line 232 *)
    intros s [[H1 H2] H3]. split; [split; [exact H1|] | exact H3].
    intros y Hy. apply H2. simpl in Hy. eapply In_remove; eauto.
Qed.

Lemma broadcast_hdr a w im tr0 : inv (hdr_inv tr0) (broadcast a w im).
Proof.
  apply tri_of_fst. intros s H.
  assert (HR : hdr_inv_for (receivers_of a w (ep_clients (cur s))) tr0 s).
  { split; [exact H|]. intros x Hx. unfold receivers_of in Hx.
    apply filter_In in Hx. destruct Hx as [Hx Hr].
    unfold is_receiver in Hr. rewrite !andb_true_iff in Hr.
    destruct Hr as [[Hh _] _]. split; [exact Hh|]. exact (proj2 H x Hx Hh). }
  unfold broadcast, bind, gets, pure, raise, _jpeg_compress, emit, modify, last_times_set,
    lock_release, SERVERS_LOCK_release, return_.
  destruct (receivers_of a w (ep_clients (cur s))) as [|x R] eqn:ER.
  { destruct (ep_lock (cur s)); simpl; [|split; [assumption|discriminate]].
    destruct (SERVERS_LOCK (mach s)); simpl; split; auto; discriminate. }
  destruct (Dict.get String.eqb (channel a) (ep_last_times (cur s))) as [t|];
    [|simpl; split; [assumption|discriminate]].
  cbv beta iota.
  destruct (PrimFloat.ltb (now w - t)%float (min_delay a)).
  { destruct (ep_lock (cur s)); simpl; [|split; [assumption|discriminate]].
    destruct (SERVERS_LOCK (mach s)); simpl; split; auto; discriminate. }
  destruct (max_quality_of (x :: R)) as [q|]; [|simpl; split; [assumption|discriminate]].
  destruct (backend w im q) as [jpeg|].
  2:{ simpl. split; [|discriminate]. now apply hdr_inv_event. }
  unfold bind, pure, modify. cbv beta iota.
  assert (H0 : hdr_inv_for (x :: R) tr0 (with_event (EvEncode q true) s)).
  { destruct HR as [HR1 HR2]. split; [now apply hdr_inv_event|].
    intros y Hy. destruct (HR2 y Hy) as [Hh (d & Hd)]. split; [assumption|].
    exists d. simpl. rewrite app_assoc. apply in_or_app. now left. }
  assert (HL : tri (hdr_inv_for (x :: R) tr0) (hdr_inv_for (x :: R) tr0)
                 (for_each (x :: R)
                    (send_frame a w (frame_data_of (sheaders_of (headers a)) jpeg)))).
  { apply tri_for_each. intros y Hy. now apply send_frame_hdr. }
  specialize (HL _ H0).
  destruct (for_each (x :: R) _ (with_event (EvEncode q true) s)) as [s1 [[]| |e|]];
    simpl; try contradiction; (split; [|discriminate]); try exact (proj1 HL).
Qed.

Lemma body_hdr a w tr0 : inv (hdr_inv tr0) (body a w).
Proof.
  unfold inv, body.
  apply tri_bind; [apply init_channel_hdr|intros _].
  destruct (frame a) as [im|]; [|apply shutdown_hdr].
  apply tri_bind; [apply poll_hdr|intros _]. apply broadcast_hdr.
Qed.

Lemma handle_frame_hdr a w m tr :
  hdr_machine tr m ->
  hdr_machine (tr ++ events_of (handle_frame a w m)) (machine_of (handle_frame a w m)).
Proof.
  intros [H1 H2].
  destruct (handle_frame_cases a w m) as [(s0 & HL & HE & ->)|(E & HQ & _)].
  2:{ split.
      - apply header_first_app; [assumption | now apply quiet_not_frame].
      - rewrite E. intros kv Hkv. eapply hdr_ok_mono; [|exact (H2 kv Hkv)].
        apply incl_appl, incl_refl. }
  unfold machine_of, events_of. simpl.
  pose proof (@enter_entered a w _ s0 HE) as (Em & Ec & Eq). simpl in Em, Ec.
  assert (Hreg : forall kv, In kv (SERVERS (mach s0)) -> hdr_ok tr (snd kv)).
  { intros kv. rewrite Em.
    destruct (Dict.get addr_eqb (local_address a) (SERVERS m)); simpl; [apply H2|].
    intros Hin. apply In_set in Hin. destruct Hin as [Hin| ->]; [now apply H2|].
    intros x []. }
  assert (H0 : hdr_inv tr s0).
  { split.
    - apply header_first_app; [assumption | now apply quiet_not_frame].
    - rewrite Ec. apply hdr_ok_mono with (tr := tr); [apply incl_appl, incl_refl|].
      destruct (Dict.get addr_eqb (local_address a) (SERVERS m)) as [ep|] eqn:G; simpl.
      + apply get_In in G. destruct G as (k & _ & Hin). exact (H2 _ Hin).
      + intros x []. }
  pose proof (proj2 (@tri_fst _ _ _ _ _ (@body_hdr a w tr) H0)) as [HF HO].
  split; [exact HF|].
  apply store_forall.
  - intros kv Hin. simpl in Hin.
    pose proof (@body_reg_incl a w (SERVERS (mach s0))) as HR.
    apply (proj2 (@tri_fst _ _ _ _ _ HR (incl_refl _))) in Hin.
    eapply hdr_ok_mono; [|exact (Hreg kv Hin)]. apply incl_appl, incl_refl.
  - exact HO.
Qed.

Lemma run_hdr calls :
  forall m tr,
    hdr_machine tr m ->
    hdr_machine (tr ++ snd (run calls m)) (fst (run calls m)).
Proof.
  induction calls as [|[a w] calls IH]; intros m tr H; simpl.
  - now rewrite app_nil_r.
  - pose proof (@handle_frame_hdr a w m tr H) as H1.
    unfold machine_of, events_of in H1.
    destruct (handle_frame a w m) as [[m1 evs] o]. simpl in H1.
    specialize (IH m1 _ H1).
    destruct (run calls m1) as [m2 evs']. simpl in *.
    now rewrite app_assoc.
Qed.

Lemma run_wf calls : forall m, wf_machine m -> wf_machine (fst (run calls m)).
Proof.
  induction calls as [|[a w] calls IH]; intros m H; simpl; [exact H|].
  pose proof (@handle_frame_wf a w m H) as H1. unfold machine_of in H1.
  destruct (handle_frame a w m) as [[m1 evs] o]. simpl in H1.
  specialize (IH m1 H1). now destruct (run calls m1).
Qed.

Lemma accept_pending_new a w s remote :
  select_server w = Some true ->
  accept w = Some remote ->
  exists s',
    accept_pending a w s = (s', Val tt)
    /\ Dict.get addr_eqb remote (ep_clients (cur s'))
       = Some (mkClient (next_sock (mach s)) (default_chan a) (default_quality a)
                        (default_delay a) 0%float false).
Proof.
  intros H1 H2. unfold accept_pending. rewrite H1, H2.
  unfold bind, gets, modify, emit, clients_set. simpl.
  eexists. split; [reflexivity|]. simpl. apply get_set_same, addr_eqb_refl.
Qed.

(* ================================================================== *)
(** ** The claims *)

(** C9.  handle_frame is total toward its caller.  Whatever the arguments
    and whatever the surroundings answer (accept, recv, parsing, encoding
    and sending may all fail), no exception leaves the call; and when no
    lock of the module is held at the call, it returns a pair
    (client addresses, bytes sent) and no lock is held afterwards. *)
Theorem handle_frame_total (a : Args) (w : World) (m : Machine) :
  (forall e, snd (handle_frame a w m) <> Raised e) /\
  (locks_free m ->
   exists m' evs r n,
     handle_frame a w m = (m', evs, Returned r n) /\ locks_free m').
Proof.
  unfold handle_frame.
  destruct (SERVERS_LOCK m) eqn:HL.
  { split; [intros e; simpl; discriminate | intros [H _]; congruence]. }
  pose proof (@enter_spec a w (set_SERVERS_LOCK true m) eq_refl) as HE.
  destruct (enter a w (set_SERVERS_LOCK true m)) as [s|m' evs e|m' evs].
  - destruct HE as (Hh & _ & _ & _ & Hreg).
    pose proof (@body_locks a w s Hh) as HB.
    pose proof (@body_reg_incl a w (SERVERS (mach s)) s (incl_refl _)) as HR.
    destruct (body a w s) as [s' [[]| |e|]]; try contradiction.
    + rewrite (epilogue_held HB). simpl. split; [discriminate|].
      intros [_ HF]. do 4 eexists. split; [reflexivity|].
      apply store_locks_free; [split; reflexivity|].
      intros kv Hin. simpl in Hin. apply HR in Hin.
      destruct (Hreg _ Hin) as [H|H]; auto.
      destruct kv as [k ep]. exact (HF _ _ H).
    + simpl. split; [discriminate|].
      intros [_ HF]. do 4 eexists. split; [reflexivity|].
      apply store_locks_free; [exact HB|].
      intros kv Hin. apply HR in Hin.
      destruct (Hreg _ Hin) as [H|H]; auto.
      destruct kv as [k ep]. exact (HF _ _ H).
    + rewrite (epilogue_held HB). simpl. split; [discriminate|].
      intros [_ HF]. do 4 eexists. split; [reflexivity|].
      apply store_locks_free; [split; reflexivity|].
      intros kv Hin. simpl in Hin. apply HR in Hin.
      destruct (Hreg _ Hin) as [H|H]; auto.
      destruct kv as [k ep]. exact (HF _ _ H).
  - destruct HE as [H1 H2]. rewrite H1. simpl. split; [discriminate|].
    intros [_ HF]. do 4 eexists. split; [reflexivity|].
    split; simpl; auto. rewrite H2. exact HF.
  - destruct HE as (ep & G & E). simpl. split; [discriminate|].
    intros [_ HF]. apply get_In in G. destruct G as (k & _ & Hin).
    simpl in Hin. rewrite (HF _ _ Hin) in E. discriminate.
Qed.

(** A call on the freshly imported module, where a connection is pending
    and the locks are free. *)
Lemma handle_frame_total_witness :
  locks_free boot /\
  exists m' evs r n,
    handle_frame (Sample.args Sample.frame0) (Sample.connecting 100) boot
    = (m', evs, Returned r n) /\ locks_free m'.
Proof.
  assert (H : locks_free boot) by (split; [reflexivity | intros k ep []]).
  split; [exact H|].
  exact (proj2 (handle_frame_total (Sample.args Sample.frame0) (Sample.connecting 100) boot) H).
Defined.





(** C2, as the code has it.  No call invokes the encoder more than once.
    A call that sends a frame chunk invokes it exactly once, successfully,
    at the largest quality among the receivers of line 204, and hands to
    every receiver, in order, the one chunk built from the encoder's
    answer.  A call that does not reach line 210 (shutdown, early return,
    exception, no receiver, rate limit) does not invoke the encoder. *)
Theorem one_encode_per_round (a : Args) (w : World) (m : Machine) :
  wf_machine m ->
  let evs := events_of (handle_frame a w m) in
  (List.length (filter is_encode_event evs) <= 1)%nat
  /\ (sends_frame evs ->
      exists im sb q jpeg,
        frame a = Some im
        /\ at_broadcast a w m = Some sb
        /\ max_quality_of (receivers_of a w (ep_clients (cur sb))) = Some q
        /\ (exists x, In x (receivers_of a w (ep_clients (cur sb)))
                      /\ c_quality (snd x) = q)
        /\ (forall x, In x (receivers_of a w (ep_clients (cur sb))) ->
              (c_quality (snd x) <= q)%Z)
        /\ backend w im q = Some jpeg
        /\ filter is_encode_event evs = [EvEncode q true]
        /\ filter is_frame_event evs
           = map (frame_event a w (frame_data_of (sheaders_of (headers a)) jpeg))
               (receivers_of a w (ep_clients (cur sb))))
  /\ (frame a = None \/ at_broadcast a w m = None
      \/ (exists sb, at_broadcast a w m = Some sb /\ skips a w sb) ->
      filter is_encode_event evs = []).
Proof.
  intros Hwf evs. subst evs.
  assert (HQ : frame a = None \/ at_broadcast a w m = None ->
               filter is_encode_event (events_of (handle_frame a w m)) = []
               /\ filter is_frame_event (events_of (handle_frame a w m)) = []).
  { intros H. apply no_round_quiet in H.
    split; [now apply quiet_filter_encode | now apply quiet_filter_frame]. }
  destruct (frame a) as [im|] eqn:HF.
  2:{ destruct HQ as [E1 E2]; [now left|]. rewrite E1. simpl.
      split; [lia|]. split; [|reflexivity].
      intros H. apply sends_frame_filter in H. congruence. }
  destruct (at_broadcast a w m) as [sb|] eqn:HB.
  2:{ destruct HQ as [E1 E2]; [now right|]. rewrite E1. simpl.
      split; [lia|]. split; [|reflexivity].
      intros H. apply sends_frame_filter in H. congruence. }
  clear HQ.
  destruct (at_broadcast_facts _ _ _ HB) as (Hh & HQ & Hm & _ & Ht & Hd).
  destruct (skips_dec a w sb Ht) as [Hk|[HR Hlt]].
  { rewrite (@round_skip a w m im sb HF HB Hk). unfold events_of. simpl.
    rewrite (quiet_filter_encode HQ). simpl.
    split; [lia|]. split; [|reflexivity].
    intros H. apply sends_frame_filter in H. rewrite (quiet_filter_frame HQ) in H.
    congruence. }
  destruct (@round_go a w m im sb HF HB HR Hlt) as (q & Eq & Hb).
  assert (Hnk : ~ skips a w sb).
  { intros [Hk|(t & Ht' & Hk)]; [contradiction|]. congruence. }
  destruct (backend w im q) as [jpeg|] eqn:Eb.
  - destruct (Hb Hwf) as (s' & E & _). rewrite E. unfold events_of. simpl.
    rewrite !filter_app. simpl.
    rewrite (quiet_filter_encode HQ), (quiet_filter_frame HQ).
    rewrite filter_encode_frame_events, filter_frame_events. simpl.
    split; [lia|]. split.
    + intros _. exists im, sb, q, jpeg.
      pose proof Eq as Eq'. unfold max_quality_of in Eq'.
      apply max_list_spec in Eq'. destruct Eq' as [H1 H2].
      apply in_map_iff in H1. destruct H1 as (x & H1 & Hx).
      repeat split; auto.
      * exists x. split; assumption.
      * intros y Hy. apply H2.
        apply (in_map (fun item : Addr * Client => c_quality (snd item))). exact Hy.
    + intros [H|[H|(sb' & H & Hk)]]; try discriminate.
      injection H as <-. contradiction.
  - rewrite Hb. unfold events_of. simpl.
    rewrite !filter_app. simpl.
    rewrite (quiet_filter_encode HQ), (quiet_filter_frame HQ). simpl.
    split; [lia|]. split.
    + intros H. apply sends_frame_filter in H. unfold events_of in H. simpl in H.
      rewrite filter_app in H. simpl in H.
      rewrite (quiet_filter_frame HQ) in H. simpl in H. congruence.
    + intros [H|[H|(sb' & H & Hk)]]; try discriminate.
      injection H as <-. contradiction.
Qed.

Lemma one_encode_per_round_witness :
  let a := Sample.args Sample.frame0 in
  let w := Sample.quiet 100.030 in
  let evs := events_of (handle_frame a w Sample.streaming) in
  wf_machine Sample.streaming
  /\ sends_frame evs
  /\ exists im sb q jpeg,
        frame a = Some im
        /\ at_broadcast a w Sample.streaming = Some sb
        /\ max_quality_of (receivers_of a w (ep_clients (cur sb))) = Some q
        /\ (exists x, In x (receivers_of a w (ep_clients (cur sb)))
                      /\ c_quality (snd x) = q)
        /\ (forall x, In x (receivers_of a w (ep_clients (cur sb))) ->
              (c_quality (snd x) <= q)%Z)
        /\ backend w im q = Some jpeg
        /\ filter is_encode_event evs = [EvEncode q true]
        /\ filter is_frame_event evs
           = map (frame_event a w (frame_data_of (sheaders_of (headers a)) jpeg))
               (receivers_of a w (ep_clients (cur sb))).
Proof.
  intros a w evs.
  assert (H : wf_machine Sample.streaming) by reflexivity.
  assert (Hs : sends_frame evs).
  { exists 1%nat. eexists. exists true. vm_compute. right. left. reflexivity. }
  split; [exact H|]. split; [exact Hs|].
  exact (proj1 (proj2 (@one_encode_per_round a w Sample.streaming H)) Hs).
Defined.

(** The encoder raises: it was invoked once, and the call sends no frame,
    neither successfully nor in vain. *)
Lemma encode_without_frame :
  let evs := events_of (handle_frame (Sample.args Sample.frame0) (Sample.no_backend 100.030)
                          Sample.streaming) in
  filter is_frame_event evs = []
  /\ filter is_encode_event evs = [EvEncode 50 false].
Proof. vm_compute. split; reflexivity. Qed.




(** C3, as the code has it.  For a stored client whose request is read,
    is not for the index page, and whose quality and delay parameters int()
    and float() accept, and to whom the stream header is then sent: the
    stored record keeps its socket and last_sent; its quality is
    min(max_quality, q) for a quality parameter q and min(max_quality,
    stored quality) without one; its delay is max(min_delay, d * 1e-3) for
    a delay parameter d and is in no case below min_delay; its channel is
    the channel parameter, else the source parameter, else the stored
    channel. *)
Theorem renegotiation (a : Args) (w : World) (r : list Sock)
        (addr : Addr) (c : Client) (s : St) (data : string) :
  Dict.get addr_eqb addr (ep_clients (cur s)) = Some c ->
  existsb (Nat.eqb (c_sock c)) r = true ->
  recv_decode w (c_sock c) = Some data ->
  data <> EmptyString ->
  wants_index a (GET_RE_findall data) = false ->
  (forall v, Dict.get String.eqb "quality" (params_of data) = Some v -> py_int w v <> None) ->
  (forall v, Dict.get String.eqb "delay" (params_of data) = Some v -> py_float w v <> None) ->
  send_ok w (sendall a) (c_sock c) STREAM_HEADER = true ->
  exists s' c',
    handle_request a w r (addr, c) s = (s', Val tt)
    /\ Dict.get addr_eqb addr (ep_clients (cur s')) = Some c'
    /\ c_sock c' = c_sock c
    /\ c_last_sent c' = c_last_sent c
    /\ (forall v q, Dict.get String.eqb "quality" (params_of data) = Some v ->
                    py_int w v = Some q ->
                    c_quality c' = Z.min (max_quality a) q)
    /\ (Dict.get String.eqb "quality" (params_of data) = None ->
        c_quality c' = Z.min (max_quality a) (c_quality c))
    /\ (forall v d, Dict.get String.eqb "delay" (params_of data) = Some v ->
                    py_float w v = Some d ->
                    c_delay c' = Py.max (min_delay a) (d * 1e-3)%float)
    /\ PrimFloat.ltb (c_delay c') (min_delay a) = false
    /\ c_chan c' =
       match Dict.get String.eqb "channel" (params_of data) with
       | Some ch => Some ch
       | None =>
           match Dict.get String.eqb "source" (params_of data) with
           | Some ch => Some ch
           | None => c_chan c
           end
       end.
Proof.
  intros Hg Hr Hd Hne Hi Hq Hdl Hs.
  destruct (negotiated a w c (params_of data)) as [c'|] eqn:Hn.
  2:{ exfalso. unfold negotiated, new_quality, new_delay in Hn.
      destruct (Dict.get String.eqb "quality" (params_of data)) as [v|].
      - specialize (Hq v eq_refl). destruct (py_int w v); [simpl in Hn|congruence].
        destruct (Dict.get String.eqb "delay" (params_of data)) as [v'|]; [|discriminate].
        specialize (Hdl v' eq_refl). destruct (py_float w v'); [discriminate|congruence].
      - destruct (Dict.get String.eqb "delay" (params_of data)) as [v'|]; [|discriminate].
        specialize (Hdl v' eq_refl). destruct (py_float w v'); [discriminate|congruence]. }
  rewrite (@handle_request_served a w r addr c s data c' Hr Hd Hne Hi Hn). rewrite Hs.
  eexists. exists c'. split; [reflexivity|]. simpl.
  split; [apply get_set_same, addr_eqb_refl|].
  unfold negotiated, new_quality, new_delay in Hn.
  destruct (Dict.get String.eqb "quality" (params_of data)) as [vq|] eqn:Gq;
    destruct (Dict.get String.eqb "delay" (params_of data)) as [vd|] eqn:Gd;
    try (destruct (py_int w vq) as [q|] eqn:Eq; [|discriminate]);
    try (destruct (py_float w vd) as [d|] eqn:Ed; [|discriminate]);
    simpl in Hn; injection Hn as <-; simpl;
    repeat split; auto using max_not_below; try congruence; try discriminate.
Qed.

Lemma renegotiation_witness :
  let a := Sample.args Sample.frame0 in
  let w := Sample.talking 100.060 "GET /?source=7&quality=99&delay=500 HTTP/1.1" in
  exists s' c',
    handle_request a w [1%nat] (Sample.peer, Sample.viewer) Sample.in_loop = (s', Val tt)
    /\ Dict.get addr_eqb Sample.peer (ep_clients (cur s')) = Some c'
    /\ c_quality c' = 95%Z
    /\ c_delay c' = 0.5%float
    /\ c_chan c' = Some "7".
Proof.
  intros a w.
  destruct (@renegotiation a w [1%nat] Sample.peer Sample.viewer Sample.in_loop
              "GET /?source=7&quality=99&delay=500 HTTP/1.1")
    as (s' & c' & E & G & _ & _ & Hq & _ & Hd & _ & Hc);
    try reflexivity; try discriminate.
  - intros v. vm_compute. intros [= <-]. discriminate.
  - intros v. vm_compute. intros [= <-]. discriminate.
  - exists s', c'. split; [exact E|]. split; [exact G|].
    split; [exact (Hq "99" 99%Z eq_refl eq_refl)|].
    split; [rewrite (Hd "500" 500%float eq_refl eq_refl); reflexivity|].
    exact Hc.
Defined.

(** A request without quality and delay, under max_quality=40, on a client
    that had negotiated quality 50 and 20 ms: the stored quality is clamped
    to 40 and the stored delay becomes min_delay. *)
Lemma renegotiation_changes_absent :
  let data := "GET /?channel=0 HTTP/1.1" in
  let m' := machine_of (handle_frame (Sample.args40 Sample.frame0)
                          (Sample.talking 100.060 data) Sample.streaming) in
  Dict.get String.eqb "quality" (params_of data) = None
  /\ Dict.get String.eqb "delay" (params_of data) = None
  /\ option_map (fun ep => Dict.get addr_eqb Sample.peer (ep_clients ep))
       (Dict.get addr_eqb Sample.la (SERVERS Sample.streaming))
     = Some (Some (mkClient 1 (Some "0") 50 0.02%float 100.005%float true))
  /\ option_map (fun ep => Dict.get addr_eqb Sample.peer (ep_clients ep))
       (Dict.get addr_eqb Sample.la (SERVERS m'))
     = Some (Some (mkClient 1 (Some "0") 40 0.01%float 100.060%float true)).
Proof. vm_compute. repeat split; reflexivity. Qed.

(** C4, as the code has it.  A stored client that already has
    headers_sent true and sends a further request (read, not for the index
    page, parameters accepted) is re-negotiated, and the stream header is
    sent to it again: line 198 does not look at headers_sent.  The header
    counts in the bytes sent when the send succeeds; when it raises, the
    record is removed. *)
Theorem header_sent_on_every_request (a : Args) (w : World) (r : list Sock)
        (addr : Addr) (c : Client) (s : St) (data : string) (c' : Client) :
  Dict.get addr_eqb addr (ep_clients (cur s)) = Some c ->
  c_headers_sent c = true ->
  existsb (Nat.eqb (c_sock c)) r = true ->
  recv_decode w (c_sock c) = Some data ->
  data <> EmptyString ->
  wants_index a (GET_RE_findall data) = false ->
  negotiated a w c (params_of data) = Some c' ->
  exists s',
    handle_request a w r (addr, c) s = (s', Val tt)
    /\ events s' =
       (events s ++ [EvSendHeader (c_sock c) STREAM_HEADER
                       (send_ok w (sendall a) (c_sock c) STREAM_HEADER)])%list
    /\ (send_ok w (sendall a) (c_sock c) STREAM_HEADER = true ->
        Dict.get addr_eqb addr (ep_clients (cur s')) = Some c'
        /\ sent s' = (sent s + Py.len STREAM_HEADER)%Z)
    /\ (send_ok w (sendall a) (c_sock c) STREAM_HEADER = false ->
        ep_clients (cur s') = Dict.remove addr_eqb addr
                                (Dict.set addr_eqb addr c' (ep_clients (cur s)))
        /\ sent s' = sent s).
Proof.
  intros Hg Hh Hr Hd Hne Hi Hn.
  rewrite (@handle_request_served a w r addr c s data c' Hr Hd Hne Hi Hn).
  eexists. split; [reflexivity|]. simpl. split; [reflexivity|].
  split; intros ->; simpl; split; auto.
  apply get_set_same, addr_eqb_refl.
Qed.

Lemma header_sent_on_every_request_witness :
  let a := Sample.args Sample.frame0 in
  let w := Sample.talking 100.060 "GET /?quality=70 HTTP/1.1" in
  c_headers_sent Sample.viewer = true
  /\ exists s',
       handle_request a w [1%nat] (Sample.peer, Sample.viewer) Sample.in_loop = (s', Val tt)
       /\ events s' = [EvSendHeader 1 STREAM_HEADER true]
       /\ Dict.get addr_eqb Sample.peer (ep_clients (cur s'))
          = Some (mkClient 1 (Some "0") 70 0.01%float 100.005%float true).
Proof.
  intros a w. split; [reflexivity|].
  destruct (@header_sent_on_every_request a w [1%nat] Sample.peer Sample.viewer Sample.in_loop
              "GET /?quality=70 HTTP/1.1"
              (mkClient 1 (Some "0") 70 0.01%float 100.005%float true))
    as (s' & E & Ev & Hok & _); try reflexivity; try discriminate.
  exists s'. split; [exact E|]. split; [exact Ev|]. exact (proj1 (Hok eq_refl)).
Defined.

(** A client that is streaming (headers_sent true) sends a second
    request, and the stream header goes out to it a second time. *)
Lemma header_is_resent :
  let evs := events_of (handle_frame (Sample.args Sample.frame0)
                          (Sample.talking 100.060 "GET /?quality=70 HTTP/1.1")
                          Sample.streaming) in
  option_map (fun ep => option_map c_headers_sent
                          (Dict.get addr_eqb Sample.peer (ep_clients ep)))
    (Dict.get addr_eqb Sample.la (SERVERS Sample.streaming))
  = Some (Some true)
  /\ In (EvSendHeader 1 STREAM_HEADER true) evs.
Proof. vm_compute. split; [reflexivity | now left]. Qed.

(** C8, as the code has it.  For a stored client whose socket has pending
    data, a read or decoding that raises, an empty read, or (outside the
    index page) a quality or delay parameter that int() or float() rejects
    removes the record and sends nothing.  A buffer that is not empty and
    in which no GET line is found is no error in itself: with acceptable
    parameters, or none, the client is served like any other, its record
    is stored with headers_sent true and the stream header is sent. *)
Theorem protocol_error_drops (a : Args) (w : World) (r : list Sock)
        (addr : Addr) (c : Client) (s : St) :
  Dict.get addr_eqb addr (ep_clients (cur s)) = Some c ->
  existsb (Nat.eqb (c_sock c)) r = true ->
  (protocol_error a w c ->
   exists s',
     handle_request a w r (addr, c) s = (s', Val tt)
     /\ ep_clients (cur s') = Dict.remove addr_eqb addr (ep_clients (cur s))
     /\ events s' = events s
     /\ sent s' = sent s)
  /\ (forall data c',
        recv_decode w (c_sock c) = Some data ->
        data <> EmptyString ->
        GET_RE_findall data = [] ->
        negotiated a w c (params_of data) = Some c' ->
        exists s',
          handle_request a w r (addr, c) s = (s', Val tt)
          /\ events s' =
             (events s ++ [EvSendHeader (c_sock c) STREAM_HEADER
                             (send_ok w (sendall a) (c_sock c) STREAM_HEADER)])%list
          /\ c_headers_sent c' = true
          /\ (send_ok w (sendall a) (c_sock c) STREAM_HEADER = true ->
              Dict.get addr_eqb addr (ep_clients (cur s')) = Some c')).
Proof.
  intros Hg Hr. split.
  - intros Hp.
    assert (Hm : Dict.mem addr_eqb addr (ep_clients (cur s)) = true)
      by (unfold Dict.mem; now rewrite Hg).
    rewrite (@handle_request_dropped a w r addr c s Hr Hm Hp).
    eexists. split; [reflexivity|]. simpl. auto.
  - intros data c' Hd Hne Hget Hn.
    assert (Hi : wants_index a (GET_RE_findall data) = false) by (now rewrite Hget).
    rewrite (@handle_request_served a w r addr c s data c' Hr Hd Hne Hi Hn).
    eexists. split; [reflexivity|]. simpl. split; [reflexivity|]. split.
    + unfold negotiated in Hn.
      destruct (new_quality a w (params_of data) (c_quality c)); [|discriminate].
      destruct (new_delay a w (params_of data) (c_delay c)); [|discriminate].
      now injection Hn as <-.
    + intros ->. apply get_set_same, addr_eqb_refl.
Qed.

Lemma protocol_error_drops_witness :
  let a := Sample.args Sample.frame0 in
  let w := Sample.talking 100.060 "GET /?quality=best HTTP/1.1" in
  protocol_error a w Sample.viewer
  /\ exists s',
       handle_request a w [1%nat] (Sample.peer, Sample.viewer) Sample.in_loop = (s', Val tt)
       /\ ep_clients (cur s') = []
       /\ events s' = []
       /\ sent s' = 0%Z.
Proof.
  intros a w.
  assert (Hp : protocol_error a w Sample.viewer).
  { vm_compute. right. split; reflexivity. }
  split; [exact Hp|].
  exact (proj1 (@protocol_error_drops a w [1%nat] Sample.peer Sample.viewer Sample.in_loop
                  eq_refl eq_refl) Hp).
Defined.

(** A client whose first bytes are no request at all: nothing is parsed
    from them, and the client is not dropped but sent the stream header
    and kept, with headers_sent true. *)
Lemma unparsable_is_served :
  let m := fst (run [(Sample.args Sample.frame0, Sample.connecting 100)] boot) in
  let r := handle_frame (Sample.args Sample.frame0) (Sample.talking 100.002 "hello") m in
  GET_RE_findall "hello" = []
  /\ PARAM_RE_findall "hello" = []
  /\ events_of r = [EvSendHeader 1 STREAM_HEADER true]
  /\ option_map (fun ep => option_map c_headers_sent
                             (Dict.get addr_eqb Sample.peer (ep_clients ep)))
       (Dict.get addr_eqb Sample.la (SERVERS (machine_of r)))
     = Some (Some true).
Proof. vm_compute. repeat split; reflexivity. Qed.

(** C6, as the code has it.  When the endpoint of an unseen (ip, port)
    cannot be created (socket, setsockopt, bind or listen raises), the
    exception is caught by the except clause of line 234: the call returns
    an empty address list and zero bytes, SERVERS_LOCK is released, and
    the registry is as before, with no entry for that (ip, port). *)
Theorem bind_failure_is_caught (a : Args) (w : World) (m : Machine) :
  SERVERS_LOCK m = false ->
  Dict.get addr_eqb (local_address a) (SERVERS m) = None ->
  creates a w = false ->
  exists m' evs,
    handle_frame a w m = (m', evs, Returned [] 0)
    /\ SERVERS m' = SERVERS m
    /\ Dict.get addr_eqb (local_address a) (SERVERS m') = None
    /\ SERVERS_LOCK m' = false.
Proof.
  intros HL HG HC. unfold handle_frame, creates in *. rewrite HL.
  unfold enter. simpl. rewrite HG.
  destruct (socket_ok w); simpl in *.
  2:{ do 2 eexists. repeat split; auto. }
  destruct (setsockopt_ok w); simpl in *.
  2:{ do 2 eexists. repeat split; auto. }
  destruct (bind_ok w (local_address a)); simpl in *.
  2:{ do 2 eexists. repeat split; auto. }
  destruct (listen_ok w); simpl in *; [discriminate|].
  do 2 eexists. repeat split; auto.
Qed.

Lemma bind_failure_is_caught_witness :
  let a := Sample.args Sample.frame0 in
  let w := Sample.bind_refused 100 in
  creates a w = false
  /\ exists m' evs,
       handle_frame a w boot = (m', evs, Returned [] 0)
       /\ SERVERS m' = SERVERS boot
       /\ Dict.get addr_eqb (local_address a) (SERVERS m') = None
       /\ SERVERS_LOCK m' = false.
Proof.
  intros a w. split; [reflexivity|].
  exact (@bind_failure_is_caught a w boot eq_refl eq_refl eq_refl).
Defined.

(** bind raises on the first call for a port, and the caller gets an
    ordinary return value: nothing propagates. *)
Lemma bind_failure_returns :
  let r := handle_frame (Sample.args Sample.frame0) (Sample.bind_refused 100) boot in
  In (EvBind 0 Sample.la false) (events_of r)
  /\ outcome_of r = Returned [] 0
  /\ forall e, outcome_of r <> Raised e.
Proof.
  vm_compute. split; [right; now left|]. split; [reflexivity | discriminate].
Qed.

(** C7, as the code has it.  A shutdown call for an (ip, port) that has
    no endpoint (as after a shutdown call that removed it) does not raise
    and returns an empty list and zero bytes with SERVERS_LOCK released.
    It does not short-circuit: when the system lets it, the call creates,
    binds and listens on a new socket, registers an endpoint for it,
    closes the socket and removes the endpoint again; the registry is then
    as before.  (It is as before as well when the creation fails.) *)
Theorem second_shutdown (a : Args) (w : World) (m : Machine) :
  frame a = None ->
  SERVERS_LOCK m = false ->
  Dict.get addr_eqb (local_address a) (SERVERS m) = None ->
  exists m' evs,
    handle_frame a w m = (m', evs, Returned [] 0)
    /\ SERVERS_LOCK m' = false
    /\ (creates a w = true ->
        evs = [EvSocket (next_sock m);
               EvBind (next_sock m) (local_address a) true;
               EvListen (next_sock m) true;
               EvClose (next_sock m) (close_ok w (next_sock m))])
    /\ (creates a w = false \/ close_ok w (next_sock m) = true -> SERVERS m' = SERVERS m).
Proof.
  intros HF HL HG. unfold handle_frame, creates. rewrite HL.
  unfold enter. simpl. rewrite HG.
  destruct (socket_ok w); simpl.
  2:{ do 2 eexists. repeat split; auto. discriminate. }
  destruct (setsockopt_ok w); simpl.
  2:{ do 2 eexists. repeat split; auto. discriminate. }
  destruct (bind_ok w (local_address a)); simpl.
  2:{ do 2 eexists. repeat split; auto. discriminate. }
  destruct (listen_ok w); simpl.
  2:{ do 2 eexists. repeat split; auto. discriminate. }
  unfold body. rewrite HF.
  unfold init_channel, shutdown, last_times_set, close, emit, bind, gets, modify, pure, raise,
    lock_release, SERVERS_LOCK_release, return_, epilogue, finish. simpl.
  destruct (close_ok w (next_sock m)) eqn:HC; simpl.
  - do 2 eexists. split; [reflexivity|].
    unfold store. simpl.
    rewrite remove_set_absent by (auto using addr_eqb_eq).
    unfold Dict.mem. rewrite HG. simpl.
    repeat split; auto.
  - unfold bind, lock_release, SERVERS_LOCK_release. simpl.
    do 2 eexists. split; [reflexivity|].
    unfold store. simpl. rewrite mem_set_same by apply addr_eqb_refl. simpl.
    repeat split; auto. intros [H|H]; discriminate.
Qed.

Lemma second_shutdown_witness :
  let a := Sample.args None in
  let w := Sample.quiet 101 in
  let m := fst (run [(Sample.args None, Sample.quiet 100)] boot) in
  Dict.get addr_eqb (local_address a) (SERVERS m) = None
  /\ exists m' evs,
       handle_frame a w m = (m', evs, Returned [] 0)
       /\ SERVERS_LOCK m' = false
       /\ (creates a w = true ->
           evs = [EvSocket (next_sock m);
                  EvBind (next_sock m) (local_address a) true;
                  EvListen (next_sock m) true;
                  EvClose (next_sock m) (close_ok w (next_sock m))])
       /\ (creates a w = false \/ close_ok w (next_sock m) = true -> SERVERS m' = SERVERS m).
Proof.
  intros a w m. split; [reflexivity|].
  exact (@second_shutdown a w m eq_refl eq_refl eq_refl).
Defined.

(** Two shutdown calls in a row for the same (ip, port): the second one
    binds and listens on a socket of its own. *)
Lemma second_shutdown_listens :
  let m1 := machine_of (handle_frame (Sample.args None) (Sample.quiet 100) boot) in
  let r2 := handle_frame (Sample.args None) (Sample.quiet 101) m1 in
  Dict.get addr_eqb Sample.la (SERVERS m1) = None
  /\ events_of r2
     = [EvSocket 1; EvBind 1 Sample.la true; EvListen 1 true; EvClose 1 true]
  /\ next_sock (machine_of r2) <> next_sock m1.
Proof. vm_compute. repeat split; try reflexivity. discriminate. Qed.

(** C10.  On every connection the stream header precedes any frame
    chunk: in the events of any sequence of calls on the freshly imported
    module, each frame chunk handed to a socket comes after a stream header
    that was sent to that socket.  The three steps behind it: a record
    created by accept has headers_sent false; after a request-handling
    step, a record with headers_sent true either was there before the step
    or belongs to the socket the step has just sent the stream header to;
    and a frame chunk goes only to the socket of a client that has
    headers_sent true at line 204 (and the channel of the call, and its
    delay elapsed). *)
Theorem header_precedes_frames (calls : list Call) :
  header_first (snd (run calls boot))
  /\ (forall a w s remote,
        select_server w = Some true ->
        accept w = Some remote ->
        exists s' c,
          accept_pending a w s = (s', Val tt)
          /\ Dict.get addr_eqb remote (ep_clients (cur s')) = Some c
          /\ c_headers_sent c = false)
  /\ (forall a w r item s,
        exists evs,
          events (fst (handle_request a w r item s)) = (events s ++ evs)%list
          /\ forall x,
               In x (ep_clients (cur (fst (handle_request a w r item s)))) ->
               c_headers_sent (snd x) = true ->
               In x (ep_clients (cur s))
               \/ In (EvSendHeader (c_sock (snd x)) STREAM_HEADER true) evs)
  /\ (forall a w s d ok,
        In (EvSendFrame s d ok)
           (events_of (handle_frame a w (fst (run calls boot)))) ->
        exists sb addr c,
          at_broadcast a w (fst (run calls boot)) = Some sb
          /\ In (addr, c) (ep_clients (cur sb))
          /\ c_sock c = s
          /\ c_headers_sent c = true
          /\ c_chan c = Some (channel a)
          /\ PrimFloat.leb (c_delay c) (now w - c_last_sent c)%float = true).
Proof.
  split; [|split; [|split]].
  - assert (H : hdr_machine [] boot).
    { split; [|intros kv []]. intros pre s d ok post E. destruct pre; discriminate. }
    exact (proj1 (run_hdr calls H)).
  - intros a w s remote H1 H2.
    destruct (@accept_pending_new a w s remote H1 H2) as (s' & E & G).
    exists s'. eexists. split; [exact E|]. split; [exact G | reflexivity].
  - intros a w r item s.
    destruct (handle_request_step a w r item s) as (_ & evs & He & _ & Hx).
    exists evs. split; assumption.
  - intros a w s d ok Hin.
    set (m := fst (run calls boot)) in *.
    assert (Hwf : wf_machine m) by (apply run_wf; reflexivity).
    assert (HnQ : ~ Forall quiet_event (events_of (handle_frame a w m))).
    { intros H. rewrite Forall_forall in H. exact (H _ Hin). }
    destruct (frame a) as [im|] eqn:HF.
    2:{ exfalso. apply HnQ, no_round_quiet. now left. }
    destruct (at_broadcast a w m) as [sb|] eqn:HB.
    2:{ exfalso. apply HnQ, no_round_quiet. now right. }
    destruct (at_broadcast_facts _ _ _ HB) as (Hh & HQ & Hm & _ & Ht & Hd).
    destruct (skips_dec a w sb Ht) as [Hk|[HR Hlt]].
    { exfalso. apply HnQ. now rewrite (@round_skip a w m im sb HF HB Hk). }
    destruct (@round_go a w m im sb HF HB HR Hlt) as (q & _ & Hb).
    rewrite Forall_forall in HQ.
    assert (Hx : exists x, In x (receivers_of a w (ep_clients (cur sb)))
                           /\ c_sock (snd x) = s).
    { destruct (backend w im q) as [jpeg|].
      - destruct (Hb Hwf) as (s' & E & _). rewrite E in Hin.
        unfold events_of in Hin. simpl in Hin.
        apply in_app_or in Hin. destruct Hin as [Hin|[Hin|Hin]].
        + exfalso. exact (HQ _ Hin).
        + discriminate.
        + apply in_map_iff in Hin. destruct Hin as (x & Ex & Hx).
          exists x. split; [exact Hx|]. now injection Ex.
      - rewrite Hb in Hin. unfold events_of in Hin. simpl in Hin.
        apply in_app_or in Hin. destruct Hin as [Hin|[Hin|[]]].
        + exfalso. exact (HQ _ Hin).
        + discriminate. }
    destruct Hx as ([addr c] & Hx & Hs). simpl in Hs.
    unfold receivers_of in Hx. apply filter_In in Hx. destruct Hx as [Hx Hr].
    simpl in Hr. unfold is_receiver in Hr. rewrite !andb_true_iff in Hr.
    destruct Hr as [[H1 H2] H3].
    exists sb, addr, c. repeat split; auto.
    unfold chan_is in H2. destruct (c_chan c) as [c'|]; [|discriminate].
    apply String.eqb_eq in H2. now subst.
Qed.

(* ================================================================== *)
(** ** Further properties of the module *)

(** *** The bytes a call reports *)

Lemma counted_bytes_app evs evs' :
  counted_bytes (evs ++ evs') = (counted_bytes evs + counted_bytes evs')%Z.
Proof.
  induction evs as [|e evs IH]; simpl; [reflexivity|]. rewrite IH. lia.
Qed.

Lemma counted_bytes_zero evs :
  Forall (fun e => counted e = 0%Z) evs -> counted_bytes evs = 0%Z.
Proof.
  induction 1 as [|e evs He _ IH]; simpl; [reflexivity|]. rewrite He, IH. reflexivity.
Qed.

Lemma sent_counted_event e s :
  counted e = 0%Z -> sent_counted s -> sent_counted (with_event e s).
Proof.
  unfold sent_counted. simpl. intros He ->.
  rewrite counted_bytes_app. simpl. rewrite He. lia.
Qed.

(** A send whose payload counts, with the [sent +=] that follows it. *)
Lemma tri_send_counted a w (ev : Sock -> string -> bool -> Event) sock d (k : M St unit) :
  (forall ok, counted (ev sock d ok) = if ok then Py.len d else 0%Z) ->
  tri sent_counted sent_counted k ->
  tri sent_counted sent_counted (send a w ev sock d ;; sent_add (Py.len d) ;; k).
Proof.
  intros Hev Hk s Hs.
  unfold send, sent_add, bind, emit, modify, pure, raise.
  specialize (Hev (send_ok w (sendall a) sock d)).
  destruct (send_ok w (sendall a) sock d).
  - apply Hk. unfold sent_counted in *. simpl. rewrite counted_bytes_app. simpl.
    rewrite Hev, Hs. lia.
  - unfold sent_counted in *. simpl. rewrite counted_bytes_app. simpl.
    rewrite Hev, Hs. lia.
Qed.

Lemma tri_send_counted_last a w (ev : Sock -> string -> bool -> Event) sock d :
  (forall ok, counted (ev sock d ok) = if ok then Py.len d else 0%Z) ->
  tri sent_counted sent_counted (send a w ev sock d ;; sent_add (Py.len d)).
Proof.
  intros Hev s Hs.
  unfold send, sent_add, bind, emit, modify, pure, raise.
  specialize (Hev (send_ok w (sendall a) sock d)).
  destruct (send_ok w (sendall a) sock d);
    unfold sent_counted in *; simpl; rewrite counted_bytes_app; simpl;
    rewrite Hev, Hs; lia.
Qed.

Lemma tri_send_uncounted a w (ev : Sock -> string -> bool -> Event) sock d :
  (forall ok, counted (ev sock d ok) = 0%Z) ->
  tri sent_counted sent_counted (send a w ev sock d).
Proof.
  intros Hev. unfold send, emit.
  apply tri_bind; [|intros _; destruct (send_ok w (sendall a) sock d);
                             [apply tri_pure | apply tri_raise]].
  apply tri_modify. intros s Hs. now apply sent_counted_event.
Qed.

Ltac sent_go :=
  repeat first [ apply tri_send_counted; [intros []; reflexivity|]
               | apply tri_send_counted_last; intros []; reflexivity
               | apply tri_send_uncounted; intros ?; reflexivity
               | apply tri_lock_release | apply tri_SERVERS_LOCK_release
               | apply tri_clients_del | tri_step ];
  try (intros ? ?; assumption);
  try (intros ? ?; apply sent_counted_event; [reflexivity | assumption]).

Lemma body_sent_counted a w : inv sent_counted (body a w).
Proof.
  unfold inv, body, poll, shutdown, broadcast, request_loop, handle_request,
    serve_request, send_frame, accept_pending, init_channel, _jpeg_compress,
    max_quality_of, close, clients_set, last_times_set, emit.
  sent_go.
Qed.

(** *** The calls that do not get past line 145 *)

Lemma enter_events_listen a w m :
  match enter a w m with
  | Entered s => Forall (fun e => is_listen_event e = true) (events s)
  | EntryRaised _ evs _ | EntryBlocked _ evs => Forall (fun e => is_listen_event e = true) evs
  end.
Proof.
  unfold enter.
  destruct (Dict.get addr_eqb (local_address a) (SERVERS m)) as [ep|].
  - unfold acquire_and_unpack. destruct (ep_lock ep); simpl; constructor.
  - destruct (socket_ok w); simpl; [|constructor].
    destruct (setsockopt_ok w); simpl; [|repeat constructor].
    destruct (bind_ok w (local_address a)); simpl; [|repeat constructor].
    destruct (listen_ok w); simpl; repeat constructor.
Qed.

Lemma listen_uncounted evs :
  Forall (fun e => is_listen_event e = true) evs -> counted_bytes evs = 0%Z.
Proof.
  intros H. apply counted_bytes_zero. revert H. apply Forall_impl.
  intros [] He; try discriminate; reflexivity.
Qed.

(** Every shape a call can take, with what the caller gets when line 145
    is not passed. *)
Lemma handle_frame_shapes a w m :
  (exists s0,
     SERVERS_LOCK m = false
     /\ enter a w (set_SERVERS_LOCK true m) = Entered s0
     /\ handle_frame a w m =
        (store (local_address a) (unlocked (fst (body a w s0))),
         events (fst (body a w s0)),
         Returned (ret (fst (body a w s0))) (sent (fst (body a w s0)))))
  \/ (SERVERS (machine_of (handle_frame a w m)) = SERVERS m
      /\ Forall (fun e => is_listen_event e = true) (events_of (handle_frame a w m))
      /\ (outcome_of (handle_frame a w m) = Returned [] 0
          \/ outcome_of (handle_frame a w m) = Deadlock)).
Proof.
  destruct (SERVERS_LOCK m) eqn:HL.
  { right. unfold handle_frame. rewrite HL. simpl. auto. }
  pose proof (enter_events_listen a w (set_SERVERS_LOCK true m)) as HQ.
  pose proof (@enter_spec a w (set_SERVERS_LOCK true m) eq_refl) as HS.
  destruct (enter a w (set_SERVERS_LOCK true m)) as [s0|m' evs e|m' evs] eqn:HE.
  - left. exists s0. auto using handle_frame_entered.
  - right. destruct HS as [H1 H2].
    unfold handle_frame. rewrite HL, HE, H1. simpl. auto.
  - right. unfold handle_frame. rewrite HL, HE. simpl.
    split; [|auto]. clear HQ HS. unfold enter in HE.
    destruct (Dict.get addr_eqb (local_address a) (SERVERS (set_SERVERS_LOCK true m)))
      as [ep|].
    + unfold acquire_and_unpack in HE. destruct (ep_lock ep); [|discriminate].
      injection HE as <- <-. reflexivity.
    + destruct (socket_ok w); simpl in *; [|discriminate].
      destruct (setsockopt_ok w); simpl in *; [|discriminate].
      destruct (bind_ok w (local_address a)); simpl in *; [|discriminate].
      destruct (listen_ok w); simpl in *; discriminate.
Qed.

(** What [enter] hands to line 146. *)
Lemma entered_state a w m s0 :
  SERVERS_LOCK m = false ->
  enter a w (set_SERVERS_LOCK true m) = Entered s0 ->
  held s0 /\ ret s0 = [] /\ sent s0 = 0%Z
  /\ Forall (fun e => is_listen_event e = true) (events s0)
  /\ Dict.mem addr_eqb (local_address a) (SERVERS (mach s0)) = true.
Proof.
  intros HL HE.
  pose proof (enter_events_listen a w (set_SERVERS_LOCK true m)) as HQ.
  pose proof (@enter_spec a w (set_SERVERS_LOCK true m) eq_refl) as HS.
  rewrite HE in HQ, HS. destruct HS as (H1 & H2 & H3 & H4 & _). auto.
Qed.

(** X1.  The second component of the pair a call returns is the number
    of bytes of the stream headers and of the frame chunks it handed to a
    send that returned: the whole payload counts for each of them (also
    under send, which may transmit less), and neither the index page, nor
    a payload whose send raised, nor anything sent by an earlier call
    counts. *)
Theorem sent_is_counted (a : Args) (w : World) (m : Machine) (r : list Addr) (n : Z) :
  outcome_of (handle_frame a w m) = Returned r n ->
  n = counted_bytes (events_of (handle_frame a w m)).
Proof.
  destruct (handle_frame_shapes a w m) as [(s0 & HL & HE & ->)|(_ & HQ & HO)].
  - unfold outcome_of, events_of. simpl. intros [= _ <-].
    destruct (@entered_state a w m s0 HL HE) as (_ & _ & Hs & Hq & _).
    assert (H0 : sent_counted s0).
    { unfold sent_counted. now rewrite Hs, listen_uncounted. }
    exact (proj2 (@tri_fst _ _ _ _ _ (@body_sent_counted a w) H0)).
  - rewrite (listen_uncounted HQ). destruct HO as [-> | ->]; [|discriminate].
    now intros [= _ <-].
Qed.
(** A call that sends the stream header (105 bytes) and one frame chunk
    (101 bytes). *)
Lemma sent_is_counted_witness :
  let r := handle_frame (Sample.args Sample.frame0)
             (Sample.talking 100.005 Sample.request) Sample.connected in
  outcome_of r = Returned [Sample.peer] 206
  /\ 206%Z = counted_bytes (events_of r).
Proof.
  split; [vm_compute; reflexivity|].
  apply (@sent_is_counted (Sample.args Sample.frame0)
           (Sample.talking 100.005 Sample.request) Sample.connected [Sample.peer] 206).
  vm_compute. reflexivity.
Defined.

(** *** The address list a call reports *)

Ltac keep_go :=
  repeat first [ apply tri_lock_release | apply tri_SERVERS_LOCK_release
               | apply tri_clients_del | tri_step ];
  try (intros ? ?; assumption).

Ltac open_all :=
  unfold body, poll, shutdown, broadcast, request_loop, handle_request,
    serve_request, send_frame, accept_pending, init_channel, _jpeg_compress,
    max_quality_of, send, send_str, close, clients_set, last_times_set, sent_add, emit.

Lemma request_loop_ret a w r : inv (fun s => ret s = r) (request_loop a w).
Proof. unfold inv. open_all. keep_go. Qed.

Lemma broadcast_ret a w im r : inv (fun s => ret s = r) (broadcast a w im).
Proof. unfold inv. open_all. keep_go. Qed.

(** Lines 146-147 always complete, and touch last_times only. *)
Lemma init_channel_run a w s :
  exists lt,
    init_channel a w s = (with_cur (set_last_times lt) s, Val tt)
    /\ Dict.get String.eqb (channel a) lt
       = Some (match Dict.get String.eqb (channel a) (ep_last_times (cur s)) with
               | Some t => t
               | None => (now w - 1)%float
               end).
Proof.
  unfold init_channel, bind, gets, pure, last_times_set, modify, Dict.mem.
  destruct (Dict.get String.eqb (channel a) (ep_last_times (cur s))) as [t|] eqn:E.
  - exists (ep_last_times (cur s)). split; [|exact E]. now destruct s as [? []].
  - eexists. split; [reflexivity|]. apply get_set_same, String.eqb_refl.
Qed.

(** Lines 163-233 from the state line 162 leaves: [ret] ends as the keys
    of clients in that state. *)
Lemma after_accept_ret a w im s :
  ret s = [] ->
  ret (fst ((cs <- gets (fun s => ep_clients (cur s)) ;;
             match cs with
             | [] => lock_release ;; SERVERS_LOCK_release ;; return_
             | _ :: _ => modify (with_ret (Dict.keys cs)) ;; request_loop a w
             end ;; broadcast a w im) s))
  = Dict.keys (ep_clients (cur s)).
Proof.
  intros Hr. unfold bind at 1 2. unfold gets.
  destruct (ep_clients (cur s)) as [|x cs] eqn:E.
  - unfold bind, lock_release, SERVERS_LOCK_release, return_.
    destruct (ep_lock (cur s)); simpl; [|assumption].
    destruct (SERVERS_LOCK (mach s)); simpl; assumption.
  - unfold bind at 1. unfold modify.
    pose proof (@request_loop_ret a w (Dict.keys (x :: cs))) as H1.
    pose proof (@broadcast_ret a w im (Dict.keys (x :: cs))) as H2.
    specialize (H1 (with_ret (Dict.keys (x :: cs)) s) eq_refl).
    destruct (request_loop a w (with_ret (Dict.keys (x :: cs)) s)) as [s1 [[]| |e|]];
      try contradiction; try exact H1.
    specialize (H2 s1 H1).
    destruct (broadcast a w im s1) as [s2 [[]| |e|]]; try contradiction; exact H2.
Qed.

Lemma keys_set_absent (k : Addr) (v : Client) d :
  Dict.keys (Dict.set addr_eqb k v d)
  = if Dict.mem addr_eqb k d then Dict.keys d else (Dict.keys d ++ [k])%list.
Proof.
  unfold Dict.mem. induction d as [|[k' v'] d IH]; simpl; [reflexivity|].
  destruct (addr_eqb k k') eqn:E; simpl; [reflexivity|].
  rewrite IH. now destruct (Dict.get addr_eqb k d).
Qed.

Lemma bind_val {S A B} (c : M S A) (k : A -> M S B) s s' x :
  c s = (s', Val x) -> bind c k s = k x s'.
Proof. unfold bind. now intros ->. Qed.

Lemma bind_raise {S A B} (c : M S A) (k : A -> M S B) s s' e :
  c s = (s', Raise e) -> bind c k s = (s', Raise e).
Proof. unfold bind. now intros ->. Qed.

Lemma bind_return {S A B} (c : M S A) (k : A -> M S B) s s' :
  c s = (s', Return) -> bind c k s = (s', Return).
Proof. unfold bind. now intros ->. Qed.

Lemma bind_assoc {S A B C} (c : M S A) (k1 : A -> M S B) (k2 : B -> M S C) s :
  bind (bind c k1) k2 s = bind c (fun x => bind (k1 x) k2) s.
Proof. unfold bind. now destruct (c s) as [s' [x| |e|]]. Qed.

(** Lines 157-162: what they do, case by case. *)
Lemma accept_pending_run a w s :
  accept_pending a w s =
  match select_server w with
  | None => (s, Raise OSError)
  | Some false => (s, Val tt)
  | Some true =>
      match accept w with
      | None => (s, Raise OSError)
      | Some remote =>
          (mkSt (set_next_sock (S (next_sock (mach s))) (mach s))
                (set_clients
                   (Dict.set addr_eqb remote
                      (mkClient (next_sock (mach s)) (default_chan a) (default_quality a)
                                (default_delay a) 0%float false)
                      (ep_clients (cur s)))
                   (cur s))
                (ret s) (sent s)
                (events s ++ [EvAccept (next_sock (mach s)) remote])%list,
           Val tt)
      end
  end.
Proof.
  unfold accept_pending.
  destruct (select_server w) as [[]|]; try reflexivity.
  destruct (accept w) as [remote|]; reflexivity.
Qed.

Lemma body_ret a w im s :
  frame a = Some im ->
  ret s = [] ->
  ret (fst (body a w s))
  = match select_server w with
    | None => []
    | Some false => Dict.keys (ep_clients (cur s))
    | Some true =>
        match accept w with
        | None => []
        | Some remote =>
            Dict.keys (Dict.set addr_eqb remote
                         (mkClient (next_sock (mach s)) (default_chan a) (default_quality a)
                                   (default_delay a) 0%float false)
                         (ep_clients (cur s)))
        end
    end.
Proof.
  intros Hf Hr. unfold body. rewrite Hf.
  destruct (init_channel_run a w s) as (lt & E1 & _).
  rewrite (@bind_val _ _ _ _ _ _ _ _ E1). unfold poll. rewrite bind_assoc.
  pose proof (accept_pending_run a w (with_cur (set_last_times lt) s)) as E2.
  destruct (select_server w) as [[]|].
  - destruct (accept w) as [remote|].
    + rewrite (@bind_val _ _ _ _ _ _ _ _ E2). cbv beta.
      match goal with
      | |- ret (fst (_ ?s0)) = _ => exact (@after_accept_ret a w im s0 Hr)
      end.
    + now rewrite (@bind_raise _ _ _ _ _ _ _ _ E2).
  - rewrite (@bind_val _ _ _ _ _ _ _ _ E2). cbv beta.
    match goal with
      | |- ret (fst (_ ?s0)) = _ => exact (@after_accept_ret a w im s0 Hr)
      end.
  - now rewrite (@bind_raise _ _ _ _ _ _ _ _ E2).
Qed.

(** A call that can get past line 145 does. *)
Lemma enterable_enters a w m :
  enterable a w m ->
  exists s0, enter a w (set_SERVERS_LOCK true m) = Entered s0.
Proof.
  intros [_ H]. unfold enter, acquire_and_unpack. simpl.
  destruct (Dict.get addr_eqb (local_address a) (SERVERS m)) as [ep|].
  - rewrite H. eauto.
  - unfold creates in H. rewrite !andb_true_iff in H. destruct H as [[[-> ->] ->] ->].
    simpl. eauto.
Qed.

Lemma entered_clients a w m s0 :
  enter a w (set_SERVERS_LOCK true m) = Entered s0 ->
  ep_clients (cur s0) = clients_at (local_address a) m.
Proof.
  intros HE. destruct (@enter_entered a w _ s0 HE) as (_ & -> & _).
  unfold clients_at. simpl.
  now destruct (Dict.get addr_eqb (local_address a) (SERVERS m)).
Qed.

(** X2.  The address list a call with a frame returns is the list of the
    keys of clients taken at line 167, after the accept and before the
    request loop: the clients the call found, in their order, with the
    address accepted by this call at the end when it is a new one.  What
    happens later in the call does not change it: the clients dropped by
    the request loop or by the fan-out of the same call are still listed.  When select or
    accept raises at lines 157-159 the list is empty, whatever clients
    there are. *)
Theorem returned_addresses (a : Args) (w : World) (m : Machine) :
  frame a <> None ->
  enterable a w m ->
  let cs := clients_at (local_address a) m in
  exists n,
    outcome_of (handle_frame a w m) =
    Returned
      match select_server w with
      | None => []
      | Some false => Dict.keys cs
      | Some true =>
          match accept w with
          | None => []
          | Some remote =>
              if Dict.mem addr_eqb remote cs then Dict.keys cs
              else (Dict.keys cs ++ [remote])%list
          end
      end n.
Proof.
  intros Hf Hen cs. destruct (frame a) as [im|] eqn:Ef; [clear Hf|congruence].
  destruct (@enterable_enters a w m Hen) as (s0 & HE).
  rewrite (@handle_frame_entered a w m s0 (proj1 Hen) HE). unfold outcome_of. simpl.
  eexists. f_equal.
  destruct (@entered_state a w m s0 (proj1 Hen) HE) as (_ & Hr & _).
  rewrite (@body_ret a w im s0 Ef Hr), (@entered_clients a w m s0 HE). fold cs.
  destruct (select_server w) as [[]|]; try reflexivity.
  destruct (accept w) as [remote|]; [|reflexivity].
  apply keys_set_absent.
Qed.

(** The one client of the endpoint has closed its connection: the call
    drops it, and still lists its address. *)
Lemma returned_addresses_witness :
  let a := Sample.args Sample.frame0 in
  let w := Sample.talking 100.060 EmptyString in
  enterable a w Sample.streaming
  /\ clients_at (local_address a) (machine_of (handle_frame a w Sample.streaming)) = []
  /\ exists n, outcome_of (handle_frame a w Sample.streaming) = Returned [Sample.peer] n.
Proof.
  split; [split; vm_compute; reflexivity|]. split; [vm_compute; reflexivity|].
  apply (@returned_addresses (Sample.args Sample.frame0)
           (Sample.talking 100.060 EmptyString) Sample.streaming);
    [discriminate | split; vm_compute; reflexivity].
Defined.

(** *** The index page, lines 178-190 *)

Lemma get_mem {K V} (eqb : K -> K -> bool) k (d : Dict.t K V) v :
  Dict.get eqb k d = Some v -> Dict.mem eqb k d = true.
Proof. unfold Dict.mem. now intros ->. Qed.

(** X3.  A client that asks for the index page never gets it.  Line 179
    hands the page, a str, to the send method of the socket, which takes
    bytes and raises TypeError; lines 188-190 are not reached, and the
    except clause of line 202 removes the record.  So for a stored client
    whose request names index.html (or the root path, when default_chan
    is None): nothing is sent to it, neither the page nor the stream
    header, its socket is not closed by the call, its record is removed,
    and nothing is added to the bytes sent. *)
Theorem index_request (a : Args) (w : World) (r : list Sock)
        (addr : Addr) (c : Client) (s : St) (data : string) :
  Dict.get addr_eqb addr (ep_clients (cur s)) = Some c ->
  existsb (Nat.eqb (c_sock c)) r = true ->
  recv_decode w (c_sock c) = Some data ->
  data <> EmptyString ->
  wants_index a (GET_RE_findall data) = true ->
  exists s',
    handle_request a w r (addr, c) s = (s', Val tt)
    /\ ep_clients (cur s') = Dict.remove addr_eqb addr (ep_clients (cur s))
    /\ events s' =
       (events s ++ [EvSendPage (c_sock c) (index_page (ep_last_times (cur s))) false])%list
    /\ sent s' = sent s
    /\ ret s' = ret s
    /\ mach s' = mach s
    /\ ep_last_times (cur s') = ep_last_times (cur s).
Proof.
  intros Hg Hr Hd Hne Hi.
  apply get_mem in Hg.
  assert (Hl : (Py.len data =? 0)%Z = false).
  { destruct (Py.len data =? 0)%Z eqn:E; [|reflexivity]. apply len_zero in E. contradiction. }
  unfold handle_request, try_except, serve_request. rewrite Hr, Hd, Hl, Hi.
  unfold bind, gets, send_str, emit, modify, close, pure, raise, clients_del, Dict.del.
  simpl. rewrite Hg. eexists. split; [reflexivity|]. simpl. auto 10.
Qed.

(** The viewer asks for index.html: the send of the page raises, the
    socket stays open, and the viewer is forgotten. *)
Lemma index_request_witness :
  let a := Sample.args Sample.frame0 in
  let w := Sample.talking 100.060 "GET /index.html HTTP/1.1" in
  exists s',
    handle_request a w [1%nat] (Sample.peer, Sample.viewer) Sample.in_loop = (s', Val tt)
    /\ ep_clients (cur s') = []
    /\ events s' = [EvSendPage 1 (index_page [("0", 100.005%float)]) false]
    /\ sent s' = 0%Z.
Proof.
  destruct (@index_request (Sample.args Sample.frame0)
              (Sample.talking 100.060 "GET /index.html HTTP/1.1") [1%nat]
              Sample.peer Sample.viewer Sample.in_loop "GET /index.html HTTP/1.1"
              eq_refl eq_refl eq_refl ltac:(discriminate) eq_refl)
    as (s' & H1 & H2 & H3 & H4 & _).
  exists s'. auto.
Defined.

(** *** The shutdown sentinel on a registered endpoint, lines 148-156 *)

Lemma get_remove_same {V} (d : Dict.t Addr V) k :
  NoDup (Dict.keys d) -> Dict.get addr_eqb k (Dict.remove addr_eqb k d) = None.
Proof.
  induction d as [|[k' v] d IH]; simpl; [reflexivity|].
  intros H. inversion H as [|? ? Hn Hd]; subst.
  destruct (addr_eqb k k') eqn:E; simpl.
  - apply addr_eqb_eq in E. subst.
    destruct (Dict.get addr_eqb k' d) as [v'|] eqn:G; [|reflexivity].
    apply get_In in G. destruct G as (k2 & E2 & Hin). apply addr_eqb_eq in E2. subst.
    exfalso. apply Hn. now apply (in_map fst) in Hin.
  - rewrite E. auto.
Qed.

Lemma entered_existing a w m ep :
  Dict.get addr_eqb (local_address a) (SERVERS m) = Some ep ->
  ep_lock ep = false ->
  enter a w (set_SERVERS_LOCK true m)
  = Entered (mkSt (set_SERVERS_LOCK true m) (set_lock true ep) [] 0 []).
Proof.
  intros Hg Hl. unfold enter, acquire_and_unpack. simpl. now rewrite Hg, Hl.
Qed.

(** The body of a shutdown call, case by case. *)
Lemma shutdown_body a w s :
  frame a = None ->
  held s ->
  exists lt,
    let s1 := with_cur (set_last_times lt) s in
    let ok := close_ok w (ep_server (cur s)) in
    body a w s =
    match ep_clients (cur s) with
    | _ :: _ => (s1, Raise ValueError)
    | [] =>
        if ok then
          (with_mach (set_SERVERS_LOCK false)
             (with_mach (fun m => set_SERVERS
                                    (Dict.remove addr_eqb (local_address a) (SERVERS m)) m)
                (with_cur (set_lock false) (with_event (EvClose (ep_server (cur s)) true) s1))),
           Return)
        else (with_event (EvClose (ep_server (cur s)) false) s1, Raise OSError)
    end.
Proof.
  intros Hf [H1 H2]. unfold body. rewrite Hf.
  destruct (init_channel_run a w s) as (lt & E1 & _). exists lt.
  rewrite (@bind_val _ _ _ _ _ _ _ _ E1).
  unfold shutdown, bind, gets, raise, pure, close, emit, modify, lock_release,
    SERVERS_LOCK_release, return_. simpl.
  destruct (ep_clients (cur s)) as [|x cs]; simpl; [|reflexivity].
  destruct (close_ok w (ep_server (cur s))); simpl; [|reflexivity].
  rewrite H2. simpl. rewrite H1. reflexivity.
Qed.

(** X4.  The shutdown sentinel on a registered endpoint that has no
    client closes the listening socket and removes the endpoint from the
    registry; nothing else is closed or sent, the other endpoints stay,
    and the call returns an empty list and zero bytes.  When the close
    raises, the exception is swallowed and the endpoint stays registered,
    with its lock released. *)
Theorem shutdown_removes (a : Args) (w : World) (m : Machine) (ep : Endpoint) :
  frame a = None ->
  SERVERS_LOCK m = false ->
  NoDup (Dict.keys (SERVERS m)) ->
  Dict.get addr_eqb (local_address a) (SERVERS m) = Some ep ->
  ep_lock ep = false ->
  ep_clients ep = [] ->
  let ok := close_ok w (ep_server ep) in
  exists m',
    handle_frame a w m = (m', [EvClose (ep_server ep) ok], Returned [] 0)
    /\ SERVERS_LOCK m' = false
    /\ (forall k, k <> local_address a ->
          Dict.get addr_eqb k (SERVERS m') = Dict.get addr_eqb k (SERVERS m))
    /\ (ok = true ->
        SERVERS m' = Dict.remove addr_eqb (local_address a) (SERVERS m)
        /\ Dict.get addr_eqb (local_address a) (SERVERS m') = None)
    /\ (ok = false ->
        exists ep',
          Dict.get addr_eqb (local_address a) (SERVERS m') = Some ep'
          /\ ep_lock ep' = false
          /\ ep_server ep' = ep_server ep
          /\ ep_clients ep' = []).
Proof.
  intros Hf HL Hnd Hg Hl Hc ok.
  pose proof (@entered_existing a w m ep Hg Hl) as HE.
  pose proof (@handle_frame_others a w m) as Ho.
  rewrite (@handle_frame_entered a w m _ HL HE) in *.
  destruct (@shutdown_body a w (mkSt (set_SERVERS_LOCK true m) (set_lock true ep) [] 0 [])
              Hf (conj eq_refl eq_refl)) as (lt & E).
  simpl in E. rewrite Hc in E. fold ok in E. rewrite E in *. clear E.
  unfold machine_of in Ho. simpl in Ho.
  destruct ok eqn:Eok; simpl in *.
  - assert (Hm : Dict.mem addr_eqb (local_address a)
                   (Dict.remove addr_eqb (local_address a) (SERVERS m)) = false).
    { unfold Dict.mem. now rewrite get_remove_same. }
    unfold store in *. simpl in *. rewrite Hm in *. simpl in *.
    eexists. split; [reflexivity|]. simpl.
    repeat split; auto; try discriminate. now apply get_remove_same.
  - assert (Hm : Dict.mem addr_eqb (local_address a) (SERVERS m) = true).
    { now apply get_mem in Hg. }
    unfold store in *. simpl in *. rewrite Hm in *. simpl in *.
    eexists. split; [reflexivity|]. simpl.
    repeat split; auto; try discriminate. intros _.
    eexists. split; [apply get_set_same, addr_eqb_refl|]. simpl. auto.
Qed.

(** Lines 146-147, exactly. *)
Lemma init_channel_exact a w s :
  init_channel a w s =
  (with_cur (set_last_times
               (if Dict.mem String.eqb (channel a) (ep_last_times (cur s))
                then ep_last_times (cur s)
                else Dict.set String.eqb (channel a) (now w - 1)%float
                       (ep_last_times (cur s)))) s,
   Val tt).
Proof.
  unfold init_channel, bind, gets, pure, last_times_set, modify.
  destruct (Dict.mem String.eqb (channel a) (ep_last_times (cur s)));
    [destruct s as [? [] ? ? ?]|]; reflexivity.
Qed.

(** X5.  The shutdown sentinel on a registered endpoint that has a client
    shuts nothing down: the loop of line 149 unpacks five names from the
    six-tuples of clients, the ValueError is swallowed at line 234, no
    socket is closed, and the endpoint stays registered with its
    listening socket and with every client record.  What the call does
    change is last_times: lines 146-147 run before the test of line 148,
    so a channel the endpoint has not seen yet (the default channel of a
    call that names none, say) is entered with now - 1.0; the times of
    the other channels stay. *)
Theorem shutdown_with_clients (a : Args) (w : World) (m : Machine) (ep : Endpoint) :
  frame a = None ->
  SERVERS_LOCK m = false ->
  Dict.get addr_eqb (local_address a) (SERVERS m) = Some ep ->
  ep_lock ep = false ->
  ep_clients ep <> [] ->
  exists m' ep',
    handle_frame a w m = (m', [], Returned [] 0)
    /\ SERVERS_LOCK m' = false
    /\ Dict.get addr_eqb (local_address a) (SERVERS m') = Some ep'
    /\ ep_lock ep' = false
    /\ ep_server ep' = ep_server ep
    /\ ep_clients ep' = ep_clients ep
    /\ (forall k, k <> local_address a ->
          Dict.get addr_eqb k (SERVERS m') = Dict.get addr_eqb k (SERVERS m))
    /\ ep_last_times ep' =
       (if Dict.mem String.eqb (channel a) (ep_last_times ep)
        then ep_last_times ep
        else Dict.set String.eqb (channel a) (now w - 1)%float (ep_last_times ep))
    /\ next_sock m' = next_sock m.
Proof.
  intros Hf HL Hg Hl Hc.
  pose proof (@entered_existing a w m ep Hg Hl) as HE.
  pose proof (@handle_frame_others a w m) as Ho.
  rewrite (@handle_frame_entered a w m _ HL HE) in *.
  set (s0 := mkSt (set_SERVERS_LOCK true m) (set_lock true ep) [] 0 []) in *.
  assert (E : body a w s0 =
              (with_cur (set_last_times
                 (if Dict.mem String.eqb (channel a) (ep_last_times ep)
                  then ep_last_times ep
                  else Dict.set String.eqb (channel a) (now w - 1)%float
                         (ep_last_times ep))) s0,
               Raise ValueError)).
  { unfold body. rewrite Hf.
    rewrite (@bind_val _ _ _ _ _ _ _ _ (init_channel_exact a w s0)).
    unfold shutdown, bind, gets, raise, pure. simpl.
    destruct (ep_clients ep) as [|x cs]; [congruence | reflexivity]. }
  rewrite E in *. clear E. unfold machine_of in Ho. simpl in Ho.
  assert (Hm : Dict.mem addr_eqb (local_address a) (SERVERS m) = true).
  { now apply get_mem in Hg. }
  unfold store in *. simpl in *. rewrite Hm in *. simpl in *.
  do 2 eexists. split; [reflexivity|]. simpl.
  split; [reflexivity|]. split; [apply get_set_same, addr_eqb_refl|]. simpl. auto 10.
Qed.

(** The first shutdown call on a registered endpoint. *)
Lemma shutdown_removes_witness :
  let a := Sample.args None in
  let w := Sample.quiet 101 in
  Dict.get addr_eqb (local_address a) (SERVERS Sample.registered)
  = Some (mkEndpoint false 0 [("0", 99%float)] [])
  /\ exists m',
       handle_frame a w Sample.registered = (m', [EvClose 0 true], Returned [] 0)
       /\ SERVERS_LOCK m' = false
       /\ SERVERS m' = [].
Proof.
  split; [reflexivity|].
  destruct (@shutdown_removes (Sample.args None) (Sample.quiet 101) Sample.registered
              (mkEndpoint false 0 [("0", 99%float)] [])
              eq_refl eq_refl) as (m' & H1 & H2 & _ & H3 & _);
    [repeat constructor; intros [] | reflexivity | reflexivity | reflexivity |].
  exists m'. split; [exact H1|]. split; [exact H2|]. exact (proj1 (H3 eq_refl)).
Defined.

(** The shutdown call of the docstring while the viewer is connected:
    nothing is closed, the viewer stays, and the default channel is
    entered in last_times. *)
Lemma shutdown_with_clients_witness :
  let a := Sample.args_shutdown in
  let w := Sample.quiet 101 in
  exists m' ep',
    handle_frame a w Sample.streaming = (m', [], Returned [] 0)
    /\ Dict.get addr_eqb (local_address a) (SERVERS m') = Some ep'
    /\ ep_server ep' = 0%nat
    /\ ep_clients ep' = [(Sample.peer, Sample.viewer)]
    /\ ep_last_times ep' = [("0", 100.005%float); (EmptyString, 100%float)].
Proof.
  destruct (@shutdown_with_clients Sample.args_shutdown (Sample.quiet 101) Sample.streaming
              (mkEndpoint false 0 [("0", 100.005%float)] [(Sample.peer, Sample.viewer)])
              eq_refl eq_refl eq_refl eq_refl ltac:(discriminate))
    as (m' & ep' & H1 & _ & H2 & _ & H3 & H4 & _ & H5 & _).
  exists m', ep'. auto.
Defined.

(** *** The endpoint and its listening socket *)

Lemma body_no_listen a w e0 :
  inv (events_ext (fun e => is_listen_event e = false) e0) (body a w).
Proof.
  unfold inv. open_all. keep_go;
    try (intros ? ?; apply events_ext_event; [reflexivity | assumption]).
Qed.

Lemma body_server a w sv : inv (fun s => ep_server (cur s) = sv) (body a w).
Proof. unfold inv. open_all. keep_go. Qed.

Lemma entered_created a w m :
  Dict.get addr_eqb (local_address a) (SERVERS m) = None ->
  creates a w = true ->
  enter a w (set_SERVERS_LOCK true m)
  = Entered
      (mkSt (mkMachine (Dict.set addr_eqb (local_address a)
                          (mkEndpoint false (next_sock m) [] []) (SERVERS m))
                       true (S (next_sock m)))
            (mkEndpoint true (next_sock m) [] [])
            [] 0
            [EvSocket (next_sock m); EvBind (next_sock m) (local_address a) true;
             EvListen (next_sock m) true]).
Proof.
  intros Hg Hc. unfold creates in Hc. rewrite !andb_true_iff in Hc.
  destruct Hc as [[[H1 H2] H3] H4].
  unfold enter, acquire_and_unpack. simpl. rewrite Hg, H1, H2, H3, H4. reflexivity.
Qed.

Lemma filter_listen_none evs :
  Forall (fun e => is_listen_event e = false) evs -> filter is_listen_event evs = [].
Proof.
  induction 1 as [|e evs He _ IH]; simpl; [reflexivity|]. now rewrite He.
Qed.

(** X6.  A call with a frame never unregisters an endpoint and never
    replaces its listening socket.  When the endpoint is registered, the
    call makes no socket(), bind() or listen() and leaves the entry with
    the same listening socket; when it is not and lines 137-140 succeed,
    these three calls are made once, and the new endpoint is registered
    when the call returns, whatever fails afterwards (select, accept,
    recv, the encoder, send).  In both cases the lock of the entry is
    free again. *)
Theorem endpoint_stays (a : Args) (w : World) (m : Machine) :
  frame a <> None ->
  enterable a w m ->
  exists ep',
    Dict.get addr_eqb (local_address a) (SERVERS (machine_of (handle_frame a w m))) = Some ep'
    /\ ep_lock ep' = false
    /\ match Dict.get addr_eqb (local_address a) (SERVERS m) with
       | Some ep =>
           ep_server ep' = ep_server ep
           /\ filter is_listen_event (events_of (handle_frame a w m)) = []
       | None =>
           ep_server ep' = next_sock m
           /\ filter is_listen_event (events_of (handle_frame a w m))
              = [EvSocket (next_sock m); EvBind (next_sock m) (local_address a) true;
                 EvListen (next_sock m) true]
       end.
Proof.
  intros Hf [HL Hen].
  assert (Hgen : forall s0 sv,
             enter a w (set_SERVERS_LOCK true m) = Entered s0 ->
             ep_server (cur s0) = sv ->
             exists ep',
               Dict.get addr_eqb (local_address a) (SERVERS (machine_of (handle_frame a w m)))
               = Some ep'
               /\ ep_lock ep' = false
               /\ ep_server ep' = sv
               /\ filter is_listen_event (events_of (handle_frame a w m))
                  = filter is_listen_event (events s0)).
  { intros s0 sv HE Hsv.
    rewrite (@handle_frame_entered a w m s0 HL HE). unfold machine_of, events_of. simpl.
    destruct (@entered_state a w m s0 HL HE) as (Hh & _ & _ & _ & Hmem).
    pose proof (proj2 (@tri_fst _ _ _ _ _ (@body_server a w sv) Hsv)) as H1.
    pose proof (proj2 (@tri_fst _ _ _ _ _ (@body_reg_is a w (SERVERS (mach s0)) Hf) eq_refl))
      as H2.
    assert (H0 : events_ext (fun e => is_listen_event e = false) (events s0) s0).
    { exists []. split; [now rewrite app_nil_r | constructor]. }
    pose proof (proj2 (@tri_fst _ _ _ _ _ (@body_no_listen a w (events s0)) H0))
      as (evs & H3 & H4).
    unfold reg_is in H2.
    exists (cur (unlocked (fst (body a w s0)))). split.
    - apply get_store_same. simpl. now rewrite H2.
    - simpl. repeat split; auto.
      rewrite H3, filter_app, (filter_listen_none H4). apply app_nil_r. }
  destruct (Dict.get addr_eqb (local_address a) (SERVERS m)) as [ep|] eqn:Hg.
  - destruct (Hgen _ (ep_server ep) (@entered_existing a w m ep Hg Hen) eq_refl)
      as (ep' & H1 & H2 & H3 & H4).
    exists ep'. auto.
  - destruct (Hgen _ (next_sock m) (@entered_created a w m Hg Hen) eq_refl)
      as (ep' & H1 & H2 & H3 & H4).
    exists ep'. auto.
Qed.

(** A call on a registered endpoint in which the encoder raises. *)
Lemma endpoint_stays_witness :
  let a := Sample.args Sample.frame0 in
  let w := Sample.no_backend 100.030 in
  let m := Sample.streaming in
  enterable a w m
  /\ exists ep',
       Dict.get addr_eqb (local_address a) (SERVERS (machine_of (handle_frame a w m)))
       = Some ep'
       /\ ep_lock ep' = false
       /\ match Dict.get addr_eqb (local_address a) (SERVERS m) with
          | Some ep =>
              ep_server ep' = ep_server ep
              /\ filter is_listen_event (events_of (handle_frame a w m)) = []
          | None =>
              ep_server ep' = next_sock m
              /\ filter is_listen_event (events_of (handle_frame a w m))
                 = [EvSocket (next_sock m); EvBind (next_sock m) (local_address a) true;
                    EvListen (next_sock m) true]
          end.
Proof.
  assert (H : enterable (Sample.args Sample.frame0) (Sample.no_backend 100.030)
                Sample.streaming)
    by (split; vm_compute; reflexivity).
  split; [exact H|].
  exact (@endpoint_stays (Sample.args Sample.frame0) (Sample.no_backend 100.030)
           Sample.streaming ltac:(discriminate) H).
Defined.

(** *** The fan-out, lines 220-232 *)

(** One receiver: stamped with the time of the call when the send
    returns, removed when it raises. *)
Lemma send_frame_run a w fd addr c s :
  Dict.mem addr_eqb addr (ep_clients (cur s)) = true ->
  let ok := send_ok w (sendall a) (c_sock c) fd in
  send_frame a w fd (addr, c) s =
  (mkSt (mach s)
        (set_clients
           (if ok
            then Dict.set addr_eqb addr
                   (mkClient (c_sock c) (c_chan c) (c_quality c) (c_delay c) (now w)
                             (c_headers_sent c))
                   (ep_clients (cur s))
            else Dict.remove addr_eqb addr (ep_clients (cur s)))
           (cur s))
        (ret s)
        (if ok then sent s + Py.len fd else sent s)%Z
        (events s ++ [EvSendFrame (c_sock c) fd ok])%list,
   Val tt).
Proof.
  intros Hm. 
  unfold send_frame, try_except, send, emit, bind, modify, sent_add, clients_set,
    clients_del, Dict.del, pure, raise. simpl.
  destruct (send_ok w (sendall a) (c_sock c) fd); simpl; [reflexivity|].
  now rewrite Hm.
Qed.

Lemma send_frames_clients a w fd l :
  forall s s',
    NoDup (map fst l) ->
    NoDup (Dict.keys (ep_clients (cur s))) ->
    (forall x, In x l -> Dict.mem addr_eqb (fst x) (ep_clients (cur s)) = true) ->
    for_each l (send_frame a w fd) s = (s', Val tt) ->
    (forall x, In x l ->
       Dict.get addr_eqb (fst x) (ep_clients (cur s')) =
       if send_ok w (sendall a) (c_sock (snd x)) fd
       then Some (mkClient (c_sock (snd x)) (c_chan (snd x)) (c_quality (snd x))
                           (c_delay (snd x)) (now w) (c_headers_sent (snd x)))
       else None)
    /\ (forall k, ~ In k (map fst l) ->
          Dict.get addr_eqb k (ep_clients (cur s')) = Dict.get addr_eqb k (ep_clients (cur s))).
Proof.
  induction l as [|[addr c] l IH]; intros s s' Hnd Hk Hin E.
  - injection E as <-. split; [intros x []|auto].
  - cbn [for_each] in E. cbn [map fst] in Hnd |- *.
    inversion Hnd as [|? ? Hx Hl]; subst.
    assert (Hm : Dict.mem addr_eqb addr (ep_clients (cur s)) = true)
      by (apply (Hin (addr, c)); now left).
    unfold bind in E. rewrite (@send_frame_run a w fd addr c s Hm) in E.
    match type of E with for_each _ _ ?s1 = _ => set (s1' := s1) in * end.
    assert (Hk1 : NoDup (Dict.keys (ep_clients (cur s1')))).
    { subst s1'. simpl. destruct (send_ok w (sendall a) (c_sock c) fd).
      - apply NoDup_keys_set; [apply addr_eqb_eq | assumption].
      - apply NoDup_keys_remove; assumption. }
    assert (Hin1 : forall x, In x l ->
                     Dict.mem addr_eqb (fst x) (ep_clients (cur s1')) = true).
    { intros x Hxl. subst s1'. simpl.
      assert (Hne : fst x <> addr).
      { intros Heq. apply Hx. rewrite <- Heq. now apply in_map. }
      destruct (send_ok w (sendall a) (c_sock c) fd).
      - apply mem_set; [apply addr_eqb_eq | apply Hin; now right].
      - apply mem_remove_other; [apply addr_eqb_eq | assumption | apply Hin; now right]. }
    destruct (IH s1' s' Hl Hk1 Hin1 E) as [H1 H2]. split.
    + intros x [<-|Hxl]; [|now apply H1]. cbn [fst snd].
      rewrite (H2 addr Hx). subst s1'. simpl.
      destruct (send_ok w (sendall a) (c_sock c) fd).
      * apply get_set_same, addr_eqb_refl.
      * now apply get_remove_same.
    + intros k Hnk. cbn [In] in Hnk.
      assert (Hne : k <> addr) by (intros ->; tauto).
      rewrite H2 by tauto. subst s1'. simpl.
      destruct (send_ok w (sendall a) (c_sock c) fd).
      * apply get_set_other; [apply addr_eqb_eq | assumption].
      * apply get_remove_other; [apply addr_eqb_eq | assumption].
Qed.

(** Lines 210-233 when line 206 is false and the encoder answers. *)
Lemma broadcast_loop a w im s t q jpeg s2 :
  receivers_of a w (ep_clients (cur s)) <> [] ->
  Dict.get String.eqb (channel a) (ep_last_times (cur s)) = Some t ->
  PrimFloat.ltb (now w - t)%float (min_delay a) = false ->
  max_quality_of (receivers_of a w (ep_clients (cur s))) = Some q ->
  backend w im q = Some jpeg ->
  for_each (receivers_of a w (ep_clients (cur s)))
    (send_frame a w (frame_data_of (sheaders_of (headers a)) jpeg))
    (with_event (EvEncode q true) s) = (s2, Val tt) ->
  broadcast a w im s
  = (with_cur (fun e => set_last_times (Dict.set String.eqb (channel a) (now w)
                                          (ep_last_times e)) e) s2,
     Val tt).
Proof.
  intros HR Ht Hlt Hq Hb E.
  unfold broadcast, bind, gets, pure, raise, _jpeg_compress, emit, modify, last_times_set.
  destruct (receivers_of a w (ep_clients (cur s))) as [|x R] eqn:ER; [congruence|].
  rewrite Ht. cbv beta iota. rewrite Hlt, Hq, Hb.
  unfold bind, pure, modify. cbv beta iota. now rewrite E.
Qed.

(** X7.  The state a broadcast leaves.  In a call that reaches line 210
    and whose encoder answers, every receiver of line 204 is handed the
    chunk; one whose send returns has its record rewritten with last_sent
    set to the time of the call and nothing else changed, one whose send
    raises has its record removed, and the loop goes on to the next
    receiver either way.  The records of the clients that are no
    receivers are untouched, and last_times[channel] is the time of the
    call. *)
Theorem fan_out (a : Args) (w : World) (m : Machine) (im : Image) (sb : St)
        (q : Z) (jpeg : string) :
  wf_machine m ->
  frame a = Some im ->
  at_broadcast a w m = Some sb ->
  receivers_of a w (ep_clients (cur sb)) <> [] ->
  PrimFloat.ltb (now w - last_broadcast a w m)%float (min_delay a) = false ->
  max_quality_of (receivers_of a w (ep_clients (cur sb))) = Some q ->
  backend w im q = Some jpeg ->
  let fd := frame_data_of (sheaders_of (headers a)) jpeg in
  exists ep',
    Dict.get addr_eqb (local_address a) (SERVERS (machine_of (handle_frame a w m))) = Some ep'
    /\ (forall addr c, In (addr, c) (receivers_of a w (ep_clients (cur sb))) ->
          In (EvSendFrame (c_sock c) fd (send_ok w (sendall a) (c_sock c) fd))
             (events_of (handle_frame a w m))
          /\ Dict.get addr_eqb addr (ep_clients ep') =
             if send_ok w (sendall a) (c_sock c) fd
             then Some (mkClient (c_sock c) (c_chan c) (c_quality c) (c_delay c) (now w)
                                 (c_headers_sent c))
             else None)
    /\ (forall addr, ~ In addr (map fst (receivers_of a w (ep_clients (cur sb)))) ->
          Dict.get addr_eqb addr (ep_clients ep')
          = Dict.get addr_eqb addr (ep_clients (cur sb)))
    /\ Dict.get String.eqb (channel a) (ep_last_times ep') = Some (now w).
Proof.
  intros Hwf Hf HB HR Hlt Hq Hb fd.
  destruct (@at_broadcast_facts a w m sb HB) as ([Hh1 Hh2] & _ & Hmem & _ & Ht & Hd).
  specialize (Hd Hwf).
  pose proof (@receivers_NoDup a w sb Hd) as Hnd.
  pose proof (@receivers_mem a w sb) as Hrm.
  destruct (@send_frames_run a w fd (receivers_of a w (ep_clients (cur sb)))
              (with_event (EvEncode q true) sb) Hnd)
    as (s2 & E & Ev & Mm & L & T).
  { intros y Hy. simpl. now apply Hrm. }
  assert (Hk : NoDup (Dict.keys (ep_clients (cur (with_event (EvEncode q true) sb))))).
  { simpl. now apply distinct_NoDup. }
  destruct (@send_frames_clients a w fd _ _ s2 Hnd Hk) as [C1 C2]; [|exact E|].
  { intros y Hy. simpl. now apply Hrm. }
  rewrite (@handle_frame_round a w m im sb Hf HB).
  rewrite (@broadcast_loop a w im sb _ q jpeg s2 HR Ht Hlt Hq Hb E).
  rewrite epilogue_held by (split; simpl; [now rewrite Mm | now rewrite L]).
  unfold machine_of, events_of, finish. simpl.
  eexists. split.
  - apply get_store_same. simpl. now rewrite Mm.
  - simpl. split; [|split].
    + intros addr c Hin. split.
      * rewrite Ev. apply in_or_app. right.
        change (EvSendFrame (c_sock c) fd (send_ok w (sendall a) (c_sock c) fd))
          with (frame_event a w fd (addr, c)).
        now apply in_map.
      * exact (C1 (addr, c) Hin).
    + intros addr Hn. now rewrite (C2 addr Hn).
    + apply get_set_same, String.eqb_refl.
Qed.

(** The viewer is due and the send returns: its record is stamped. *)
Lemma fan_out_witness :
  let a := Sample.args Sample.frame0 in
  let w := Sample.quiet 100.030 in
  at_broadcast a w Sample.streaming = Some Sample.in_loop
  /\ exists ep',
       Dict.get addr_eqb (local_address a) (SERVERS (machine_of (handle_frame a w Sample.streaming)))
       = Some ep'
       /\ Dict.get addr_eqb Sample.peer (ep_clients ep')
          = Some (mkClient 1 (Some "0") 50 0.02%float 100.030%float true)
       /\ Dict.get String.eqb "0" (ep_last_times ep') = Some 100.030%float.
Proof.
  split; [vm_compute; reflexivity|].
  destruct (@fan_out (Sample.args Sample.frame0) (Sample.quiet 100.030) Sample.streaming
              (ndarray "px") Sample.in_loop 50 "JPEG50:px")
    as (ep' & H1 & H2 & _ & H4);
    [reflexivity | reflexivity | vm_compute; reflexivity | vm_compute; discriminate
    | vm_compute; reflexivity | reflexivity | reflexivity |].
  exists ep'. split; [exact H1|]. split; [|exact H4].
  exact (proj2 (H2 Sample.peer Sample.viewer (or_introl eq_refl))).
Defined.

(** *** The quality the encoder is asked for *)

Lemma new_quality_le a w params q0 q :
  new_quality a w params q0 = Some q -> (q <= max_quality a)%Z.
Proof.
  unfold new_quality. destruct (Dict.get String.eqb "quality" params) as [v|].
  - destruct (py_int w v) as [n|]; [|discriminate]. intros [= <-]. apply Z.le_min_l.
  - intros [= <-]. apply Z.le_min_l.
Qed.

Lemma qual_inv_event Q e s : enc_le Q e -> qual_inv Q s -> qual_inv Q (with_event e s).
Proof.
  intros He [H1 H2]. split; [exact H1|]. simpl. apply Forall_app. split; [exact H2|].
  now constructor.
Qed.

Lemma qual_inv_remove Q addr s :
  qual_inv Q s ->
  qual_inv Q (with_cur (set_clients (Dict.remove addr_eqb addr (ep_clients (cur s)))) s).
Proof.
  intros [H1 H2]. split; [|exact H2]. intros x Hx. apply H1. simpl in Hx.
  eapply In_remove; eauto.
Qed.

Lemma qual_inv_set Q addr c s :
  (c_headers_sent c = true -> (c_quality c <= Q)%Z) ->
  qual_inv Q s ->
  qual_inv Q (with_cur (fun e => set_clients (Dict.set addr_eqb addr c (ep_clients e)) e) s).
Proof.
  intros Hc [H1 H2]. split; [|exact H2]. intros x Hx. simpl in Hx.
  apply In_set in Hx. destruct Hx as [Hx| ->]; [now apply H1 | exact Hc].
Qed.

Lemma poll_qual a w Q :
  (max_quality a <= Q)%Z -> inv (qual_inv Q) (poll a w).
Proof.
  intros HQ. unfold inv. open_all.
  repeat first [ apply tri_lock_release | apply tri_SERVERS_LOCK_release
               | apply tri_clients_del | tri_step ];
    try (intros ? ?; assumption);
    try (intros ? ?; apply qual_inv_event; [exact I | assumption]);
    try (intros ? ?; apply qual_inv_remove; assumption).
  - intros ? Hs. apply qual_inv_set; [discriminate | assumption].
  - intros ? Hs. apply qual_inv_set; [|assumption]. intros _. simpl.
    match goal with
    | H : new_quality _ _ _ _ = Some _ |- _ => apply new_quality_le in H; lia
    end.
Qed.

Lemma send_frame_qual a w Q fd x :
  (c_headers_sent (snd x) = true -> (c_quality (snd x) <= Q)%Z) ->
  inv (qual_inv Q) (send_frame a w fd x).
Proof.
  intros Hx. destruct x as [addr c]. unfold inv. open_all.
  repeat first [ apply tri_clients_del | tri_step ];
    try (intros ? ?; assumption);
    try (intros ? ?; apply qual_inv_event; [exact I | assumption]);
    try (intros ? ?; apply qual_inv_remove; assumption).
  intros ? Hs. apply qual_inv_set; [exact Hx | assumption].
Qed.

Lemma broadcast_qual a w im Q : inv (qual_inv Q) (broadcast a w im).
Proof.
  apply tri_of_fst. intros s H.
  assert (HR : forall x, In x (receivers_of a w (ep_clients (cur s))) ->
                 (c_quality (snd x) <= Q)%Z).
  { intros x Hx. unfold receivers_of in Hx. apply filter_In in Hx. destruct Hx as [Hx Hr].
    unfold is_receiver in Hr. rewrite !andb_true_iff in Hr.
    destruct Hr as [[Hh _] _]. exact (proj1 H x Hx Hh). }
  unfold broadcast, bind, gets, pure, raise, _jpeg_compress, emit, modify, last_times_set,
    lock_release, SERVERS_LOCK_release, return_.
  destruct (receivers_of a w (ep_clients (cur s))) as [|x R] eqn:ER.
  { destruct (ep_lock (cur s)); simpl; [|split; [assumption|discriminate]].
    destruct (SERVERS_LOCK (mach s)); simpl; split; auto; discriminate. }
  destruct (Dict.get String.eqb (channel a) (ep_last_times (cur s))) as [t|];
    [|simpl; split; [assumption|discriminate]].
  cbv beta iota.
  destruct (PrimFloat.ltb (now w - t)%float (min_delay a)).
  { destruct (ep_lock (cur s)); simpl; [|split; [assumption|discriminate]].
    destruct (SERVERS_LOCK (mach s)); simpl; split; auto; discriminate. }
  destruct (max_quality_of (x :: R)) as [q|] eqn:Eq;
    [|simpl; split; [assumption|discriminate]].
  assert (Hq : (q <= Q)%Z).
  { unfold max_quality_of in Eq. apply max_list_spec in Eq. destruct Eq as [Hin _].
    apply in_map_iff in Hin. destruct Hin as (y & <- & Hy). now apply HR. }
  destruct (backend w im q) as [jpeg|].
  2:{ simpl. split; [|discriminate]. now apply qual_inv_event. }
  unfold bind, pure, modify. cbv beta iota.
  assert (H0 : qual_inv Q (with_event (EvEncode q true) s)) by now apply qual_inv_event.
  assert (HL : inv (qual_inv Q)
                 (for_each (x :: R)
                    (send_frame a w (frame_data_of (sheaders_of (headers a)) jpeg)))).
  { apply tri_for_each. intros y Hy. apply send_frame_qual. intros _. now apply HR. }
  specialize (HL _ H0).
  destruct (for_each (x :: R) _ (with_event (EvEncode q true) s)) as [s1 [[]| |e|]];
    simpl; try contradiction; (split; [|discriminate]); exact HL.
Qed.

Lemma body_qual a w Q : (max_quality a <= Q)%Z -> inv (qual_inv Q) (body a w).
Proof.
  intros HQ. unfold inv, body.
  apply tri_bind; [unfold init_channel, last_times_set; keep_go | intros _].
  destruct (frame a) as [im|].
  - apply tri_bind; [now apply poll_qual | intros _]. apply broadcast_qual.
  - unfold shutdown, close, emit.
    repeat first [ apply tri_lock_release | apply tri_SERVERS_LOCK_release | tri_step ];
      try (intros ? ?; assumption);
      try (intros ? ?; apply qual_inv_event; [exact I | assumption]).
Qed.

Lemma listen_enc_le Q evs :
  Forall (fun e => is_listen_event e = true) evs -> Forall (enc_le Q) evs.
Proof. apply Forall_impl. intros [] H; try discriminate; exact I. Qed.

Lemma handle_frame_qual a w m Q :
  (max_quality a <= Q)%Z ->
  qual_machine Q m ->
  qual_machine Q (machine_of (handle_frame a w m))
  /\ Forall (enc_le Q) (events_of (handle_frame a w m)).
Proof.
  intros HQ Hm.
  destruct (handle_frame_shapes a w m) as [(s0 & HL & HE & ->)|(E & Hq & _)].
  2:{ split; [|now apply listen_enc_le]. unfold qual_machine. now rewrite E. }
  unfold machine_of, events_of. simpl.
  pose proof (@enter_entered a w _ s0 HE) as (Em & Ec & _). simpl in Em, Ec.
  destruct (@entered_state a w m s0 HL HE) as (_ & _ & _ & Hev & _).
  assert (Hreg : forall kv, In kv (SERVERS (mach s0)) -> qual_ok Q (snd kv)).
  { intros kv. rewrite Em.
    destruct (Dict.get addr_eqb (local_address a) (SERVERS m)); simpl; [apply Hm|].
    intros Hin. apply In_set in Hin. destruct Hin as [Hin| ->]; [now apply Hm|].
    intros x []. }
  assert (H0 : qual_inv Q s0).
  { split; [|now apply listen_enc_le]. rewrite Ec.
    destruct (Dict.get addr_eqb (local_address a) (SERVERS m)) as [ep|] eqn:G; simpl.
    - apply get_In in G. destruct G as (k & _ & Hin). exact (Hm _ Hin).
    - intros x []. }
  pose proof (proj2 (@tri_fst _ _ _ _ _ (@body_qual a w Q HQ) H0)) as [HF HO].
  split; [|exact HO].
  unfold qual_machine. apply store_forall.
  - intros kv Hin. simpl in Hin.
    pose proof (@body_reg_incl a w (SERVERS (mach s0))) as HR.
    apply (proj2 (@tri_fst _ _ _ _ _ HR (incl_refl _))) in Hin. now apply Hreg.
  - exact HF.
Qed.

Lemma run_qual Q calls :
  forall m,
    (forall a w, In (a, w) calls -> (max_quality a <= Q)%Z) ->
    qual_machine Q m ->
    qual_machine Q (fst (run calls m)) /\ Forall (enc_le Q) (snd (run calls m)).
Proof.
  induction calls as [|[a w] calls IH]; intros m HQ Hm; simpl.
  - split; [exact Hm | constructor].
  - destruct (@handle_frame_qual a w m Q) as [H1 H2]; [apply (HQ a w); now left | exact Hm |].
    unfold machine_of, events_of in H1, H2.
    destruct (handle_frame a w m) as [[m1 evs] o]. simpl in H1, H2.
    destruct (IH m1) as [H3 H4]; [intros a' w' Hin'; apply (HQ a' w'); now right | exact H1 |].
    destruct (run calls m1) as [m2 evs']. simpl in *.
    split; [exact H3|]. apply Forall_app. now split.
Qed.

(** X8.  The encoder is never asked for more than max_quality.  In any
    sequence of calls on the freshly imported module whose max_quality
    arguments are all at most Q, every call of the encoder, whether it
    answers or raises, is made at a quality of at most Q: the quality of a
    client is clamped at line 192 before headers_sent is set at line 195,
    and only clients with headers_sent count at line 211 (default_quality,
    which is not clamped, is never used for encoding). *)
Theorem quality_capped (calls : list Call) (Q q : Z) (ok : bool) :
  (forall a w, In (a, w) calls -> (max_quality a <= Q)%Z) ->
  In (EvEncode q ok) (snd (run calls boot)) ->
  (q <= Q)%Z.
Proof.
  intros HQ Hin.
  destruct (@run_qual Q calls boot HQ) as [_ H]; [intros kv []|].
  rewrite Forall_forall in H. exact (H _ Hin).
Qed.

(** Three calls with max_quality=95; the viewer asked for quality 50. *)
Lemma quality_capped_witness :
  let calls := [ (Sample.args Sample.frame0, Sample.connecting 100);
                 (Sample.args Sample.frame0, Sample.talking 100.005 Sample.request);
                 (Sample.args Sample.frame0, Sample.quiet 100.030) ] in
  In (EvEncode 50 true) (snd (run calls boot)) /\ (50 <= 95)%Z.
Proof.
  assert (H : In (EvEncode 50 true)
                (snd (run [ (Sample.args Sample.frame0, Sample.connecting 100);
                            (Sample.args Sample.frame0, Sample.talking 100.005 Sample.request);
                            (Sample.args Sample.frame0, Sample.quiet 100.030) ] boot))).
  { vm_compute. tauto. }
  split; [exact H|].
  refine (@quality_capped _ 95 50 true _ H).
  intros a w [E|[E|[E|[]]]]; injection E as <- _; discriminate.
Defined.

(** *** The request loop as a whole, lines 168-203 *)

(** One client of the loop: whatever it sends and whatever fails, the
    step completes, and only the record of this client changes. *)
Lemma handle_request_completes a w r addr c s :
  Dict.mem addr_eqb addr (ep_clients (cur s)) = true ->
  exists s',
    handle_request a w r (addr, c) s = (s', Val tt)
    /\ mach s' = mach s
    /\ ret s' = ret s
    /\ ep_last_times (cur s') = ep_last_times (cur s)
    /\ ep_lock (cur s') = ep_lock (cur s)
    /\ (forall k, k <> addr ->
          Dict.get addr_eqb k (ep_clients (cur s')) = Dict.get addr_eqb k (ep_clients (cur s))).
Proof.
  intros Hm.
  assert (Hdrop : exists s',
             (with_cur (set_clients (Dict.remove addr_eqb addr (ep_clients (cur s)))) s,
              @Val unit tt) = (s', Val tt)
             /\ mach s' = mach s /\ ret s' = ret s
             /\ ep_last_times (cur s') = ep_last_times (cur s)
             /\ ep_lock (cur s') = ep_lock (cur s)
             /\ (forall k, k <> addr ->
                   Dict.get addr_eqb k (ep_clients (cur s'))
                   = Dict.get addr_eqb k (ep_clients (cur s)))).
  { eexists. split; [reflexivity|]. simpl. repeat split.
    intros k Hk. apply get_remove_other; [apply addr_eqb_eq | assumption]. }
  destruct (existsb (Nat.eqb (c_sock c)) r) eqn:Hr.
  2:{ unfold handle_request. rewrite Hr. exists s. unfold pure. auto 10. }
  destruct (recv_decode w (c_sock c)) as [data|] eqn:Hd.
  2:{ rewrite (@handle_request_dropped a w r addr c s Hr Hm); [exact Hdrop|].
      unfold protocol_error. now rewrite Hd. }
  destruct (string_dec data EmptyString) as [He|Hne].
  { rewrite (@handle_request_dropped a w r addr c s Hr Hm); [exact Hdrop|].
    unfold protocol_error. rewrite Hd. now left. }
  destruct (wants_index a (GET_RE_findall data)) eqn:Hi.
  { assert (Hl : (Py.len data =? 0)%Z = false).
    { destruct (Py.len data =? 0)%Z eqn:E; [|reflexivity].
      apply len_zero in E. contradiction. }
    unfold handle_request, try_except, serve_request. rewrite Hr, Hd, Hl, Hi.
    unfold bind, gets, send_str, emit, modify, close, pure, raise, clients_del, Dict.del.
    simpl. rewrite Hm. eexists. split; [reflexivity|]. simpl. repeat split.
    intros k Hk. apply get_remove_other; [apply addr_eqb_eq | assumption]. }
  destruct (negotiated a w c (params_of data)) as [c'|] eqn:Hn.
  - rewrite (@handle_request_served a w r addr c s data c' Hr Hd Hne Hi Hn).
    eexists. split; [reflexivity|]. simpl. repeat split.
    intros k Hk. destruct (send_ok w (sendall a) (c_sock c) STREAM_HEADER).
    + apply get_set_other; [apply addr_eqb_eq | assumption].
    + rewrite get_remove_other by (apply addr_eqb_eq || assumption).
      apply get_set_other; [apply addr_eqb_eq | assumption].
  - rewrite (@handle_request_dropped a w r addr c s Hr Hm); [exact Hdrop|].
    unfold protocol_error. rewrite Hd. right. auto.
Qed.

Lemma request_steps_complete a w r l :
  forall s,
    NoDup (map fst l) ->
    (forall x, In x l -> Dict.mem addr_eqb (fst x) (ep_clients (cur s)) = true) ->
    exists s',
      for_each l (handle_request a w r) s = (s', Val tt)
      /\ mach s' = mach s
      /\ ret s' = ret s
      /\ ep_last_times (cur s') = ep_last_times (cur s)
      /\ ep_lock (cur s') = ep_lock (cur s)
      /\ (forall k,
            (forall c, In (k, c) l -> existsb (Nat.eqb (c_sock c)) r = false) ->
            Dict.get addr_eqb k (ep_clients (cur s'))
            = Dict.get addr_eqb k (ep_clients (cur s))).
Proof.
  induction l as [|[addr c] l IH]; intros s Hnd Hin.
  - exists s. unfold for_each, pure. auto 10.
  - cbn [map fst] in Hnd. inversion Hnd as [|? ? Hx Hl]; subst.
    destruct (@handle_request_completes a w r addr c s) as (s1 & E1 & M1 & R1 & T1 & L1 & K1).
    { apply (Hin (addr, c)). now left. }
    destruct (IH s1 Hl) as (s2 & E2 & M2 & R2 & T2 & L2 & K2).
    { intros x Hxl.
      assert (Hne : fst x <> addr).
      { intros Heq. apply Hx. rewrite <- Heq. now apply in_map. }
      unfold Dict.mem. rewrite (K1 _ Hne). apply (Hin x). now right. }
    exists s2. cbn [for_each]. unfold bind. rewrite E1, E2.
    split; [reflexivity|]. rewrite M2, R2, T2, L2. repeat split; auto.
    intros k Hk. rewrite K2.
    + destruct (addr_eqb k addr) eqn:Ek.
      * apply addr_eqb_eq in Ek. subst k.
        assert (Hr : existsb (Nat.eqb (c_sock c)) r = false) by (apply Hk; now left).
        unfold handle_request in E1. rewrite Hr in E1. now injection E1 as <-.
      * apply K1. intros ->. now rewrite addr_eqb_refl in Ek.
    + intros c0 Hc0. apply Hk. now right.
Qed.

Lemma In_get {V} (d : Dict.t Addr V) k v :
  NoDup (Dict.keys d) -> In (k, v) d -> Dict.get addr_eqb k d = Some v.
Proof.
  induction d as [|[k' v'] d IH]; simpl; [intros _ []|].
  intros H. inversion H as [|? ? Hn Hd]; subst.
  intros [[= -> ->]|Hin].
  - now rewrite addr_eqb_refl.
  - destruct (addr_eqb k k') eqn:E; [|auto].
    apply addr_eqb_eq in E. subst. exfalso. apply Hn. now apply (in_map fst) in Hin.
Qed.

(** X9.  One client cannot stop the request loop.  When the select of
    line 168 returns, the loop of lines 169-203 runs to its end for every
    client: a read that raises, a closed connection, a value int() or
    float() rejects, a send or a close that raises are all absorbed at
    line 202 or handled inside the try, and the del of lines 189 and 203
    always finds its key.  The loop changes no record but those of the
    clients that had data to read, adds no client, and leaves the address
    list and last_times as they were. *)
Theorem request_loop_completes (a : Args) (w : World) (s : St) (r : list Sock) :
  clients_distinct s ->
  select_clients w (map c_sock (Dict.values (ep_clients (cur s)))) = Some r ->
  exists s',
    request_loop a w s = (s', Val tt)
    /\ mach s' = mach s
    /\ ret s' = ret s
    /\ ep_last_times (cur s') = ep_last_times (cur s)
    /\ (forall addr c, In (addr, c) (ep_clients (cur s)) ->
          existsb (Nat.eqb (c_sock c)) r = false ->
          Dict.get addr_eqb addr (ep_clients (cur s')) = Some c)
    /\ (forall addr, Dict.get addr_eqb addr (ep_clients (cur s)) = None ->
          Dict.get addr_eqb addr (ep_clients (cur s')) = None).
Proof.
  intros Hd Hsel. unfold clients_distinct in Hd. rewrite distinct_NoDup in Hd.
  unfold request_loop, bind, gets. rewrite Hsel.
  destruct (@request_steps_complete a w r (ep_clients (cur s)) s Hd)
    as (s' & E & M1 & R1 & T1 & _ & K).
  { intros [k v] Hin. eapply In_mem; [apply addr_eqb_eq | exact Hin]. }
  exists s'. split; [exact E|]. repeat split; auto.
  - intros addr c Hin Hr. rewrite K; [exact (@In_get _ _ addr c Hd Hin)|].
    intros c0 Hin0. 
    pose proof (@In_get _ _ addr c Hd Hin) as G1.
    pose proof (@In_get _ _ addr c0 Hd Hin0) as G2.
    congruence.
  - intros addr Hg. rewrite K; [exact Hg|].
    intros c0 Hin0. pose proof (@In_get _ _ addr c0 Hd Hin0). congruence.
Qed.

(** The one client has closed its connection; the loop drops it and
    completes. *)
Lemma request_loop_completes_witness :
  let a := Sample.args Sample.frame0 in
  let w := Sample.talking 100.060 EmptyString in
  clients_distinct Sample.in_loop
  /\ exists s',
       request_loop a w Sample.in_loop = (s', Val tt)
       /\ ret s' = [Sample.peer]
       /\ ep_last_times (cur s') = [("0", 100.005%float)].
Proof.
  split; [reflexivity|].
  destruct (@request_loop_completes (Sample.args Sample.frame0)
              (Sample.talking 100.060 EmptyString) Sample.in_loop [1%nat]
              eq_refl eq_refl) as (s' & H1 & _ & H2 & H3 & _).
  exists s'. auto.
Defined.

(** *** The accept, lines 157-162 *)

Lemma after_accept_no_accept a w im e0 :
  inv (events_ext (fun e => is_accept_event e = false) e0)
    (cs <- gets (fun s => ep_clients (cur s)) ;;
     match cs with
     | [] => lock_release ;; SERVERS_LOCK_release ;; return_
     | _ :: _ => modify (with_ret (Dict.keys cs)) ;; request_loop a w
     end ;; broadcast a w im).
Proof.
  unfold inv. open_all. keep_go;
    try (intros ? ?; apply events_ext_event; [reflexivity | assumption]).
Qed.

Lemma shutdown_no_accept a w e0 :
  inv (events_ext (fun e => is_accept_event e = false) e0) (shutdown a w).
Proof.
  unfold inv. open_all. keep_go;
    try (intros ? ?; apply events_ext_event; [reflexivity | assumption]).
Qed.

Lemma filter_accept_none evs :
  Forall (fun e => is_accept_event e = false) evs -> filter is_accept_event evs = [].
Proof.
  induction 1 as [|e evs He _ IH]; simpl; [reflexivity|]. now rewrite He.
Qed.

Lemma listen_not_accept evs :
  Forall (fun e => is_listen_event e = true) evs -> filter is_accept_event evs = [].
Proof.
  intros H. apply filter_accept_none. revert H. apply Forall_impl.
  intros [] H; try discriminate; reflexivity.
Qed.

Lemma body_accepts a w s :
  filter is_accept_event (events s) = [] ->
  filter is_accept_event (events (fst (body a w s)))
  = match frame a, select_server w, accept w with
    | Some _, Some true, Some remote => [EvAccept (next_sock (mach s)) remote]
    | _, _, _ => []
    end.
Proof.
  intros H0. unfold body.
  destruct (init_channel_run a w s) as (lt & E1 & _).
  rewrite (@bind_val _ _ _ _ _ _ _ _ E1).
  set (s1 := with_cur (set_last_times lt) s).
  assert (Hext : forall e0 (c : M St unit) s2 evs,
             inv (events_ext (fun e => is_accept_event e = false) e0) c ->
             events s2 = e0 ->
             filter is_accept_event e0 = evs ->
             filter is_accept_event (events (fst (c s2))) = evs).
  { intros e0 c s2 evs Hc He Hf.
    assert (H2 : events_ext (fun e => is_accept_event e = false) e0 s2).
    { exists []. split; [now rewrite app_nil_r | constructor]. }
    destruct (proj2 (@tri_fst _ _ _ _ _ Hc H2)) as (evs' & -> & HF).
    now rewrite filter_app, (filter_accept_none HF), app_nil_r. }
  destruct (frame a) as [im|].
  2:{ apply (Hext (events s1)); [apply shutdown_no_accept | reflexivity | exact H0]. }
  unfold poll. rewrite bind_assoc.
  pose proof (accept_pending_run a w s1) as E2.
  destruct (select_server w) as [[]|].
  - destruct (accept w) as [remote|].
    + rewrite (@bind_val _ _ _ _ _ _ _ _ E2). cbv beta.
      match goal with
      | |- filter _ (events (fst (?c ?s2))) = _ =>
          apply (Hext (events s2) c s2);
            [apply after_accept_no_accept | reflexivity |]
      end.
      simpl. now rewrite filter_app, H0.
    + now rewrite (@bind_raise _ _ _ _ _ _ _ _ E2).
  - rewrite (@bind_val _ _ _ _ _ _ _ _ E2). cbv beta.
    match goal with
    | |- filter _ (events (fst (?c ?s2))) = _ =>
        apply (Hext (events s2) c s2);
          [apply after_accept_no_accept | reflexivity | exact H0]
    end.
  - now rewrite (@bind_raise _ _ _ _ _ _ _ _ E2).
Qed.

(** X10.  A call accepts at most one connection.  It accepts exactly
    one when it carries a frame, gets past line 145, and the select of
    line 157 finds the listening socket readable (and accept does not
    raise); a shutdown call, and a call that does not get past line 145,
    accept none.  The connections that queue up in the backlog of
    listen(5) are taken one per call. *)
Theorem one_accept_per_call (a : Args) (w : World) (m : Machine) :
  (List.length (filter is_accept_event (events_of (handle_frame a w m))) <= 1)%nat
  /\ (frame a = None -> filter is_accept_event (events_of (handle_frame a w m)) = [])
  /\ (frame a <> None -> enterable a w m ->
      forall remote, select_server w = Some true -> accept w = Some remote ->
      exists sock,
        filter is_accept_event (events_of (handle_frame a w m)) = [EvAccept sock remote]).
Proof.
  assert (H12 : (List.length (filter is_accept_event (events_of (handle_frame a w m))) <= 1)%nat
                /\ (frame a = None ->
                    filter is_accept_event (events_of (handle_frame a w m)) = [])).
  { destruct (handle_frame_shapes a w m) as [(s0 & HL & HE & E)|(_ & HQ & _)].
    2:{ rewrite (listen_not_accept HQ). split; [simpl; lia | reflexivity]. }
    rewrite E. unfold events_of. simpl.
    destruct (@entered_state a w m s0 HL HE) as (_ & _ & _ & Hq & _).
    rewrite (@body_accepts a w s0 (listen_not_accept Hq)). split.
    - destruct (frame a); [|simpl; lia].
      destruct (select_server w) as [[]|]; simpl; try lia.
      destruct (accept w); simpl; lia.
    - now intros ->. }
  split; [exact (proj1 H12)|]. split; [exact (proj2 H12)|].
  intros Hf Hen remote Hs Ha.
  destruct (@enterable_enters a w m Hen) as (s0 & HE).
  rewrite (@handle_frame_entered a w m s0 (proj1 Hen) HE). unfold events_of. simpl.
  destruct (@entered_state a w m s0 (proj1 Hen) HE) as (_ & _ & _ & Hq & _).
  rewrite (@body_accepts a w s0 (listen_not_accept Hq)), Hs, Ha.
  destruct (frame a); [eauto | congruence].
Qed.

(** A connection is pending on the first call for the port. *)
Lemma one_accept_per_call_witness :
  let a := Sample.args Sample.frame0 in
  let w := Sample.connecting 100 in
  enterable a w boot
  /\ exists sock,
       filter is_accept_event (events_of (handle_frame a w boot)) = [EvAccept sock Sample.peer].
Proof.
  assert (H : enterable (Sample.args Sample.frame0) (Sample.connecting 100) boot)
    by (split; reflexivity).
  split; [exact H|].
  exact (proj2 (proj2 (@one_accept_per_call (Sample.args Sample.frame0)
                         (Sample.connecting 100) boot))
           ltac:(discriminate) H Sample.peer eq_refl eq_refl).
Defined.

(** *** What a call leaves alone *)

(** X11.  A call works on one endpoint and on one channel.  Whatever it
    does, and the shutdown sentinel included, it leaves the registry
    entry of every other (ip, port) exactly as it was: its clients, its
    clocks, its lock.  And a call with a frame leaves the time of the
    last broadcast of every other channel of its own endpoint as it
    was, so the rate limit of one channel is never consumed by the
    frames of another. *)
Theorem call_is_local (a : Args) (w : World) (m : Machine) :
  (forall k, k <> local_address a ->
     Dict.get addr_eqb k (SERVERS (machine_of (handle_frame a w m)))
     = Dict.get addr_eqb k (SERVERS m))
  /\ (forall c t,
        frame a <> None ->
        channel a <> c ->
        served_at (local_address a) c t m ->
        served_at (local_address a) c t (machine_of (handle_frame a w m))).
Proof.
  split.
  - intros k Hk. now apply handle_frame_others.
  - intros c t Hf Hc Hs.
    apply (@keeps_served a w m (local_address a) c t Hf Hs). intros _ E. contradiction.
Qed.

(** *** A request that names no delay, line 193 *)

(** X12.  Line 193 applies the factor 1e-3 to the default of params.get
    as well.  When a stored client sends a request that is served and
    carries no delay parameter, its stored delay d, which is in seconds,
    is replaced by max(min_delay, d * 1e-3): the delay it had negotiated
    is divided by a thousand and floored to min_delay, instead of being
    kept. *)
Theorem delay_rescaled (a : Args) (w : World) (r : list Sock)
        (addr : Addr) (c : Client) (s : St) (data : string) :
  Dict.get addr_eqb addr (ep_clients (cur s)) = Some c ->
  existsb (Nat.eqb (c_sock c)) r = true ->
  recv_decode w (c_sock c) = Some data ->
  data <> EmptyString ->
  wants_index a (GET_RE_findall data) = false ->
  Dict.get String.eqb "delay" (params_of data) = None ->
  (forall v, Dict.get String.eqb "quality" (params_of data) = Some v -> py_int w v <> None) ->
  send_ok w (sendall a) (c_sock c) STREAM_HEADER = true ->
  exists s' c',
    handle_request a w r (addr, c) s = (s', Val tt)
    /\ Dict.get addr_eqb addr (ep_clients (cur s')) = Some c'
    /\ c_delay c' = Py.max (min_delay a) (c_delay c * 1e-3)%float
    /\ c_headers_sent c' = true.
Proof.
  intros Hg Hr Hd Hne Hi Hdel Hq Hok.
  assert (Hn : exists q,
             negotiated a w c (params_of data)
             = Some (mkClient (c_sock c) (new_chan (params_of data) (c_chan c)) q
                       (Py.max (min_delay a) (c_delay c * 1e-3)%float) (c_last_sent c) true)).
  { unfold negotiated, new_quality, new_delay. rewrite Hdel.
    destruct (Dict.get String.eqb "quality" (params_of data)) as [v|] eqn:E.
    - specialize (Hq v eq_refl). destruct (py_int w v) as [n|]; [|congruence].
      simpl. eauto.
    - eauto. }
  destruct Hn as (q & Hn).
  rewrite (@handle_request_served a w r addr c s data _ Hr Hd Hne Hi Hn). cbv zeta.
  rewrite Hok. do 2 eexists. split; [reflexivity|]. simpl.
  split; [apply get_set_same, addr_eqb_refl|]. split; reflexivity.
Qed.

(** The viewer, who had negotiated 20 ms, asks for another quality and
    names no delay: its delay is now min_delay, 10 ms. *)
Lemma delay_rescaled_witness :
  let a := Sample.args Sample.frame0 in
  let w := Sample.talking 100.060 "GET /?quality=70 HTTP/1.1" in
  c_delay Sample.viewer = 0.02%float
  /\ exists s' c',
       handle_request a w [1%nat] (Sample.peer, Sample.viewer) Sample.in_loop = (s', Val tt)
       /\ Dict.get addr_eqb Sample.peer (ep_clients (cur s')) = Some c'
       /\ c_delay c' = 0.01%float.
Proof.
  split; [reflexivity|].
  destruct (@delay_rescaled (Sample.args Sample.frame0)
              (Sample.talking 100.060 "GET /?quality=70 HTTP/1.1") [1%nat]
              Sample.peer Sample.viewer Sample.in_loop "GET /?quality=70 HTTP/1.1"
              eq_refl eq_refl eq_refl ltac:(discriminate) eq_refl eq_refl)
    as (s' & c' & H1 & H2 & H3 & _);
    [intros v [= <-]; discriminate | reflexivity |].
  exists s', c'. split; [exact H1|]. split; [exact H2|]. exact H3.
Defined.

(** *** The two regular expressions, lines 67-68, 175 and 191 *)

Lemma span_spec p s :
  s = fst (span p s) ++ snd (span p s)
  /\ str_all p (fst (span p s)) = true
  /\ match snd (span p s) with
     | EmptyString => True
     | String c _ => p c = false
     end.
Proof.
  induction s as [|c s IH]; simpl; [auto|].
  destruct (p c) eqn:E.
  - destruct (span p s) as [u v]. simpl in *. destruct IH as (H1 & H2 & H3).
    rewrite E, H2. split; [now rewrite <- H1 | auto].
  - simpl. auto.
Qed.

Lemma span_app p u s :
  str_all p u = true ->
  match s with EmptyString => True | String c _ => p c = false end ->
  span p (u ++ s) = (u, s).
Proof.
  intros Hu Hs. induction u as [|c u IH]; simpl in *.
  - destruct s as [|c r]; simpl; [reflexivity|]. now rewrite Hs.
  - apply andb_true_iff in Hu. destruct Hu as [-> Hu]. now rewrite (IH Hu).
Qed.

Section FindallFacts.
Variable G : Type.
Variable match_at : string -> option (G * nat).

Lemma findall_from_Forall (P : G -> Prop) :
  (forall s g n, match_at s = Some (g, n) -> P g) ->
  forall s skip, Forall P (findall_from match_at skip s).
Proof.
  intros H. induction s as [|c s IH]; intros skip; simpl; [constructor|].
  destruct skip as [|n]; [|apply IH].
  destruct (match_at (String c s)) as [[g n]|] eqn:E; [|apply IH].
  constructor; [eapply H; eauto | apply IH].
Qed.

(** The characters of a match are stepped over. *)
Lemma findall_from_skip u s :
  findall_from match_at (String.length u) (u ++ s) = findall_from match_at 0 s.
Proof.
  induction u as [|c u IH]; simpl; [|exact IH].
  destruct s; reflexivity.
Qed.

Lemma findall_from_hit c s g n :
  match_at (String c s) = Some (g, n) ->
  findall_from match_at 0 (String c s) = g :: findall_from match_at (n - 1) s.
Proof. simpl. now intros ->. Qed.

Lemma findall_from_miss c s :
  match_at (String c s) = None ->
  findall_from match_at 0 (String c s) = findall_from match_at 0 s.
Proof. simpl. now intros ->. Qed.

End FindallFacts.

Lemma append_assoc' (x y z : string) : (x ++ y) ++ z = x ++ (y ++ z).
Proof. induction x as [|c x IH]; simpl; [reflexivity | now rewrite IH]. Qed.

Lemma length_append' (x y : string) :
  String.length (x ++ y) = (String.length x + String.length y)%nat.
Proof. induction x as [|c x IH]; simpl; [reflexivity | now rewrite IH]. Qed.

Lemma substring_all s : substring 0 (String.length s) s = s.
Proof. induction s as [|c s IH]; simpl; [reflexivity | now rewrite IH]. Qed.

Lemma str_all_app p x y : str_all p (x ++ y) = str_all p x && str_all p y.
Proof. induction x as [|c x IH]; simpl; [reflexivity | now rewrite IH, andb_assoc]. Qed.

Lemma str_all_impl (p q : ascii -> bool) s :
  (forall c, p c = true -> q c = true) -> str_all p s = true -> str_all q s = true.
Proof.
  intros H. induction s as [|c s IH]; simpl; [reflexivity|].
  rewrite !andb_true_iff. intros [H1 H2]. split; auto.
Qed.

Lemma word_not_space c : is_word c = true -> negb (is_space c) = true.
Proof.
  destruct c as [[] [] [] [] [] [] [] []]; vm_compute; intros H;
    first [reflexivity | discriminate H].
Qed.

Lemma is_word_str_all s : is_word_str s = true -> str_all is_word s = true.
Proof. destruct s; [discriminate | auto]. Qed.

(** What one attempt of each expression can yield. *)
Lemma GET_RE_match_spec s path n :
  GET_RE_match s = Some (path, n) ->
  str_all (fun c => negb (is_space c)) path = true.
Proof.
  unfold GET_RE_match. destruct (String.prefix "GET /" s); [|discriminate].
  intros [= <- _]. apply span_spec.
Qed.

Lemma PARAM_RE_match_spec s k v n :
  PARAM_RE_match s = Some ((k, v), n) ->
  is_word_str k = true /\ is_word_str v = true.
Proof.
  unfold PARAM_RE_match.
  pose proof (span_spec is_word s) as (_ & Hk & _).
  destruct (span is_word s) as [k0 r]. simpl in Hk.
  destruct k0 as [|c0 k0]; [discriminate|].
  destruct r as [|c r]; [discriminate|].
  destruct (Ascii.eqb c "="); [|discriminate].
  pose proof (span_spec is_word r) as (_ & Hv & _).
  destruct (fst (span is_word r)) as [|c1 v0]; [discriminate|].
  intros [= <- <- _]. split; assumption.
Qed.

Lemma get_of_pairs_In (l : list (string * string)) k v :
  forall d,
    Dict.get String.eqb k (fold_left (fun d kv => Dict.set String.eqb (fst kv) (snd kv) d) l d)
    = Some v ->
    In (k, v) l \/ Dict.get String.eqb k d = Some v.
Proof.
  induction l as [|[k' v'] l IH]; intros d; simpl; [auto|].
  intros H. apply IH in H. destruct H as [H|H]; [left; now right|].
  destruct (String.eqb k k') eqn:E.
  - apply String.eqb_eq in E. subst.
    rewrite get_set_same in H by apply String.eqb_refl. injection H as ->. left. now left.
  - rewrite get_set_other in H; [now right | apply String.eqb_eq |].
    intros ->. now rewrite String.eqb_refl in E.
Qed.

(** X13.  What a request can carry.  A path found by GET_RE holds no
    whitespace.  Every key and every value of the dict built at line 191
    is a non-empty run of the characters 0-9, a-z, A-Z and underscore: no
    sign, no decimal point and no blank reaches int() or float() at lines
    192-193, a value is cut at the first other character, and a channel
    name with any other character cannot be asked for. *)
Theorem request_captures (data : string) :
  Forall (fun path => str_all (fun c => negb (is_space c)) path = true) (GET_RE_findall data)
  /\ Forall (fun kv => is_word_str (fst kv) = true /\ is_word_str (snd kv) = true)
       (PARAM_RE_findall data)
  /\ forall k v, Dict.get String.eqb k (params_of data) = Some v ->
       is_word_str k = true /\ is_word_str v = true.
Proof.
  assert (HP : Forall (fun kv => is_word_str (fst kv) = true /\ is_word_str (snd kv) = true)
                 (PARAM_RE_findall data)).
  { apply findall_from_Forall. intros s [k v] n H. exact (PARAM_RE_match_spec _ H). }
  split; [|split; [exact HP|]].
  - apply findall_from_Forall. intros s g n H. exact (GET_RE_match_spec _ H).
  - intros k v H. unfold params_of, Dict.of_pairs in H.
    apply get_of_pairs_In in H. destruct H as [H|H]; [|discriminate].
    rewrite Forall_forall in HP. exact (HP _ H).
Qed.

Lemma GET_RE_match_hit s :
  GET_RE_match ("GET /" ++ s)
  = Some (fst (span (fun c => negb (is_space c)) s),
          5 + String.length (fst (span (fun c => negb (is_space c)) s)))%nat.
Proof.
  unfold GET_RE_match. simpl. rewrite Nat.sub_0_r, substring_all.
  now destruct s.
Qed.

(** GET_RE on a buffer that starts with the literal: the first path is
    the longest run without whitespace, and the search goes on behind
    it. *)
Lemma GET_RE_findall_GET s :
  GET_RE_findall ("GET /" ++ s)
  = fst (span (fun c => negb (is_space c)) s)
    :: GET_RE_findall (snd (span (fun c => negb (is_space c)) s)).
Proof.
  unfold GET_RE_findall, findall.
  pose proof (GET_RE_match_hit s) as Hm.
  pose proof (span_spec (fun c => negb (is_space c)) s) as (Hs & _).
  destruct (span (fun c => negb (is_space c)) s) as [path rest]. cbn [fst snd] in *.
  change ("GET /" ++ s) with (String "G" ("ET /" ++ s)) in *.
  rewrite (findall_from_hit _ _ _ Hm). f_equal.
  change (5 + String.length path - 1)%nat with (String.length ("ET /" ++ path)).
  rewrite Hs at 1.
  change ("ET /" ++ path ++ rest) with (("ET /" ++ path) ++ rest).
  apply findall_from_skip.
Qed.

(** X14.  The request line.  In a buffer that starts with GET, a blank, a
    slash and a path without whitespace that is followed by whitespace or
    by the end of the buffer, the first path GET_RE finds is that path,
    whole; the search goes on behind it. *)
Theorem GET_RE_request_line (path rest : string) :
  str_all (fun c => negb (is_space c)) path = true ->
  match rest with EmptyString => True | String c _ => is_space c = true end ->
  GET_RE_findall ("GET /" ++ path ++ rest) = path :: GET_RE_findall rest.
Proof.
  intros Hp Hr. rewrite GET_RE_findall_GET, span_app; [reflexivity | exact Hp |].
  destruct rest; [exact I | now rewrite Hr].
Qed.

Lemma GET_RE_request_line_witness :
  GET_RE_findall ("GET /" ++ "stream?quality=5" ++ " HTTP/1.1")
  = "stream?quality=5" :: GET_RE_findall " HTTP/1.1".
Proof. apply GET_RE_request_line; reflexivity. Defined.

Lemma PARAM_RE_skip c s :
  is_word c = false ->
  PARAM_RE_findall (String c s) = PARAM_RE_findall s.
Proof.
  intros Hc. unfold PARAM_RE_findall, findall. apply findall_from_miss.
  unfold PARAM_RE_match. simpl. now rewrite Hc.
Qed.

(** A word that no equals sign follows holds no parameter. *)
Lemma PARAM_RE_word k s :
  str_all is_word k = true ->
  match s with
  | EmptyString => True
  | String c _ => is_word c = false /\ c <> "="%char
  end ->
  PARAM_RE_findall (k ++ s) = PARAM_RE_findall s.
Proof.
  intros Hk Hs. induction k as [|c0 k IH]; [reflexivity|].
  simpl in Hk. apply andb_true_iff in Hk. destruct Hk as [Hc Hk].
  rewrite <- (IH Hk). unfold PARAM_RE_findall, findall.
  change (String c0 k ++ s) with (String c0 (k ++ s)).
  apply findall_from_miss. unfold PARAM_RE_match.
  change (String c0 (k ++ s)) with (String c0 k ++ s).
  rewrite span_app.
  - destruct s as [|c r]; [reflexivity|]. destruct Hs as [_ Hne].
    destruct (Ascii.eqb c "=") eqn:E; [|reflexivity].
    apply Ascii.eqb_eq in E. contradiction.
  - simpl. now rewrite Hc, Hk.
  - destruct s; [exact I | tauto].
Qed.

(** key=value, followed by a character that is no word character. *)
Lemma PARAM_RE_pair k v s :
  is_word_str k = true ->
  is_word_str v = true ->
  match s with EmptyString => True | String c _ => is_word c = false end ->
  PARAM_RE_findall (k ++ String "=" (v ++ s)) = (k, v) :: PARAM_RE_findall s.
Proof.
  intros Hk Hv Hs.
  destruct k as [|c0 k]; [discriminate|]. destruct v as [|c1 v]; [discriminate|].
  assert (Hm : PARAM_RE_match (String c0 k ++ String "=" (String c1 v ++ s))
               = Some ((String c0 k, String c1 v),
                       String.length (String c0 k) + 1 + String.length (String c1 v))%nat).
  { unfold PARAM_RE_match. rewrite span_app; [|exact Hk|reflexivity].
    change (Ascii.eqb "=" "=") with true. cbv iota.
    rewrite span_app; [reflexivity | exact Hv | exact Hs]. }
  unfold PARAM_RE_findall, findall.
  change (String c0 k ++ String "=" (String c1 v ++ s))
    with (String c0 (k ++ String "=" (String c1 v ++ s))) in *.
  rewrite (findall_from_hit _ _ _ Hm). f_equal.
  replace (String.length (String c0 k) + 1 + String.length (String c1 v) - 1)%nat
    with (String.length (k ++ String "=" (String c1 v))).
  - replace (k ++ String "=" (String c1 v ++ s)) with ((k ++ String "=" (String c1 v)) ++ s).
    + apply findall_from_skip.
    + now rewrite append_assoc'.
  - rewrite length_append'. simpl. lia.
Qed.

(** X15.  The URL of the module docstring (line 19),
    /?channel=<channel>&quality=<q>&delay=<d>, for any three non-empty
    runs of word characters.  The request line GET <url> HTTP/1.1 is never
    taken for an index request, whatever default_chan is; the dict of line
    191 holds exactly the three parameters; and the record line 195 stores
    has the channel asked for, quality min(max_quality, int(q)) and delay
    max(min_delay, float(d) * 1e-3), or the client is dropped when int()
    or float() rejects its value. *)
Theorem documented_url (a : Args) (w : World) (c : Client) (ch q d : string) :
  is_word_str ch = true ->
  is_word_str q = true ->
  is_word_str d = true ->
  let data := "GET /?channel=" ++ ch ++ "&quality=" ++ q ++ "&delay=" ++ d ++ " HTTP/1.1" in
  GET_RE_findall data = ["?channel=" ++ ch ++ "&quality=" ++ q ++ "&delay=" ++ d]
  /\ wants_index a (GET_RE_findall data) = false
  /\ params_of data = [("channel", ch); ("quality", q); ("delay", d)]
  /\ negotiated a w c (params_of data) =
     match py_int w q, py_float w d with
     | Some qi, Some df =>
         Some (mkClient (c_sock c) (Some ch) (Z.min (max_quality a) qi)
                        (Py.max (min_delay a) (df * 1e-3)%float) (c_last_sent c) true)
     | _, _ => None
     end.
Proof.
  intros Hch Hq Hd data.
  assert (HG : GET_RE_findall data = ["?channel=" ++ ch ++ "&quality=" ++ q ++ "&delay=" ++ d]).
  { subst data.
    replace ("GET /?channel=" ++ ch ++ "&quality=" ++ q ++ "&delay=" ++ d ++ " HTTP/1.1")
      with ("GET /" ++ ("?channel=" ++ ch ++ "&quality=" ++ q ++ "&delay=" ++ d) ++ " HTTP/1.1").
    - rewrite GET_RE_findall_GET, span_app; [reflexivity | | reflexivity].
      pose proof (@str_all_impl is_word (fun c => negb (is_space c)) _ word_not_space
                    (is_word_str_all _ Hch)) as Hch'.
      pose proof (@str_all_impl is_word (fun c => negb (is_space c)) _ word_not_space
                    (is_word_str_all _ Hq)) as Hq'.
      pose proof (@str_all_impl is_word (fun c => negb (is_space c)) _ word_not_space
                    (is_word_str_all _ Hd)) as Hd'.
      change ("?channel=" ++ ch ++ "&quality=" ++ q ++ "&delay=" ++ d)
        with ("?channel=" ++ (ch ++ ("&quality=" ++ (q ++ ("&delay=" ++ d))))).
      rewrite !str_all_app, Hch', Hq', Hd'. reflexivity.
    - simpl. rewrite !append_assoc'. simpl. rewrite !append_assoc'. reflexivity. }
  assert (HP : params_of data = [("channel", ch); ("quality", q); ("delay", d)]).
  { unfold params_of. subst data.
    change ("GET /?channel=" ++ ch ++ "&quality=" ++ q ++ "&delay=" ++ d ++ " HTTP/1.1")
      with ("GET" ++ String " " (String "/" (String "?"
              ("channel" ++ String "=" (ch ++ String "&"
                 ("quality" ++ String "=" (q ++ String "&"
                    ("delay" ++ String "=" (d ++ " HTTP/1.1"))))))))).
    rewrite PARAM_RE_word; [|reflexivity | split; [reflexivity | discriminate]].
    rewrite !PARAM_RE_skip by reflexivity.
    rewrite PARAM_RE_pair; [|reflexivity | exact Hch | reflexivity].
    rewrite PARAM_RE_skip by reflexivity.
    rewrite PARAM_RE_pair; [|reflexivity | exact Hq | reflexivity].
    rewrite PARAM_RE_skip by reflexivity.
    rewrite PARAM_RE_pair; [|reflexivity | exact Hd | reflexivity].
    reflexivity. }
  split; [exact HG|]. split; [|split; [exact HP|]].
  - rewrite HG. unfold wants_index, Py.str_in. simpl. reflexivity.
  - rewrite HP. unfold negotiated, new_quality, new_delay, new_chan. simpl.
    destruct (py_int w q); simpl; [|reflexivity].
    destruct (py_float w d); reflexivity.
Qed.

Lemma documented_url_witness :
  let a := Sample.args Sample.frame0 in
  let data := "GET /?channel=" ++ "3" ++ "&quality=" ++ "70" ++ "&delay=" ++ "100" ++ " HTTP/1.1" in
  wants_index a (GET_RE_findall data) = false
  /\ params_of data = [("channel", "3"); ("quality", "70"); ("delay", "100")]
  /\ negotiated a (Sample.quiet 100) Sample.viewer (params_of data)
     = Some (mkClient 1 (Some "3") 70 0.1%float 100.005%float true).
Proof.
  destruct (@documented_url (Sample.args Sample.frame0) (Sample.quiet 100) Sample.viewer
              "3" "70" "100" eq_refl eq_refl eq_refl) as (_ & H2 & H3 & H4).
  split; [exact H2|]. split; [exact H3|]. exact H4.
Defined.

(* ================================================================== *)
(** ** gavin/gavin.py and gavin/client.py *)

Lemma by_value_sound {T} (E : gavin.EnumClass T) v c :
  gavin.by_value E v = Some c -> gavin.value_of E c = v.
Proof.
  unfold gavin.by_value. intros H. apply find_some in H.
  destruct H as [_ H]. now apply Z.eqb_eq in H.
Qed.

Lemma c_int_value_range v :
  (-2147483648 <= client.c_int_value v < 2147483648)%Z.
Proof.
  unfold client.c_int_value.
  pose proof (Z.mod_pos_bound (v + 2147483648) 4294967296 eq_refl). lia.
Qed.

Lemma c_int_value_id v :
  (-2147483648 <= v < 2147483648)%Z -> client.c_int_value v = v.
Proof.
  intros H. unfold client.c_int_value. rewrite Z.mod_small; lia.
Qed.

(** X16.  Looking a member up by its value.  In each of the three Enum
    classes the values are pairwise different, so class(member.value) is
    the member again, and in each of them a lookup that succeeds returns
    a member with the value looked up.  GUIDE_USB_CODE_E(v) raises
    ValueError exactly for the values other than 1, -1, -2, -3, -4, -5, -6
    and -999 (0 among them), GUIDE_USB_VIDEO_MODE_E(v) exactly outside
    0 .. 7, and GUIDE_USB_DEVICE_STATUS_E(v) exactly for the values other
    than 1 and -1.  connect_status_cb receives its argument as a C int:
    it hands a record to the logger exactly when the argument taken
    modulo 2^32 is 1 or -1 (so 2^32 + 1 is a connect), and otherwise
    nothing is logged and no exception reaches the caller. *)
Theorem enum_by_value :
  (forall c, gavin.by_value gavin.CODE_E (gavin.value_of gavin.CODE_E c) = Some c)
  /\ (forall c, gavin.by_value gavin.VIDEO_MODE_E (gavin.value_of gavin.VIDEO_MODE_E c) = Some c)
  /\ (forall c, gavin.by_value gavin.DEVICE_STATUS_E (gavin.value_of gavin.DEVICE_STATUS_E c)
                = Some c)
  /\ (forall v c, gavin.by_value gavin.CODE_E v = Some c -> gavin.value_of gavin.CODE_E c = v)
  /\ (forall v c, gavin.by_value gavin.VIDEO_MODE_E v = Some c
                  -> gavin.value_of gavin.VIDEO_MODE_E c = v)
  /\ (forall v c, gavin.by_value gavin.DEVICE_STATUS_E v = Some c
                  -> gavin.value_of gavin.DEVICE_STATUS_E c = v)
  /\ (forall v, gavin.by_value gavin.CODE_E v = None
                <-> ~ In v [1; -1; -2; -3; -4; -5; -6; -999]%Z)
  /\ (forall v, gavin.by_value gavin.VIDEO_MODE_E v = None
                <-> ~ In v [0; 1; 2; 3; 4; 5; 6; 7]%Z)
  /\ (forall v, gavin.by_value gavin.DEVICE_STATUS_E v = None
                <-> ~ In v [1; -1]%Z)
  /\ (forall v, client.connect_status_cb v = None
                <-> ~ In (client.c_int_value v) [1; -1]%Z)
  /\ (forall v, client.c_int_value v = 1%Z ->
                client.connect_status_cb v = Some "Connect status: DEVICE_CONNECT_OK")
  /\ (forall v, client.c_int_value v = (-1)%Z ->
                client.connect_status_cb v = Some "Connect status: DEVICE_DISCONNECT_OK")
  /\ (forall v, (-2147483648 <= client.c_int_value v < 2147483648)%Z
                /\ ((client.c_int_value v - v) mod 4294967296 = 0)%Z
                /\ ((-2147483648 <= v < 2147483648)%Z -> client.c_int_value v = v))
  /\ client.connect_status_cb 4294967297 = Some "Connect status: DEVICE_CONNECT_OK".
Proof.
  assert (HC : forall v, gavin.by_value gavin.CODE_E v = None
                         <-> ~ In v [1; -1; -2; -3; -4; -5; -6; -999]%Z).
  { intros v. split.
    + intros H Hin. simpl in Hin.
      repeat (destruct Hin as [<-|Hin]; [vm_compute in H; discriminate H|]).
      exact Hin.
    + intros H. destruct (gavin.by_value gavin.CODE_E v) as [c|] eqn:E; [|reflexivity].
      exfalso. apply H. apply by_value_sound in E. subst v.
      destruct c; simpl; tauto. }
  assert (HV : forall v, gavin.by_value gavin.VIDEO_MODE_E v = None
                         <-> ~ In v [0; 1; 2; 3; 4; 5; 6; 7]%Z).
  { intros v. split.
    + intros H Hin. simpl in Hin.
      repeat (destruct Hin as [<-|Hin]; [vm_compute in H; discriminate H|]).
      exact Hin.
    + intros H. destruct (gavin.by_value gavin.VIDEO_MODE_E v) as [c|] eqn:E; [|reflexivity].
      exfalso. apply H. apply by_value_sound in E. subst v.
      destruct c; simpl; tauto. }
  assert (HD : forall v, gavin.by_value gavin.DEVICE_STATUS_E v = None
                         <-> ~ In v [1; -1]%Z).
  { intros v. split.
    + intros H Hin. simpl in Hin.
      repeat (destruct Hin as [<-|Hin]; [vm_compute in H; discriminate H|]).
      exact Hin.
    + intros H. destruct (gavin.by_value gavin.DEVICE_STATUS_E v) as [c|] eqn:E; [|reflexivity].
      exfalso. apply H. apply by_value_sound in E. subst v.
      destruct c; simpl; tauto. }
  split; [intros []; reflexivity|].
  split; [intros []; reflexivity|].
  split; [intros []; reflexivity|].
  split; [intros v c; apply by_value_sound|].
  split; [intros v c; apply by_value_sound|].
  split; [intros v c; apply by_value_sound|].
  split; [exact HC|]. split; [exact HV|]. split; [exact HD|].
  split; [|split; [|split; [|split]]].
  - intros v. rewrite <- HD. unfold client.connect_status_cb.
    destruct (gavin.by_value gavin.DEVICE_STATUS_E (client.c_int_value v));
      split; intros H; [discriminate H | discriminate H | reflexivity | reflexivity].
  - intros v E. unfold client.connect_status_cb. rewrite E. reflexivity.
  - intros v E. unfold client.connect_status_cb. rewrite E. reflexivity.
  - intros v. split; [apply c_int_value_range|]. split; [|apply c_int_value_id].
    unfold client.c_int_value.
    replace ((v + 2147483648) mod 4294967296 - 2147483648 - v)%Z
      with ((v + 2147483648) mod 4294967296 - (v + 2147483648))%Z by lia.
    rewrite Zminus_mod, Z.mod_mod, Z.sub_diag by discriminate. reflexivity.
  - reflexivity.
Qed.

Lemma invoke_run lib nm prototype arguments self :
  Dict.get String.eqb nm client._functions_ = Some prototype ->
  client.invoke lib nm arguments self =
  match client.lib_call lib nm prototype arguments with
  | None => (client.mkApi (Some nm), client.Err client.CtypesError)
  | Some ret =>
      if (ret =? 1)%Z then (client.mkApi (Some nm), client.Ok ret)
      else
        (client.mkApi (Some nm),
         client.Err
           match gavin.by_value gavin.CODE_E ret with
           | Some code =>
               client.Exception (nm ++ " error " ++ Py.str_of_Z ret
                                 ++ " (" ++ gavin.name_of gavin.CODE_E code ++ ")")
           | None => client.EnumValueError ret
           end)
  end.
Proof.
  intros Hg. unfold client.invoke, client.and_then, client.__getattr__. rewrite Hg.
  unfold client.__call__. simpl.
  destruct (client.lib_call lib nm prototype arguments) as [ret|]; [|reflexivity].
  destruct (ret =? 1)%Z; simpl; [reflexivity|].
  now destruct (gavin.by_value gavin.CODE_E ret).
Qed.

Lemma invoke_one_or_raises lib nm prototype arguments :
  Dict.get String.eqb nm client._functions_ = Some prototype ->
  one_or_raises (client.invoke lib nm arguments).
Proof.
  intros Hg self. rewrite (@invoke_run lib nm prototype arguments self Hg).
  destruct (client.lib_call lib nm prototype arguments) as [ret|]; simpl; [|exact I].
  destruct (Z.eqb_spec ret 1); simpl; [assumption|].
  now destruct (gavin.by_value gavin.CODE_E ret).
Qed.

(** X17.  Every method of Client gives 1 or raises: the name it looks up
    is one of _functions_, and line 77 turns every other answer of the
    library into an exception.  So the tests of lines 97 and 118 never
    fail: __enter__ never returns None, and GetDeviceList never returns
    None. *)
Theorem client_methods (lib : client.Lib) (dev_info : gavin.GUIDE_USB_DEVICE_INFO_T)
        (dev_id index : Z) :
  one_or_raises (client.Initialize lib)
  /\ one_or_raises (client.Exit lib)
  /\ one_or_raises (client.OpenStream lib dev_info)
  /\ one_or_raises (client.OpenStreamByDevID lib dev_id dev_info)
  /\ one_or_raises (client.CloseStream lib)
  /\ one_or_raises (client.SetPalette lib index)
  /\ (forall self, snd (client.__enter__ lib self) <> client.Ok false)
  /\ (forall self, snd (client.GetDeviceList lib self) <> client.Ok None).
Proof.
  repeat split;
    try (eapply invoke_one_or_raises; reflexivity).
  - intros self. unfold client.__enter__, client.and_then.
    pose proof (@invoke_one_or_raises lib "Initialize" [] [] eq_refl self) as H.
    unfold client.Initialize.
    destruct (client.invoke lib "Initialize" [] self) as [self' [r|e]]; simpl in *;
      [subst r; discriminate | discriminate].
  - intros self. unfold client.GetDeviceList, client.and_then.
    pose proof (@invoke_one_or_raises lib "GetDeviceList" _ [client.ArgDevices] eq_refl self)
      as H.
    destruct (client.invoke lib "GetDeviceList" [client.ArgDevices] self)
      as [self' [r|e]]; simpl in *; [subst r; discriminate | discriminate].
Qed.

(** X18.  What a failing library call raises.  For a function of
    _functions_ that answers ret other than 1: when ret is a value of
    GUIDE_USB_CODE_E, Exception with the message made of the name of the
    function, the word error, ret and the name of the code in
    parentheses; otherwise the ValueError of the Enum lookup inside the
    f-string of line 78, and no message.  An answer of 0 is such a case. *)
Theorem api_error (lib : client.Lib) (nm : string) (prototype : client.Prototype)
        (arguments : list client.CArg) (self : client.GAVIN_API) (ret : Z) :
  Dict.get String.eqb nm client._functions_ = Some prototype ->
  client.lib_call lib nm prototype arguments = Some ret ->
  ret <> 1%Z ->
  (forall code,
     gavin.by_value gavin.CODE_E ret = Some code ->
     snd (client.invoke lib nm arguments self)
     = client.Err (client.Exception
                     (nm ++ " error " ++ Py.str_of_Z ret
                      ++ " (" ++ gavin.name_of gavin.CODE_E code ++ ")")))
  /\ (~ In ret [1; -1; -2; -3; -4; -5; -6; -999]%Z ->
      snd (client.invoke lib nm arguments self) = client.Err (client.EnumValueError ret))
  /\ (ret = 0%Z ->
      snd (client.invoke lib nm arguments self) = client.Err (client.EnumValueError 0)).
Proof.
  intros Hg Hc Hne. rewrite (@invoke_run lib nm prototype arguments self Hg), Hc.
  destruct (Z.eqb_spec ret 1) as [|_]; [contradiction|]. simpl.
  split; [|split].
  - now intros code ->.
  - intros Hin.
    destruct (gavin.by_value gavin.CODE_E ret) as [c|] eqn:E; [|reflexivity].
    exfalso. apply Hin. unfold gavin.by_value in E. apply find_some in E.
    destruct E as [_ E]. apply Z.eqb_eq in E. subst ret. destruct c; simpl; tauto.
  - intros ->. reflexivity.
Qed.

(** The library answers -1, and then 0, to Initialize. *)
Lemma api_error_witness :
  snd (client.invoke (Sample.lib (-1)) "Initialize" [] (client.mkApi None))
  = client.Err (client.Exception "Initialize error -1 (ERROR_DEVICE_NOT_FOUND)")
  /\ snd (client.invoke (Sample.lib 0) "Initialize" [] (client.mkApi None))
     = client.Err (client.EnumValueError 0).
Proof.
  split.
  - exact (proj1 (@api_error (Sample.lib (-1)) "Initialize" [] [] (client.mkApi None) (-1)%Z
                    eq_refl eq_refl ltac:(discriminate))
             gavin.ERROR_DEVICE_NOT_FOUND eq_refl).
  - exact (proj2 (proj2 (@api_error (Sample.lib 0) "Initialize" [] [] (client.mkApi None) 0%Z
                           eq_refl eq_refl ltac:(discriminate)))
             eq_refl).
Defined.

(** *** frame_recv_cb *)

Lemma handle_frame_returns a w m :
  locks_free m ->
  exists m' evs r n,
    handle_frame a w m = (m', evs, Returned r n) /\ locks_free m'.
Proof.
  intros [HL HF].
  pose proof (@enter_spec a w (set_SERVERS_LOCK true m) eq_refl) as HE.
  destruct (enter a w (set_SERVERS_LOCK true m)) as [s0|m' evs e|m' evs] eqn:E.
  - rewrite (@handle_frame_entered a w m s0 HL E). do 4 eexists. split; [reflexivity|].
    destruct HE as (Hh & _ & _ & _ & Hreg).
    apply store_locks_free; [split; reflexivity|].
    intros kv Hin. simpl in Hin.
    pose proof (@body_reg_incl a w (SERVERS (mach s0))) as HR.
    apply (proj2 (@tri_fst _ _ _ _ _ HR (incl_refl _))) in Hin.
    destruct (Hreg _ Hin) as [H|H]; auto.
    destruct kv as [k ep]. exact (HF _ _ H).
  - unfold handle_frame. rewrite HL, E. destruct HE as [H1 H2]. rewrite H1.
    do 4 eexists. split; [reflexivity|]. split; simpl; auto. rewrite H2. exact HF.
  - destruct HE as (ep & G & El). apply get_In in G. destruct G as (k & _ & Hin).
    simpl in Hin. rewrite (HF _ _ Hin) in El. discriminate.
Qed.

Lemma handle_frame_keeps_server a w m ep :
  frame a <> None ->
  Dict.get addr_eqb (local_address a) (SERVERS m) = Some ep ->
  exists ep',
    Dict.get addr_eqb (local_address a) (SERVERS (machine_of (handle_frame a w m))) = Some ep'
    /\ ep_server ep' = ep_server ep.
Proof.
  intros Hf Hg.
  destruct (handle_frame_shapes a w m) as [(s0 & HL & HE & ->)|(E & _ & _)].
  2:{ rewrite E. eauto. }
  unfold machine_of. simpl.
  destruct (@entered_state a w m s0 HL HE) as (_ & _ & _ & _ & Hmem).
  pose proof (@enter_entered a w _ s0 HE) as (_ & Ec & _). simpl in Ec. rewrite Hg in Ec.
  assert (Hsv : ep_server (cur s0) = ep_server ep) by now rewrite Ec.
  pose proof (proj2 (@tri_fst _ _ _ _ _ (@body_server a w (ep_server ep)) Hsv)) as H1.
  pose proof (proj2 (@tri_fst _ _ _ _ _ (@body_reg_is a w (SERVERS (mach s0)) Hf) eq_refl))
    as H2.
  unfold reg_is in H2.
  exists (cur (unlocked (fst (body a w s0)))). split.
  - apply get_store_same. simpl. now rewrite H2.
  - exact H1.
Qed.

Lemma keeps_bind {S A B} (P : S -> Prop) (c : M S A) (k : A -> M S B) :
  keeps P c -> (forall x, keeps P (k x)) -> keeps P (bind c k).
Proof.
  intros Hc Hk s Hs. unfold bind. specialize (Hc s Hs).
  destruct (c s) as [s' [x| |e|]]; simpl in *; auto. now apply Hk.
Qed.

Lemma stream_keeps cam (P : Machine * list Event -> Prop) data len dt shape chan :
  (forall img, keeps P (client.call_handle_frame (client.handle_frame_args img chan)
                          (client.world_of cam chan))) ->
  keeps P (client.stream cam data len dt shape chan).
Proof.
  intros H. unfold client.stream.
  destruct (0 <? len)%Z; [|intros s Hs; exact Hs].
  destruct (client.frombuffer_reshape cam data len dt shape) as [img|];
    [apply H | intros s Hs; exact Hs].
Qed.

(** X19.  The camera callback serves one endpoint only.  Whatever the
    frame holds and whatever happens in the four calls, frame_recv_cb
    leaves every registry entry other than that of ('', 80) as it was,
    and once ('', 80) is registered it stays registered with the same
    listening socket: the callback never passes the shutdown sentinel,
    and never opens a second listening socket on the port. *)
Theorem frame_recv_cb_endpoint (cam : client.Camera) (fr : gavin.GUIDE_USB_FRAME_DATA_T)
        (m : Machine) (evs : list Event) :
  let m' := fst (fst (client.frame_recv_cb cam fr (m, evs))) in
  (forall k, k <> (EmptyString, 80%Z) ->
     Dict.get addr_eqb k (SERVERS m') = Dict.get addr_eqb k (SERVERS m))
  /\ (forall ep, Dict.get addr_eqb (EmptyString, 80%Z) (SERVERS m) = Some ep ->
        exists ep',
          Dict.get addr_eqb (EmptyString, 80%Z) (SERVERS m') = Some ep'
          /\ ep_server ep' = ep_server ep).
Proof.
  set (P := fun s : Machine * list Event =>
              (forall k, k <> (EmptyString, 80%Z) ->
                 Dict.get addr_eqb k (SERVERS (fst s)) = Dict.get addr_eqb k (SERVERS m))
              /\ (forall ep, Dict.get addr_eqb (EmptyString, 80%Z) (SERVERS m) = Some ep ->
                    exists ep',
                      Dict.get addr_eqb (EmptyString, 80%Z) (SERVERS (fst s)) = Some ep'
                      /\ ep_server ep' = ep_server ep)).
  assert (Hcall : forall img chan w,
             keeps P (client.call_handle_frame (client.handle_frame_args img chan) w)).
  { intros img chan w [m1 e1] [H1 H2]. unfold client.call_handle_frame. simpl.
    pose proof (@handle_frame_others (client.handle_frame_args img chan) w m1) as Ho.
    pose proof (@handle_frame_keeps_server (client.handle_frame_args img chan) w m1) as Hk.
    unfold machine_of in Ho, Hk.
    destruct (handle_frame (client.handle_frame_args img chan) w m1) as [[m2 e2] o].
    simpl in Ho, Hk.
    assert (HP : P (m2, (e1 ++ e2)%list)).
    { split; simpl.
      - intros k Hne. rewrite (Ho k Hne). now apply H1.
      - intros ep Hg. destruct (H2 ep Hg) as (ep1 & G1 & S1).
        destruct (Hk ep1) as (ep2 & G2 & S2); [discriminate | exact G1 |].
        exists ep2. split; [exact G2 | congruence]. }
    now destruct o. }
  assert (H0 : P (m, evs)) by (split; simpl; eauto).
  assert (H : keeps P (client.frame_recv_cb cam fr)).
  { unfold client.frame_recv_cb.
    repeat (apply keeps_bind; [|intros _]); apply stream_keeps; intros; apply Hcall. }
  exact (H _ H0).
Qed.

Lemma stream_spec cam data len dt shape chan s :
  locks_free (fst s) ->
  match client.stream cam data len dt shape chan s with
  | (s', Val _) => locks_free (fst s')
  | (s', Raise e) =>
      e = ValueError /\ locks_free (fst s')
      /\ (0 < len)%Z /\ client.frombuffer_reshape cam data len dt shape = None
  | _ => False
  end.
Proof.
  intros Hs. unfold client.stream.
  destruct (Z.ltb_spec 0 len) as [Hl|_]; [|exact Hs].
  destruct (client.frombuffer_reshape cam data len dt shape) as [img|]; [|simpl; auto].
  unfold client.call_handle_frame.
  destruct (@handle_frame_returns (client.handle_frame_args img chan)
              (client.world_of cam chan) (fst s) Hs) as (m' & evs & r & n & -> & HF).
  exact HF.
Qed.

(** X20.  What can stop the camera callback.  Called while no lock of
    the module is held, frame_recv_cb does not block and leaves no lock
    held, and it ends normally unless the cast or the reshape of a stream
    that has data raises ValueError: nothing that fails inside
    handle_frame (socket, select, recv, the encoder, send) makes the
    callback raise, so a failure while serving one stream never keeps the
    streams that follow from being handed to handle_frame. *)
Theorem frame_recv_cb_outcome (cam : client.Camera) (fr : gavin.GUIDE_USB_FRAME_DATA_T)
        (m : Machine) (evs : list Event) :
  locks_free m ->
  let r := client.frame_recv_cb cam fr (m, evs) in
  locks_free (fst (fst r))
  /\ (snd r = Val tt
      \/ (snd r = Raise ValueError
          /\ exists data len dt shape,
               (0 < len)%Z /\ client.frombuffer_reshape cam data len dt shape = None)).
Proof.
  intros H0. unfold client.frame_recv_cb, bind.
  repeat match goal with
         | |- context [client.stream cam ?d ?l ?t ?sh ?c ?s] =>
             let H := fresh "H" in
             pose proof (@stream_spec cam d l t sh c s) as H;
             destruct (client.stream cam d l t sh c s) as [? [[]| |?|]];
             simpl in H |- *;
             [ specialize (H ltac:(assumption))
             | exfalso; apply H; assumption
             | destruct (H ltac:(assumption)) as (-> & ? & ? & ?); eauto 10
             | exfalso; apply H; assumption ]
         end.
  auto.
Qed.

(** A frame with RGB data only, on the freshly imported module. *)
Lemma frame_recv_cb_outcome_witness :
  let r := client.frame_recv_cb Sample.camera Sample.rgb_frame (boot, []) in
  locks_free boot
  /\ locks_free (fst (fst r))
  /\ (snd r = Val tt
      \/ (snd r = Raise ValueError
          /\ exists data len dt shape,
               (0 < len)%Z
               /\ client.frombuffer_reshape Sample.camera data len dt shape = None)).
Proof.
  assert (H : locks_free boot) by (split; [reflexivity | intros k ep []]).
  split; [exact H|].
  exact (@frame_recv_cb_outcome Sample.camera Sample.rgb_frame boot [] H).
Defined.
